(** * EEJWebApp: trend statistics and zonal aggregation

    A shallow embedding of
      - [src/python/TrendsCode/GreenLSTTrends3YrMedians.py]  (RasterLinModel,
        WarpToMatchResolution),
      - [src/python/TrendsCode/CollectCensusTractStats3.py]  (AddRasterStatistics),
      - [src/python/TrendsCode/CollectCensusTractStats2.py]  (AddRasterStatistics),
      - [src/python/ClassificationAccuracyAssessment/PolygonAccuracy.py],
    and the properties of the specification that are checked against it.

    numpy computes on IEEE-754 binary64 values.  The embedding is written
    once, over the interface [Float64] of the operations the scripts use, and
    is read at two instances:
      - [binary64]: Rocq's primitive floats, i.e. the values and the rounding
        the scripts really compute with (evaluated by [vm_compute]);
      - [exact]: the extended reals [xreal] (NaN, the two infinities, finite
        reals) with the IEEE rules for the special values and no rounding,
        the arithmetic that binary64 approximates.
    [Float64Laws] states how an arithmetic treats the zeros, the infinities
    and NaN; both instances satisfy it, and what is proved from it holds of
    the values the scripts compute, whatever is rounded.  A statement that
    depends on a rounding is made in [binary64].
    A zero is unsigned in [exact]; every zero the scripts divide by is the
    result of a square root, of a product of square roots or of [1 - c*c],
    hence [+0] in binary64 as well. *)

From Stdlib Require Import List ZArith Reals Lra Lia Floats Bool String.
From stdpp Require Import base gmap strings.
Import ListNotations.

(** ** The arithmetic of numpy float64 arrays *)

Class Float64 (F : Type) : Type := {
  fnan   : F;                 (* np.nan *)
  of_Z   : Z -> F;            (* an int used in float arithmetic *)
  fadd   : F -> F -> F;
  fsub   : F -> F -> F;
  fmul   : F -> F -> F;
  fdiv   : F -> F -> F;       (* numpy true division: x/0 is inf or nan, never raises *)
  fsqrt  : F -> F;
  feqb   : F -> F -> bool;    (* == *)
  fisnan : F -> bool          (* np.isnan *)
}.

(** *** Instance 1: binary64 *)

(* float(z), for |z| < 2^63 *)
Definition b64_of_Z (z : Z) : float :=
  match z with
  | Z0 => PrimFloat.zero
  | Zpos _ => PrimFloat.of_uint63 (Uint63.of_Z z)
  | Zneg p => PrimFloat.opp (PrimFloat.of_uint63 (Uint63.of_Z (Zpos p)))
  end.

#[export] Instance binary64 : Float64 float := {|
  fnan   := PrimFloat.nan;
  of_Z   := b64_of_Z;
  fadd   := PrimFloat.add;
  fsub   := PrimFloat.sub;
  fmul   := PrimFloat.mul;
  fdiv   := PrimFloat.div;
  fsqrt  := PrimFloat.sqrt;
  feqb   := PrimFloat.eqb;
  fisnan := PrimFloat.is_nan
|}.

(** *** Instance 2: extended reals, no rounding *)

Inductive xreal : Type :=
  | XNan : xreal
  | XInf (neg : bool) : xreal      (* XInf false = +inf, XInf true = -inf *)
  | XFin (r : R) : xreal.

Definition Rneg (r : R) : bool := if Rlt_dec r 0 then true else false.
Definition Rzero (r : R) : bool := if Req_dec_T r 0 then true else false.

Definition xopp (a : xreal) : xreal :=
  match a with
  | XNan => XNan
  | XInf s => XInf (negb s)
  | XFin r => XFin (- r)
  end.

Definition xadd (a b : xreal) : xreal :=
  match a, b with
  | XNan, _ | _, XNan => XNan
  | XInf s, XInf s' => if Bool.eqb s s' then XInf s else XNan
  | XInf s, XFin _ => XInf s
  | XFin _, XInf s => XInf s
  | XFin x, XFin y => XFin (x + y)
  end.

Definition xsub (a b : xreal) : xreal := xadd a (xopp b).

Definition xmul (a b : xreal) : xreal :=
  match a, b with
  | XNan, _ | _, XNan => XNan
  | XInf s, XInf s' => XInf (xorb s s')
  | XInf s, XFin y => if Rzero y then XNan else XInf (xorb s (Rneg y))
  | XFin x, XInf s => if Rzero x then XNan else XInf (xorb s (Rneg x))
  | XFin x, XFin y => XFin (x * y)
  end.

Definition xdiv (a b : xreal) : xreal :=
  match a, b with
  | XNan, _ | _, XNan => XNan
  | XInf _, XInf _ => XNan
  | XInf s, XFin y => XInf (xorb s (Rneg y))
  | XFin _, XInf _ => XFin 0
  | XFin x, XFin y =>
      if Rzero y then (if Rzero x then XNan else XInf (Rneg x))
      else XFin (x / y)
  end.

Definition xsqrt (a : xreal) : xreal :=
  match a with
  | XNan => XNan
  | XInf s => if s then XNan else XInf false
  | XFin x => if Rneg x then XNan else XFin (R_sqrt.sqrt x)
  end.

Definition xeqb (a b : xreal) : bool :=
  match a, b with
  | XFin x, XFin y => if Req_dec_T x y then true else false
  | XInf s, XInf s' => Bool.eqb s s'
  | _, _ => false
  end.

Definition xisnan (a : xreal) : bool :=
  match a with XNan => true | _ => false end.

#[export] Instance exact : Float64 xreal := {|
  fnan   := XNan;
  of_Z   := fun z => XFin (IZR z);
  fadd   := xadd;
  fsub   := xsub;
  fmul   := xmul;
  fdiv   := xdiv;
  fsqrt  := xsqrt;
  feqb   := xeqb;
  fisnan := xisnan
|}.

(** ** The special values of IEEE-754

    What the statements below need of the arithmetic is how it treats the
    zeros, the infinities and NaN; no statement made for every instance
    depends on a rounding.  [fzero x] is [x == 0] (a zero of either sign);
    [ffinite x] is [x - x == 0], which holds of the zeros and of the finite
    values and fails for NaN and for the infinities. *)

Definition fzero {F : Type} `{Float64 F} (x : F) : bool := feqb x (of_Z 0).

Definition ffinite {F : Type} `{Float64 F} (x : F) : bool :=
  feqb (fsub x x) (of_Z 0).

Class Float64Laws (F : Type) `{Float64 F} : Prop := {
  fzero_0 : fzero (of_Z 0) = true;
  of_Z_regular (k : Z) :
    (1 <= k <= 1024)%Z -> ffinite (of_Z k) = true /\ fzero (of_Z k) = false;
  fzero_ffinite (x : F) : fzero x = true -> ffinite x = true;
  ffinite_not_nan (x : F) : ffinite x = true -> fisnan x = false;
  fadd_zero (x y : F) :
    fzero x = true -> fzero y = true -> fzero (fadd x y) = true;
  fsub_zero_r (x y : F) :
    ffinite x = true -> fzero y = true -> feqb (fsub x y) x = true;
  fsub_nan_l (x y : F) : fisnan x = true -> fisnan (fsub x y) = true;
  fsub_nan_r (x y : F) : fisnan y = true -> fisnan (fsub x y) = true;
  fmul_nan_l (x y : F) : fisnan x = true -> fisnan (fmul x y) = true;
  fmul_nan_r (x y : F) : fisnan y = true -> fisnan (fmul x y) = true;
  fmul_zero_r (x y : F) :
    fzero y = true -> fzero (fmul x y) = true \/ fisnan (fmul x y) = true;
  fmul_finite_zero (x y : F) :
    ffinite x = true -> fzero y = true -> fzero (fmul x y) = true;
  fdiv_nan_l (x y : F) : fisnan x = true -> fisnan (fdiv x y) = true;
  fdiv_nan_r (x y : F) : fisnan y = true -> fisnan (fdiv x y) = true;
  fdiv_zero_zero (x y : F) :
    fzero x = true -> fzero y = true -> fisnan (fdiv x y) = true;
  fdiv_zero_regular (x y : F) :
    fzero x = true -> ffinite y = true -> fzero y = false ->
    fzero (fdiv x y) = true;
  fsqrt_nan (x : F) : fisnan x = true -> fisnan (fsqrt x) = true;
  fsqrt_zero (x : F) : fzero x = true -> fzero (fsqrt x) = true
}.

(** ** numpy reductions along the period axis

    One entity (a pixel, or a zone) owns one slice along axis 2; the
    reductions below are numpy's, written for one slice.  [np.sum] adds from
    left to right (numpy switches to pairwise addition from 8 elements on,
    which changes the rounding in [binary64] and nothing in [exact]). *)

Section Trend.
Context {F : Type} `{Float64 F}.

(** [scipy.stats.t.sf x df], the survival function of Student's t. *)
Variable t_sf : F -> Z -> F.

Definition np_sum (a : list F) : F :=
  match a with
  | [] => of_Z 0
  | x :: xs => fold_left fadd xs x
  end.

(* numpy.lib.nanfunctions._replace_nan(a, 0) and the count of ~mask *)
Definition replace_nan (a : list F) : list F :=
  map (fun x => if fisnan x then of_Z 0 else x) a.

Definition count_valid (a : list F) : nat :=
  length (List.filter (fun x => negb (fisnan x)) a).

Definition nansum (a : list F) : F := np_sum (replace_nan a).

Definition nanmean (a : list F) : F :=
  fdiv (np_sum (replace_nan a)) (of_Z (Z.of_nat (count_valid a))).

(* np.nanvar with ddof = 0: the deviations of the masked entries are reset
   to 0 before squaring, and a slice without valid entry is NaN *)
Definition nanvar (a : list F) : F :=
  let cnt := count_valid a in
  let avg := fdiv (np_sum (replace_nan a)) (of_Z (Z.of_nat cnt)) in
  let dev := map (fun x => if fisnan x then of_Z 0 else fsub x avg) a in
  let sqr := map (fun d => fmul d d) dev in
  let var := fdiv (np_sum sqr) (of_Z (Z.of_nat cnt)) in
  if (cnt <=? 0)%nat then fnan else var.

Definition nanstd (a : list F) : F := fsqrt (nanvar a).

(** ** The regression statistics (GreenLSTTrends3YrMedians.py, 137-160;
       CollectCensusTractStats3.py, 77-81 and 178-196) *)

Record TrendStats : Type := {
  cov : F; cor : F; slope : F; intercept : F;
  tstats : F; stderr : F; pval : F
}.

(** [n] is [band_data.shape[2]]; [time_px] and [band_px] are the slices of
    [time_data] and [band_data] of one entity. *)
Definition lin_stats (n : nat) (time_px band_px : list F) : TrendStats :=
  let n := Z.of_nat n in
  let xmean := nanmean time_px in
  let ymean := nanmean band_px in
  let xstd := nanstd time_px in
  let ystd := nanstd band_px in
  let cov :=
    fdiv (nansum (zip_with (fun t y => fmul (fsub t xmean) (fsub y ymean))
                           time_px band_px))
         (of_Z n) in
  let cor := fdiv cov (fmul xstd ystd) in
  let slope := fdiv cov (fmul xstd xstd) in
  let intercept := fsub ymean (fmul xmean slope) in
  let tstats :=
    fdiv (fmul cor (fsqrt (of_Z (n - 2))))
         (fsqrt (fsub (of_Z 1) (fmul cor cor))) in
  let stderr := fdiv slope tstats in
  let pval := fmul (t_sf tstats (n - 2)) (of_Z 2) in
  {| cov := cov; cor := cor; slope := slope; intercept := intercept;
     tstats := tstats; stderr := stderr; pval := pval |}.

(** ** RasterLinModel (GreenLSTTrends3YrMedians.py, 78-187) *)

(* list(range(start, stop, step)) for a positive step *)
Definition py_range (start stop step : Z) : list Z :=
  map (fun i => (start + step * Z.of_nat i)%Z)
      (seq 0 (Z.to_nat ((stop - start + step - 1) / step))).

(* lines 99-104 *)
Definition since_of (start_year end_year : Z) : list Z :=
  let years := py_range (start_year + 1) (end_year + 1) 3 in
  map (fun year => (year - start_year)%Z) years.

(** A band of the input raster: its array (row-major) and its declared
    no-data value ([GetNoDataValue] is [None] when none is declared). *)
Record Band : Type := { band_arr : list F; band_nodata : option F }.

(* arr == nodata, elementwise *)
Definition eq_scalar (arr : list F) (nodata : option F) : list bool :=
  map (fun x => match nodata with Some v => feqb x v | None => false end) arr.

(* arr[mask] = v *)
Definition assign_where (arr : list F) (mask : list bool) (v : F) : list F :=
  zip_with (fun x (m : bool) => if m then v else x) arr mask.

(** Lines 122-129, for one band.  Line 128 overwrites [arr] in place; the
    mask of line 129 is computed from the overwritten array. *)
Definition read_band (year : Z) (b : Band) : list F * list F :=
  let arr := band_arr b in
  let time_arr := repeat (of_Z year) (length arr) in
  let nodata := band_nodata b in
  let arr := assign_where arr (eq_scalar arr nodata) fnan in
  let time_arr := assign_where time_arr (eq_scalar arr nodata) fnan in
  (arr, time_arr).

(** Lines 118-132: [since[band]] raises IndexError ([None]) when the raster
    has more bands than there are periods. *)
Fixpoint read_bands (bands : list Band) (since : list Z)
  : option (list (list F) * list (list F)) :=
  match bands with
  | [] => Some ([], [])
  | b :: bs =>
      match since with
      | [] => None
      | year :: later =>
          let '(arr, time_arr) := read_band year b in
          match read_bands bs later with
          | None => None
          | Some (band_data, time_data) =>
              Some (arr :: band_data, time_arr :: time_data)
          end
      end
  end.

(** [np.dstack]: from one array per band to one slice per pixel; an empty
    list of arrays raises ValueError ([None]). *)
Fixpoint slices (layers : list (list F)) : list (list F) :=
  match layers with
  | [] => []
  | l :: ls =>
      match ls with
      | [] => map (fun x => [x]) l
      | _ :: _ => zip_with cons l (slices ls)
      end
  end.

Definition dstack (layers : list (list F)) : option (list (list F)) :=
  match layers with
  | [] => None
  | _ :: _ => Some (slices layers)
  end.

(** A band of the output dataset, as [driver.Create] makes it and as lines
    182-184 fill it. *)
Record OutBand : Type := {
  NoDataValue : option F;
  Description : string;
  Array : list F
}.

Definition stat_labs : list string :=
  ["covaraince"; "correlation"; "slope"; "intercept"; "tstat"; "stderr"; "pval"]%string.

(* driver.Create('mem_raster', cols, rows, 7, GDT_Float64) *)
Definition Create (pixels bands : nat) : list OutBand :=
  repeat {| NoDataValue := None; Description := ""%string;
            Array := repeat (of_Z 0) pixels |} bands.

(* lines 178-184: b counts from 1, band b is [out_ds !! (b-1)] *)
Fixpoint write_bands (b : nat) (stats : list (list F * string))
  (out_ds : list OutBand) : list OutBand :=
  match stats with
  | [] => out_ds
  | (stat, lab) :: rest =>
      let b := S b in
      write_bands b rest
        (<[ Nat.pred b := {| NoDataValue := Some (of_Z (-9999));
                             Description := lab;
                             Array := stat |} ]> out_ds)
  end.

(** The statistics of every pixel (lines 137-160) and the dataset handed to
    the warp (lines 162-186). *)
Definition pixel_stats (band_data time_data : list (list F))
  : option (list TrendStats) :=
  match dstack band_data, dstack time_data with
  | Some band_px, Some time_px =>
      let n := length band_data in
      Some (zip_with (lin_stats n) time_px band_px)
  | _, _ => None
  end.

Definition RasterLinModel (raster : list Band) (start_year end_year : Z)
  : option (list OutBand) :=
  let since := since_of start_year end_year in
  match read_bands raster since with
  | None => None
  | Some (band_data, time_data) =>
      match pixel_stats band_data time_data with
      | None => None
      | Some st =>
          let stat_list :=
            [map cov st; map cor st; map slope st; map intercept st;
             map tstats st; map stderr st; map pval st] in
          let out_ds := Create (length st) 7 in
          Some (write_bands 0 (zip stat_list stat_labs) out_ds)
      end
  end.

End Trend.

(** ** The vector layer (OGR) *)

(** A feature of the zone shapefile: the value of the id field
    ([filt_field_name]), its geometry, and its other attribute fields; a
    field that is null has no entry. *)
Record Feature (F G : Type) : Type := {
  zone_key : string;
  geometry : G;
  fields : gmap string F
}.
Arguments zone_key {F G} _.
Arguments geometry {F G} _.
Arguments fields {F G} _.

Section Layer.
Context {F G : Type}.

(* feat.SetField(name, value) *)
Definition SetField (name : string) (value : F) (feat : Feature F G)
  : Feature F G :=
  {| zone_key := zone_key feat; geometry := geometry feat;
     fields := <[ name := value ]> (fields feat) |}.

(* a run of SetField calls on one feature, in order *)
Definition SetFields (values : list (string * F)) (feat : Feature F G)
  : Feature F G :=
  fold_left (fun feat '(name, value) => SetField name value feat) values feat.

(** [layer.SetAttributeFilter(f"{filt_field_name} = '{tract_id}'")] followed
    by [for feat in layer: body(feat); layer.SetFeature(feat)]: the features
    that pass the filter are rewritten in place, the others are untouched. *)
Definition for_feat_in (tract_id : string) (body : Feature F G -> Feature F G)
  (layer : list (Feature F G)) : list (Feature F G) :=
  map (fun feat =>
         if String.eqb (zone_key feat) tract_id then body feat else feat)
      layer.

End Layer.

(* the value that a run of SetField calls leaves in field [name], if the
   run writes that field *)
Fixpoint written {F : Type} (values : list (string * F)) (name : string)
  : option F :=
  match values with
  | [] => None
  | (name', value) :: later =>
      match written later name with
      | Some v => Some v
      | None => if String.eqb name' name then Some value else None
      end
  end.

(** ** AddRasterStatistics (CollectCensusTractStats3.py) *)

Inductive outcome (L : Type) : Type :=
  | Done (layer : L)       (* the statements ran to their end *)
  | Raised (layer : L).    (* an exception escaped; the layer as persisted so far *)
Arguments Done {L} _.
Arguments Raised {L} _.

(* a[i] on a Python list or along an array axis *)
Definition py_index {A : Type} (a : list A) (i : Z) : option A :=
  if (0 <=? i)%Z then a !! Z.to_nat i
  else if (- Z.of_nat (length a) <=? i)%Z
       then a !! Z.to_nat (Z.of_nat (length a) + i)
       else None.

Module CollectCensusTractStats3.
Section Stats3.
Context {F G : Type} `{Float64 F}.
Variable t_sf : F -> Z -> F.

(** The collaborators: the three opened rasters, rasterio's
    [mask(src, shapes, crop=True)] (the clipped bands, or an exception), and
    [np.nanmedian] of one clipped band. *)
Variable Source : Type.
Variables ndvi_src lst_src gsc_src : Source.
Variable mask : Source -> list G -> option (list (list F)).
Variable nanmedian : list F -> F.
Variables ndvi_nodata lst_nodata : option F.
Variable band_idx : Z.

Definition start_year : Z := 1990.
Definition end_year : Z := 2020.

(* lines 61-66 *)
Definition since : list Z :=
  map (fun year => (year - start_year)%Z) (py_range start_year end_year 1).

(* lines 69-81: time_data has shape (1, 1, len(since)) *)
Definition time_data : list F := map of_Z since.
Definition n : nat := length time_data.

Definition stat_labs : list string :=
  ["cov"; "corr"; "int"; "med"; "pval"; "slope"; "stderr"; "tstat"]%string.
Definition ts_rast_labs : list string := ["NDVI"; "LST"]%string.

Definition stat_lab (i : nat) : string := nth i stat_labs ""%string.

(* lines 100-112: the fields created on the layer before the loop *)
Definition created_fields : list string :=
  ["greenArea"; "waterArea"; "urbanArea"]%string
  ++ flat_map (fun ts_rast_lab =>
                 map (fun stat_lab => stat_lab +:+ ts_rast_lab) stat_labs)
              ts_rast_labs.

(* lines 120-126: the body of the try *)
Definition clip (shapes : list G)
  : option (list (list F) * list (list F) * list (list F)) :=
  match mask ndvi_src shapes with
  | None => None
  | Some in_mem_ndvi =>
      match mask lst_src shapes with
      | None => None
      | Some in_mem_lst =>
          match mask gsc_src shapes with
          | None => None
          | Some in_mem_gsc => Some (in_mem_ndvi, in_mem_lst, in_mem_gsc)
          end
      end
  end.

(* lines 130-131 *)
Definition nodata_to_nan (in_mem : list (list F)) (nodata : option F)
  : list (list F) :=
  map (fun band => assign_where band (eq_scalar band nodata) fnan) in_mem.

(* lines 158-168, one raster: in_mem[year,:,:] raises IndexError *)
Fixpoint medians (in_mem : list (list F)) (years : list Z)
  : option (list F) :=
  match years with
  | [] => Some []
  | year :: later =>
      match py_index in_mem year with
      | None => None
      | Some band =>
          match medians in_mem later with
          | None => None
          | Some band_data => Some (nanmedian band :: band_data)
          end
      end
  end.

(* lines 202-209, the SetField calls on one feature *)
Definition trend_fields (ts_rast_lab : string) (st : TrendStats) (med : F)
  : list (string * F) :=
  [ (stat_lab 0 +:+ ts_rast_lab, cov st);
    (stat_lab 1 +:+ ts_rast_lab, cor st);
    (stat_lab 2 +:+ ts_rast_lab, intercept st);
    (stat_lab 3 +:+ ts_rast_lab, med);
    (stat_lab 4 +:+ ts_rast_lab, pval st);
    (stat_lab 5 +:+ ts_rast_lab, slope st);
    (stat_lab 6 +:+ ts_rast_lab, stderr st);
    (stat_lab 7 +:+ ts_rast_lab, tstats st) ].

(** Lines 198-210, the Feature Attribute Writer for one Trend Result. *)
Definition write_trend (tract_id ts_rast_lab : string) (st : TrendStats)
  (med : F) (layer : list (Feature F G)) : list (Feature F G) :=
  for_feat_in tract_id (SetFields (trend_fields ts_rast_lab st med)) layer.

(** Lines 176-210, one time-series raster.  [band_data[0,0,band_idx]] is
    evaluated on the first filtered feature, before any SetFeature, and
    raises IndexError. *)
Definition trend_of_raster (tract_id ts_rast_lab : string)
  (band_data : list F) (layer : list (Feature F G))
  : outcome (list (Feature F G)) :=
  let st := lin_stats t_sf n time_data band_data in
  match py_index band_data band_idx with
  | None => if existsb (fun feat => String.eqb (zone_key feat) tract_id) layer
            then Raised layer else Done layer
  | Some med => Done (write_trend tract_id ts_rast_lab st med layer)
  end.

(* line 220 *)
Definition class_area (in_mem_gsc : list (list F)) (i : Z) : Z :=
  (Z.of_nat (length (List.filter (fun x => feqb x (of_Z i))
                              (concat in_mem_gsc)))
   * 5 * 5)%Z.

(** Lines 213-224, the Feature Attribute Writer for the class areas. *)
Definition write_areas (tract_id : string) (in_mem_gsc : list (list F))
  (layer : list (Feature F G)) : list (Feature F G) :=
  fold_left
    (fun layer '(i, class_lab) =>
       for_feat_in tract_id
         (SetField (class_lab +:+ "Area") (of_Z (class_area in_mem_gsc i)))
         layer)
    (zip [1; 2; 3]%Z ["green"; "water"; "urban"]%string)
    layer.

(* lines 129-224: what is done for a zone once the three clips succeeded *)
Definition zone_body (tract_id : string)
  (in_mem_ndvi in_mem_lst in_mem_gsc : list (list F))
  (layer : list (Feature F G)) : outcome (list (Feature F G)) :=
  let in_mem_ndvi := nodata_to_nan in_mem_ndvi ndvi_nodata in
  let in_mem_lst := nodata_to_nan in_mem_lst lst_nodata in
  match medians in_mem_ndvi since, medians in_mem_lst since with
  | Some ndvi_band_data, Some lst_band_data =>
      match trend_of_raster tract_id "NDVI" ndvi_band_data layer with
      | Raised layer => Raised layer
      | Done layer =>
          match trend_of_raster tract_id "LST" lst_band_data layer with
          | Raised layer => Raised layer
          | Done layer => Done (write_areas tract_id in_mem_gsc layer)
          end
      end
  | _, _ => Raised layer
  end.

(** Lines 114-224.  [gdf] is the shapefile as geopandas read it before the
    loop; [layer] is the same file through OGR, rewritten as the loop goes. *)
Fixpoint zone_loop (gdf : list (Feature F G)) (tract_ids : list string)
  (layer : list (Feature F G)) : outcome (list (Feature F G)) :=
  match tract_ids with
  | [] => Done layer
  | tract_id :: later =>
      let filt_gdf :=
        List.filter (fun row => String.eqb (zone_key row) tract_id) gdf in
      match clip (map geometry filt_gdf) with
      | None => zone_loop gdf later layer           (* except: continue *)
      | Some (in_mem_ndvi, in_mem_lst, in_mem_gsc) =>
          match zone_body tract_id in_mem_ndvi in_mem_lst in_mem_gsc layer with
          | Raised layer => Raised layer
          | Done layer => zone_loop gdf later layer
          end
      end
  end.

(* lines 87-94 and 114; the fields created at lines 100-112 are the ones
   written below, and a field that was not written yet is null *)
Definition AddRasterStatistics (shp : list (Feature F G))
  : outcome (list (Feature F G)) :=
  let gdf := shp in
  let tract_ids := map zone_key gdf in
  zone_loop gdf tract_ids shp.

End Stats3.
End CollectCensusTractStats3.

(** ** AddRasterStatistics (CollectCensusTractStats2.py), lines 131-167 *)

Module CollectCensusTractStats2.
Section Stats2.
Context {F G : Type} `{Float64 F}.

(** The collaborators: [zonal_stats(zone, arr, stats=['median'], ...)] of the
    NDVI and LST snapshots, and [zonal_stats(zone, greenSpace_arr == i,
    stats=['sum'], nodata=0, ...)]; each is [None] when no pixel of the zone
    contributes. *)
Variable median_of : string -> G -> option F.
Variable sum_of_class : Z -> G -> option F.

(* lines 145-155 *)
Definition total_area_list (dissolved : G) : list F :=
  map (fun i =>
         match sum_of_class (i + 1) dissolved with
         | None => of_Z 0
         | Some total_green_space => total_green_space
         end)
      [0; 1; 2]%Z.

(* feat.SetField(name, None) leaves the field null *)
Definition SetFieldOpt (name : string) (value : option F)
  (feat : Feature F G) : Feature F G :=
  match value with
  | Some v => SetField name v feat
  | None =>
      {| zone_key := zone_key feat; geometry := geometry feat;
         fields := delete name (fields feat) |}
  end.

Definition area (total_area_list : list F) (i : nat) : F :=
  fmul (fmul (nth i total_area_list (of_Z 0)) (of_Z 5)) (of_Z 5).

(** Lines 157-167, the Feature Attribute Writer. *)
Definition write_zone (tract_id : string) (dissolved : G)
  (layer : list (Feature F G)) : list (Feature F G) :=
  let total_area_list := total_area_list dissolved in
  for_feat_in tract_id
    (fun feat =>
       let feat := SetFieldOpt "medianNDVI" (median_of "NDVI" dissolved) feat in
       let feat := SetFieldOpt "medianLST" (median_of "LST" dissolved) feat in
       let feat := SetField "greenArea" (area total_area_list 0) feat in
       let feat := SetField "waterArea" (area total_area_list 1) feat in
       let feat := SetField "urbanArea" (area total_area_list 2) feat in
       feat)
    layer.

End Stats2.

(** The statistics rasters (lines 97-120 and 169-195): [tif_files] gives,
    for each of the two rasters, [rast_ds.GetDescription()] and, band by
    band, the band's description and its array; [zonal_median] is
    [zonal_stats(zone, arr, stats=['median'], nodata=-9999.0, ...)], [None]
    when no pixel of the zone contributes; [dissolve] is
    [filt_gdf.dissolve(by=filt_field_name)], [None] when it raises.  A string
    is the list of its characters. *)
Section Stats2Bands.
Context {F G : Type} `{Float64 F}.
Variable median_of : string -> G -> option F.
Variable sum_of_class : Z -> G -> option F.
Variable Arr : Type.
Variable zonal_median : Arr -> G -> option F.
Variable dissolve : list G -> option G.
Variable tif_files : list (string * list (string * Arr)).

(* lines 103-106 and 178-181: 'NDVI' in rast_ds.GetDescription() *)
Definition field_header (description : string) : string :=
  match String.index 0 "NDVI" description with
  | Some _ => "ndvi_"
  | None => "lst_"
  end.

(* lines 114 and 189: field_header + bandDesc[:5] *)
Definition field_name (field_header bandDesc : string) : string :=
  field_header +:+ String.substring 0 5 bandDesc.

(* lines 84-120: the fields created on the layer before the loop *)
Definition created_fields : list string :=
  ["medianNDVI"; "medianLST"; "greenArea"; "waterArea"; "urbanArea"]%string
  ++ flat_map
       (fun '(description, bands) =>
          map (fun '(bandDesc, _) =>
                 field_name (field_header description) bandDesc)
              (bands : list (string * Arr)))
       tif_files.

(* lines 170-195: one SetField per band of each raster, on the features
   that the filter of line 158 still selects *)
Definition write_stats (tract_id : string) (dissolved : G)
  (layer : list (Feature F G)) : list (Feature F G) :=
  fold_left
    (fun layer '(description, bands) =>
       fold_left
         (fun layer '(bandDesc, arr) =>
            for_feat_in tract_id
              (SetFieldOpt (field_name (field_header description) bandDesc)
                           (zonal_median arr dissolved))
              layer)
         (bands : list (string * Arr)) layer)
    tif_files layer.

(* lines 139-195: a zone, once it is dissolved *)
Definition zone_body (tract_id : string) (dissolved : G)
  (layer : list (Feature F G)) : list (Feature F G) :=
  write_stats tract_id dissolved
    (write_zone median_of sum_of_class tract_id dissolved layer).

(** Lines 126-198: no statement of the loop is inside a try. *)
Fixpoint zone_loop (gdf : list (Feature F G)) (tract_ids : list string)
  (layer : list (Feature F G)) : outcome (list (Feature F G)) :=
  match tract_ids with
  | [] => Done layer
  | tract_id :: later =>
      let filt_gdf :=
        List.filter (fun row => String.eqb (zone_key row) tract_id) gdf in
      match dissolve (map geometry filt_gdf) with
      | None => Raised layer
      | Some dissolved =>
          zone_loop gdf later (zone_body tract_id dissolved layer)
      end
  end.

(* lines 74-81 and 126 *)
Definition AddRasterStatistics (shp : list (Feature F G))
  : outcome (list (Feature F G)) :=
  let gdf := shp in
  let tract_ids := map zone_key gdf in
  zone_loop gdf tract_ids shp.

End Stats2Bands.

End CollectCensusTractStats2.

(** ** PolygonAccuracy (ClassificationAccuracyAssessment/PolygonAccuracy.py)

    The two rasters hold integer class codes (no overflow is modelled); an
    array of two dimensions is the list of its rows, and its shape is the
    list of their lengths.  The confusion matrix is a float64 array that
    only ever receives the integers [count * 25], which it holds exactly. *)

Module PolygonAccuracy.

(* class_arr.max(): ValueError on an array without element *)
Definition np_max (a : list Z) : option Z :=
  match a with
  | [] => None
  | x :: xs => Some (fold_left Z.max xs x)
  end.

(* np.zeros((rows, cols)): ValueError for a negative dimension *)
Definition np_zeros (rows cols : Z) : option (list (list Z)) :=
  if ((rows <? 0) || (cols <? 0))%Z then None
  else Some (repeat (repeat 0%Z (Z.to_nat cols)) (Z.to_nat rows)).

(* a[mask] for a boolean mask: IndexError unless the shapes agree; the
   selected elements, row by row *)
Definition bool_index (a : list (list Z)) (mask : list (list bool))
  : option (list Z) :=
  if bool_decide (map length a = map length mask)
  then Some (map fst (List.filter snd (zip (concat a) (concat mask))))
  else None.

Definition count_nonzero (mask : list bool) : Z :=
  Z.of_nat (length (List.filter (fun b : bool => b) mask)).

(* conf_mat[r, c] = v, for r >= 0 and c >= 0: IndexError out of bounds *)
Definition set_cell (conf_mat : list (list Z)) (r c v : Z)
  : option (list (list Z)) :=
  match conf_mat !! Z.to_nat r with
  | Some row =>
      if (Z.to_nat c <? length row)%nat
      then Some (<[ Z.to_nat r := <[ Z.to_nat c := v ]> row ]> conf_mat)
      else None
  | None => None
  end.

(* lines 42-45 *)
Fixpoint inner_loop (class_masked : list Z) (i : Z) (j_range : list Z)
  (conf_mat : list (list Z)) : option (list (list Z)) :=
  match j_range with
  | [] => Some conf_mat
  | j :: later =>
      let class_masked_ij := map (fun c => (c =? j)%Z) class_masked in
      let sum_ij := (count_nonzero class_masked_ij * 25)%Z in
      match set_cell conf_mat (j - 1) (i - 1) sum_ij with
      | None => None
      | Some conf_mat => inner_loop class_masked i later conf_mat
      end
  end.

(* lines 39-45 *)
Fixpoint outer_loop (val_arr class_arr : list (list Z)) (max_class : Z)
  (i_range : list Z) (conf_mat : list (list Z)) : option (list (list Z)) :=
  match i_range with
  | [] => Some conf_mat
  | i :: later =>
      let val_mask := map (map (fun v => (v =? i)%Z)) val_arr in
      match bool_index class_arr val_mask with
      | None => None
      | Some class_masked =>
          match inner_loop class_masked i (py_range 1 (max_class + 1) 1)
                  conf_mat with
          | None => None
          | Some conf_mat =>
              outer_loop val_arr class_arr max_class later conf_mat
          end
      end
  end.

(** Lines 31-47: the matrix handed to [np.savetxt], or an exception. *)
Definition PolygonAccuracy (val_arr class_arr : list (list Z))
  : option (list (list Z)) :=
  match np_max (concat class_arr) with
  | None => None
  | Some max_class =>
      match np_zeros max_class max_class with
      | None => None
      | Some conf_mat =>
          outer_loop val_arr class_arr max_class
            (py_range 1 (max_class + 1) 1) conf_mat
      end
  end.

(* the number of pixels validated as [i] and classified as [j], the two
   arrays given pixel by pixel *)
Definition tally (val_arr class_arr : list Z) (i j : Z) : Z :=
  Z.of_nat (length (List.filter (fun '(v, c) => (v =? i)%Z && (c =? j)%Z)
                                (zip val_arr class_arr))).

(* the classes 1 .. max_class *)
Definition classes (max_class : Z) : list Z :=
  map (fun k => Z.of_nat k + 1)%Z (seq 0 (Z.to_nat max_class)).

End PolygonAccuracy.

(** ** WarpToMatchResolution (GreenLSTTrends3YrMedians.py, lines 14-76)

    The geotransform and the extent are tuples of Python floats, so the
    division is Python's: a divisor equal to zero raises ZeroDivisionError.
    [int] truncates towards zero and raises for NaN and for the infinities.
    The function ends in a call of [gdal.Warp]; the embedding gives the
    arguments that the function computes for it. *)

Class PyFloat (F : Type) : Type := {
  py_int : F -> option Z      (* int(x) *)
}.

(* binary64: the value of a finite float is [m * 2^e] *)
Definition b64_int (x : float) : option Z :=
  match Prim2SF x with
  | S754_zero _ => Some 0%Z
  | S754_infinity _ => None
  | S754_nan => None
  | S754_finite s m e =>
      let v := if (0 <=? e)%Z then (Z.pos m * 2 ^ e)%Z
               else (Z.pos m / 2 ^ (- e))%Z in
      Some (if s then (- v)%Z else v)
  end.

#[export] Instance binary64_int : PyFloat float := {| py_int := b64_int |}.

(* GetGeoTransform(): a tuple of six floats *)
Record GeoTransform (F : Type) : Type := {
  gt_0 : F; gt_1 : F; gt_2 : F; gt_3 : F; gt_4 : F; gt_5 : F
}.
Arguments gt_0 {F} _.
Arguments gt_1 {F} _.
Arguments gt_2 {F} _.
Arguments gt_3 {F} _.
Arguments gt_4 {F} _.
Arguments gt_5 {F} _.

(* layer.GetExtent(): (minX, maxX, minY, maxY) *)
Record Extent (F : Type) : Type := {
  ext_0 : F; ext_1 : F; ext_2 : F; ext_3 : F
}.
Arguments ext_0 {F} _.
Arguments ext_1 {F} _.
Arguments ext_2 {F} _.
Arguments ext_3 {F} _.

(* the keyword arguments of gdal.Warp that the function computes *)
Record WarpArgs (F : Type) : Type := {
  dstNodata : F;
  width : Z;
  height : Z;
  outputBounds : list F
}.
Arguments dstNodata {F} _.
Arguments width {F} _.
Arguments height {F} _.
Arguments outputBounds {F} _.

Section Warp.
Context {F : Type} `{Float64 F} `{PyFloat F}.

(* x / y on Python floats *)
Definition py_truediv (x y : F) : option F :=
  if feqb y (of_Z 0) then None else Some (fdiv x y).

Definition WarpToMatchResolution (match_gt : GeoTransform F)
  (RasterXSize RasterYSize : Z) (GetNoDataValue : option F)
  (cutline_extent : Extent F) : option (WarpArgs F) :=
  (* lines 33-47 *)
  let match_width := RasterXSize in
  let match_height := RasterYSize in
  let match_x_res := gt_1 match_gt in
  let match_y_res := gt_5 match_gt in
  let match_ulx := gt_0 match_gt in
  let match_lrx := fadd match_ulx (fmul match_x_res (of_Z match_width)) in
  let match_uly := gt_3 match_gt in
  let match_lry := fadd match_uly (fmul match_y_res (of_Z match_height)) in
  let match_bounds := [match_ulx; match_lry; match_lrx; match_uly] in
  (* lines 50-54 *)
  let gdal_no_data_value :=
    match GetNoDataValue with
    | None => of_Z (-9999)
    | Some v => v
    end in
  (* lines 61-64 *)
  match py_truediv (fsub (ext_1 cutline_extent) (ext_0 cutline_extent))
                   match_x_res with
  | None => None
  | Some qx =>
      match py_int qx with
      | None => None
      | Some match_width =>
          match py_truediv
                  (fsub (ext_2 cutline_extent) (ext_3 cutline_extent))
                  match_y_res with
          | None => None
          | Some qy =>
              match py_int qy with
              | None => None
              | Some match_height =>
                  let match_bounds :=
                    [ext_0 cutline_extent; ext_2 cutline_extent;
                     ext_1 cutline_extent; ext_3 cutline_extent] in
                  (* lines 71-76 *)
                  Some {| dstNodata := gdal_no_data_value;
                          width := match_width;
                          height := match_height;
                          outputBounds := match_bounds |}
              end
          end
      end
  end.

End Warp.

(** ** Reading the statistics in exact arithmetic

    A slice after the no-data resolution holds data or NaN; [lift] maps
    [None] to NaN and [Some r] to the finite value [r]. *)

Definition lift (y : option R) : xreal :=
  match y with Some r => XFin r | None => XNan end.

Definition fin (l : list R) : list xreal := map XFin l.

(* the valid periods of a slice *)
Definition vals (o : list (option R)) : list R :=
  omap (fun y : option R => y) o.

Definition Rsum (l : list R) : R := fold_right Rplus 0%R l.
Definition Rmean (l : list R) : R := (Rsum l / INR (length l))%R.
Definition Rvar (l : list R) : R :=
  (Rsum (map (fun x => (x - Rmean l) * (x - Rmean l)) l) / INR (length l))%R.

(* the sum of the squared deviations from [m] *)
Definition Rsq (m : R) (l : list R) : R :=
  Rsum (map (fun x => (x - m) * (x - m))%R l).

(* the values of the line [v = a + b*t] at the offsets [ts] *)
Definition line (a b : R) (ts : list R) : list R :=
  map (fun t => a + b * t)%R ts.

(* the sum of the cross products over the periods whose value is valid *)
Definition Rcross (xm ym : R) (ts : list R) (o : list (option R)) : R :=
  Rsum (zip_with (fun t y =>
                    match y with
                    | Some v => (t - xm) * (v - ym)
                    | None => 0
                    end)%R ts o).

(** ** Inputs used in the evaluations below

    The periods of a 7-band raster analysed from 1990 to 2010 are
    [1; 4; ...; 19]: their standard deviation is 6, and with fewer than 8
    periods numpy adds from left to right, so the binary64 evaluations are
    the values the script computes. *)


(* a band of three pixels, the second one no-data *)
Definition band_b64 : Band :=
  {| band_arr := [0.5; -9999; 0.75]%float; band_nodata := Some (-9999)%float |}.

(* a raster of three bands and one pixel, missing in the second band *)
Definition raster_b64 : list Band :=
  map (fun v => {| band_arr := [b64_of_Z v];
                   band_nodata := Some (b64_of_Z (-9999)) |})
      [1; -9999; 3]%Z.

(* a raster of seven bands and two pixels: v = t and v = 20 - t *)
Definition raster7_b64 : list Band :=
  map (fun t => {| band_arr := [b64_of_Z t; b64_of_Z (20 - t)];
                   band_nodata := Some (b64_of_Z (-9999)) |})
      [1; 4; 7; 10; 13; 16; 19]%Z.



(* the offsets of the seven periods from 1990 to 2010, as reals *)
Definition offsets7 : list R := map IZR [1; 4; 7; 10; 13; 16; 19]%Z.

(* the values of a survival function at the two infinities *)
Definition sf_ends (x : xreal) (df : Z) : xreal :=
  match x with
  | XInf false => XFin 0
  | XInf true => XFin 1
  | _ => XNan
  end.

(* a falling, noisy series over the seven periods *)
Definition falling7 : list R := map IZR [5; 5; 4; 3; 4; 0; 0]%Z.

(* a survival function that is symmetric about 0, and a [t_sf] that takes
   its finite values from it *)
Definition S_sym (x : R) : R := (1 / 2 - x / (2 * (1 + Rabs x)))%R.

Definition sf_sym (x : xreal) (df : Z) : xreal :=
  match x with
  | XFin r => XFin (S_sym r)
  | _ => sf_ends x df
  end.

(* three zones "A", "B", "C"; the geometry 0 of "B" lies outside the
   rasters, the clip raises for it and returns thirty bands of two pixels
   for the others *)
Definition zones3 : list (Feature float Z) :=
  [ {| zone_key := "A"; geometry := 1%Z; fields := ∅ |};
    {| zone_key := "B"; geometry := 0%Z; fields := ∅ |};
    {| zone_key := "C"; geometry := 2%Z; fields := ∅ |} ].

Definition mask3 (src : nat) (shapes : list Z) : option (list (list float)) :=
  if existsb (Z.eqb 0) shapes then None
  else Some (repeat [b64_of_Z (Z.of_nat src); b64_of_Z 2] 30).

Definition zone_loop3 :=
  CollectCensusTractStats3.zone_loop (fun _ _ => PrimFloat.nan)
    nat 1%nat 2%nat 3%nat mask3 (fun band => hd PrimFloat.nan band)
    (Some (b64_of_Z (-9999))) (Some (b64_of_Z (-9999))) 0%Z.

(** ** Series on a line, in binary64

    The first [n] periods of a raster analysed from 1990 to 2010, and the
    values of the line [v = a + b*t] at these periods for integers [a] and
    [b]: every value is an integer, so the series lies on the line exactly.
    [round_trip] is what the regression of such a series is compared with;
    1e-9 is the tolerance of the round-trip property. *)











(** ** Closed forms and measures, for the statements *)

(* conf_mat[r, c] when both indices are in bounds *)
Definition cell (m : list (list Z)) (r c : nat) : option Z :=
  match m !! r with Some row => row !! c | None => None end.

Definition shape (m : list (list Z)) (rows cols : nat) : Prop :=
  length m = rows /\ Forall (fun row => length row = cols) m.

Definition sumZ (l : list Z) : Z := fold_right Z.add 0%Z l.

(* the confusion matrix in closed form: row j-1, column i-1 *)
Definition table (val_arr class_arr : list Z) (max_class : Z)
  : list (list Z) :=
  map (fun j => map (fun i => PolygonAccuracy.tally val_arr class_arr i j * 25)%Z
                    (PolygonAccuracy.classes max_class))
      (PolygonAccuracy.classes max_class).

(* the number of pixels of class [i] *)
Definition count_class (a : list Z) (i : Z) : Z :=
  Z.of_nat (length (List.filter (fun v => (v =? i)%Z) a)).

(* the offsets counted from another origin *)
Definition shift (d : R) (ts : list R) : list R := map (fun t => t + d)%R ts.

(* the layer as persisted, however the statements ended *)
Definition layer_of {L : Type} (o : outcome L) : L :=
  match o with Done layer => layer | Raised layer => layer end.

(* the 19 SetField calls of one zone (lines 202-209 twice, then 224 thrice),
   in the order in which they run *)
Definition zone_values {F : Type} `{Float64 F}
  (st_ndvi : TrendStats) (med_ndvi : F) (st_lst : TrendStats) (med_lst : F)
  (in_mem_gsc : list (list F)) : list (string * F) :=
  CollectCensusTractStats3.trend_fields "NDVI" st_ndvi med_ndvi
  ++ CollectCensusTractStats3.trend_fields "LST" st_lst med_lst
  ++ [("greenArea"%string,
       of_Z (CollectCensusTractStats3.class_area in_mem_gsc 1));
      ("waterArea"%string,
       of_Z (CollectCensusTractStats3.class_area in_mem_gsc 2));
      ("urbanArea"%string,
       of_Z (CollectCensusTractStats3.class_area in_mem_gsc 3))].

(* the three class-area fields of a feature hold these values *)
Definition class_areas {F G : Type} (green water urban : F)
  (feat : Feature F G) : Prop :=
  fields feat !! "greenArea"%string = Some green
  /\ fields feat !! "waterArea"%string = Some water
  /\ fields feat !! "urbanArea"%string = Some urban.

(* a feature before and after the turn of zone [id] in a zone loop, when the
   turn leaves [Q id] true of the features of the zone and touches no other
   feature; and before and after the turns of the zones [ids] *)
Definition zone_turn {F G : Type} (Q : string -> Feature F G -> Prop)
  (id : string) (feat feat' : Feature F G) : Prop :=
  zone_key feat' = zone_key feat
  /\ (zone_key feat = id -> Q id feat')
  /\ (zone_key feat <> id -> feat' = feat).

Definition zone_turns {F G : Type} (Q : string -> Feature F G -> Prop)
  (ids : list string) (feat feat' : Feature F G) : Prop :=
  zone_key feat' = zone_key feat
  /\ (Q (zone_key feat) feat -> Q (zone_key feat) feat')
  /\ (In (zone_key feat) ids -> Q (zone_key feat) feat').

(* the ids of a list without their repetitions, in the order of their first
   occurrence *)
Fixpoint first_occurrences_from (seen tract_ids : list string) : list string :=
  match tract_ids with
  | [] => []
  | tract_id :: later =>
      if existsb (String.eqb tract_id) seen
      then first_occurrences_from seen later
      else tract_id :: first_occurrences_from (tract_id :: seen) later
  end.

Definition first_occurrences (tract_ids : list string) : list string :=
  first_occurrences_from [] tract_ids.

(* a run of SetField calls whose values may be None, and the last value it
   gives to a field *)
Definition SetFieldsOpt {F G : Type} (values : list (string * option F))
  (feat : Feature F G) : Feature F G :=
  fold_left
    (fun feat '(name, value) =>
       CollectCensusTractStats2.SetFieldOpt name value feat)
    values feat.

Fixpoint last_write {F : Type} (values : list (string * option F))
  (name : string) : option (option F) :=
  match values with
  | [] => None
  | (name', value) :: later =>
      match last_write later name with
      | Some v => Some v
      | None => if String.eqb name' name then Some value else None
      end
  end.

(** ** More input data *)

(* two rasters of two rows and three columns *)
Definition val6 : list (list Z) := [[1; 1; 2]; [0; 3; 2]]%Z.
Definition class6 : list (list Z) := [[1; 2; 2]; [3; 3; 1]]%Z.


Definition batch3 : outcome (list (Feature float Z)) :=
  CollectCensusTractStats3.AddRasterStatistics (fun _ _ => PrimFloat.nan)
    nat 1%nat 2%nat 3%nat mask3 (fun band => hd PrimFloat.nan band)
    (Some (b64_of_Z (-9999))) (Some (b64_of_Z (-9999))) 0%Z zones3.

(* a run of CollectCensusTractStats2.py: zone B cannot be dissolved, and
   the descriptions of both statistics rasters contain 'NDVI' *)
Definition dissolve2 (shapes : list Z) : option Z :=
  if existsb (Z.eqb 0) shapes then None else Some (fold_right Z.add 0%Z shapes).

Definition median2 (lab : string) (dissolved : Z) : option float :=
  Some (b64_of_Z dissolved).

Definition sum2 (i : Z) (dissolved : Z) : option float :=
  if (i =? 3)%Z then None else Some (b64_of_Z (i * dissolved)).

Definition zonal_median2 (arr : Z) (dissolved : Z) : option float :=
  Some (b64_of_Z (arr + dissolved)).

Definition ndvi_stats2 : string * list (string * Z) :=
  ("trends/NDVI_trend.tif"%string,
   zip stat_labs [1; 2; 3; 4; 5; 6; 7]%Z).

Definition lst_stats2 : string * list (string * Z) :=
  ("trends/NDVI_area/LST_trend.tif"%string,
   zip stat_labs [11; 12; 13; 14; 15; 16; 17]%Z).

Definition zone_loop2 (tif_files : list (string * list (string * Z))) :=
  CollectCensusTractStats2.zone_loop median2 sum2 Z zonal_median2 dissolve2
    tif_files.

(* the same run with a dissolve that succeeds for every zone *)
Definition dissolve_all (shapes : list Z) : option Z :=
  Some (fold_right Z.add 0%Z shapes).

Definition batch2 : outcome (list (Feature float Z)) :=
  CollectCensusTractStats2.AddRasterStatistics median2 sum2 Z zonal_median2
    dissolve_all [ndvi_stats2; lst_stats2] zones3.

(** * Properties *)

(** ** Special values *)

Lemma Rzero_true (r : R) : r = 0%R -> Rzero r = true.
Proof. intros ->. unfold Rzero. destruct (Req_dec_T 0 0); [reflexivity | lra]. Qed.

Lemma Rzero_false (r : R) : r <> 0%R -> Rzero r = false.
Proof. intros Hr. unfold Rzero. destruct (Req_dec_T r 0); [lra | reflexivity]. Qed.

Lemma Rneg_true (r : R) : (r < 0)%R -> Rneg r = true.
Proof. intros Hr. unfold Rneg. destruct (Rlt_dec r 0); [reflexivity | lra]. Qed.

Lemma Rneg_false (r : R) : (0 <= r)%R -> Rneg r = false.
Proof. intros Hr. unfold Rneg. destruct (Rlt_dec r 0); [lra | reflexivity]. Qed.

Lemma xdiv_fin (x y : R) : y <> 0%R -> xdiv (XFin x) (XFin y) = XFin (x / y).
Proof. intros Hy. simpl. now rewrite Rzero_false. Qed.

Lemma xdiv_zero_zero (x y : R) :
  x = 0%R -> y = 0%R -> xdiv (XFin x) (XFin y) = XNan.
Proof. intros Hx Hy. simpl. now rewrite !Rzero_true. Qed.

Lemma xdiv_pos_zero (x y : R) :
  (0 < x)%R -> y = 0%R -> xdiv (XFin x) (XFin y) = XInf false.
Proof.
  intros Hx Hy. simpl.
  rewrite (Rzero_true y), (Rzero_false x), Rneg_false by lra. reflexivity.
Qed.

Lemma xdiv_neg_zero (x y : R) :
  (x < 0)%R -> y = 0%R -> xdiv (XFin x) (XFin y) = XInf true.
Proof.
  intros Hx Hy. simpl.
  rewrite (Rzero_true y), (Rzero_false x), Rneg_true by lra. reflexivity.
Qed.

Lemma xsqrt_fin (x : R) : (0 <= x)%R -> xsqrt (XFin x) = XFin (R_sqrt.sqrt x).
Proof. intros Hx. simpl. now rewrite Rneg_false. Qed.

Lemma xeqb_nan (v : xreal) : xeqb XNan v = false.
Proof. reflexivity. Qed.

Lemma b64_eqb_nan (v : float) : PrimFloat.eqb PrimFloat.nan v = false.
Proof. rewrite FloatAxioms.eqb_spec. reflexivity. Qed.

(** ** The special values in binary64 *)

Lemma SFeqb_zero (x : spec_float) :
  SFeqb x (S754_zero false) = true <-> exists s, x = S754_zero s.
Proof.
  destruct x as [s|s| |s m e]; cbn.
  - split; eauto.
  - destruct s; split; try discriminate; intros [? ?]; discriminate.
  - split; [discriminate | intros [? ?]; discriminate].
  - destruct s; split; try discriminate; intros [? ?]; discriminate.
Qed.

Lemma SFeqb_refl_iff (x : spec_float) :
  SFeqb x x = true <-> x <> S754_nan.
Proof.
  destruct x as [s|s| |s m e]; cbn.
  - split; [discriminate | reflexivity].
  - destruct s; split; (discriminate || reflexivity).
  - split; [discriminate | congruence].
  - rewrite Z.compare_refl, Pos.compare_cont_refl.
    destruct s; split; (discriminate || reflexivity).
Qed.

Lemma Prim2SF_0 : Prim2SF 0 = S754_zero false.
Proof. reflexivity. Qed.

Lemma b64_zero (x : float) :
  (x =? 0)%float = true <-> exists s, Prim2SF x = S754_zero s.
Proof. rewrite FloatAxioms.eqb_spec, Prim2SF_0. apply SFeqb_zero. Qed.

Lemma b64_nan (x : float) :
  PrimFloat.is_nan x = true <-> Prim2SF x = S754_nan.
Proof.
  unfold PrimFloat.is_nan. rewrite FloatAxioms.eqb_spec, negb_true_iff.
  destruct (SFeqb (Prim2SF x) (Prim2SF x)) eqn:E.
  - apply SFeqb_refl_iff in E. split; [discriminate | congruence].
  - split; [intros _|reflexivity].
    destruct (Prim2SF x) as [s|s| |s m e] eqn:Ex; try reflexivity;
      exfalso; revert E; apply not_false_iff_true, SFeqb_refl_iff;
      discriminate.
Qed.

Lemma SF64sub_diag (x : spec_float) :
  (exists s, SF64sub x x = S754_zero s)
  <-> (exists s, x = S754_zero s) \/ (exists s m e, x = S754_finite s m e).
Proof.
  destruct x as [s|s| |s m e]; cbn.
  - split; [eauto|]. intros _. destruct s; eauto.
  - split.
    + destruct s; intros [? ?]; discriminate.
    + intros [[? ?]|(? & ? & ? & ?)]; discriminate.
  - split.
    + intros [? ?]; discriminate.
    + intros [[? ?]|(? & ? & ? & ?)]; discriminate.
  - split; [eauto 6|]. intros _. rewrite Z.sub_diag. cbn. eauto.
Qed.

Lemma b64_finite (x : float) :
  ((x - x =? 0)%float = true)
  <-> (exists s, Prim2SF x = S754_zero s)
      \/ (exists s m e, Prim2SF x = S754_finite s m e).
Proof. rewrite b64_zero, sub_spec. apply SF64sub_diag. Qed.

Ltac b64_cases x :=
  let s := fresh "s" in let m := fresh "m" in let e := fresh "e" in
  let E := fresh "E" in
  destruct (Prim2SF x) as [s|s| |s m e] eqn:E.

Ltac b64_absurd :=
  repeat match goal with
  | H : exists _, _ |- _ => destruct H
  | H : _ \/ _ |- _ => destruct H
  | H : ~ (exists _, _) |- _ => exfalso; apply H; eauto
  end; try discriminate; try congruence.

Lemma b64_not_zero (x : float) :
  (x =? 0)%float = false <-> ~ exists s, Prim2SF x = S754_zero s.
Proof. rewrite <- b64_zero. symmetry. apply not_true_iff_false. Qed.

Lemma b64_of_Z_regular :
  forallb (fun k => ((b64_of_Z k - b64_of_Z k =? 0)%float
                     && negb (b64_of_Z k =? 0)%float)%bool)
          (map Z.of_nat (seq 1 1024)) = true.
Proof. vm_compute. reflexivity. Qed.

#[export] Instance binary64_laws : Float64Laws float.
Proof.
  split; unfold fzero, ffinite; cbn [of_Z fsub fmul fdiv fadd fsqrt feqb fisnan binary64];
    change (b64_of_Z 0) with 0%float.
  - reflexivity.
  - intros k Hk.
    pose proof b64_of_Z_regular as Hall. rewrite forallb_forall in Hall.
    assert (In k (map Z.of_nat (seq 1 1024))) as Hin.
    { apply in_map_iff. exists (Z.to_nat k). split; [lia|].
      apply in_seq. lia. }
    apply Hall in Hin. apply andb_prop in Hin as [Hf Hz].
    split; [exact Hf | now apply negb_true_iff].
  - intros x. rewrite b64_finite, b64_zero. tauto.
  - intros x Hx%b64_finite. apply not_true_iff_false. rewrite b64_nan.
    b64_absurd.
  - intros x y. rewrite !b64_zero, add_spec. intros [sx ->] [sy ->].
    cbn. destruct sx, sy; eauto.
  - intros x y. rewrite b64_finite, b64_zero, FloatAxioms.eqb_spec, sub_spec.
    intros Hx [sy ->]. destruct Hx as [[sx ->]|(sx & m & e & ->)].
    + cbn. destruct sx, sy; reflexivity.
    + change (SF64sub (S754_finite sx m e) (S754_zero sy))
        with (S754_finite sx m e).
      apply SFeqb_refl_iff. discriminate.
  - intros x y. rewrite !b64_nan, sub_spec. intros ->. reflexivity.
  - intros x y. rewrite !b64_nan, sub_spec. intros ->.
    b64_cases x; reflexivity.
  - intros x y. rewrite !b64_nan, mul_spec. intros ->. reflexivity.
  - intros x y. rewrite !b64_nan, mul_spec. intros ->.
    b64_cases x; reflexivity.
  - intros x y. rewrite !b64_zero, b64_nan, mul_spec. intros [sy ->].
    b64_cases x; cbn; eauto.
  - intros x y. rewrite b64_finite, !b64_zero, mul_spec.
    intros Hx [sy ->]. destruct Hx as [[sx ->]|(sx & m & e & ->)]; cbn; eauto.
  - intros x y. rewrite !b64_nan, div_spec. intros ->. reflexivity.
  - intros x y. rewrite !b64_nan, div_spec. intros ->.
    b64_cases x; reflexivity.
  - intros x y. rewrite !b64_zero, b64_nan, div_spec. intros [sx ->] [sy ->].
    reflexivity.
  - intros x y. rewrite b64_finite, b64_not_zero, !b64_zero, div_spec.
    intros [sx ->] Hy Hnz.
    destruct Hy as [[sy Ey]|(sy & m & e & ->)]; [exfalso; eauto|].
    cbn. eauto.
  - intros x. rewrite !b64_nan, sqrt_spec. intros ->. reflexivity.
  - intros x. rewrite !b64_zero, sqrt_spec. intros [sx ->]. cbn. eauto.
Qed.

(** ** The special values in exact arithmetic *)

Lemma Rzero_0 : Rzero 0 = true.
Proof. unfold Rzero. destruct (Req_dec_T 0 0); [reflexivity | lra]. Qed.

Lemma xzero (x : xreal) : xeqb x (XFin 0) = true <-> x = XFin 0.
Proof.
  destruct x as [|s|r]; cbn; try (split; discriminate).
  destruct (Req_dec_T r 0) as [->|Hr]; split; try reflexivity;
    try discriminate.
  intros [= ->]. lra.
Qed.

Lemma xfinite (x : xreal) :
  xeqb (xsub x x) (XFin 0) = true <-> exists r, x = XFin r.
Proof.
  rewrite xzero. destruct x as [|s|r]; cbn.
  - split; [discriminate | intros [? ?]; discriminate].
  - destruct s; cbn; split; try discriminate; intros [? ?]; discriminate.
  - split; [eauto|]. intros _. f_equal. lra.
Qed.

#[export] Instance exact_laws : Float64Laws xreal.
Proof.
  split; unfold fzero, ffinite;
    cbn [of_Z fsub fmul fdiv fadd fsqrt feqb fisnan exact].
  - apply xzero. reflexivity.
  - intros k Hk. split.
    + apply xfinite. eauto.
    + apply not_true_iff_false. rewrite xzero. intros [= E].
      apply eq_IZR in E. lia.
  - intros x. rewrite xzero, xfinite. intros ->. eauto.
  - intros x [r ->]%xfinite. reflexivity.
  - intros x y. rewrite !xzero. intros -> ->. cbn. f_equal. lra.
  - intros x y. rewrite xfinite, xzero. intros [r ->] ->. cbn.
    destruct (Req_dec_T (r + - 0) r); [reflexivity | lra].
  - intros x y Hx. destruct x; try discriminate. reflexivity.
  - intros x y Hy. destruct y; try discriminate. destruct x; reflexivity.
  - intros x y Hx. destruct x; try discriminate. reflexivity.
  - intros x y Hy. destruct y; try discriminate. destruct x; reflexivity.
  - intros x y. rewrite !xzero. intros ->. destruct x as [|s|r]; cbn; eauto.
    + rewrite Rzero_0. eauto.
    + left. f_equal. lra.
  - intros x y. rewrite xfinite, !xzero. intros [r ->] ->. cbn. f_equal. lra.
  - intros x y Hx. destruct x; try discriminate. reflexivity.
  - intros x y Hy. destruct y; try discriminate. destruct x; reflexivity.
  - intros x y. rewrite !xzero. intros -> ->. cbn. rewrite Rzero_0.
    reflexivity.
  - intros x y. rewrite xfinite, !xzero. intros -> [r ->] Hr. cbn.
    unfold Rzero. destruct (Req_dec_T r 0) as [->|Hnz].
    + exfalso. revert Hr. apply not_false_iff_true, xzero. reflexivity.
    + f_equal. unfold Rdiv. lra.
  - intros x Hx. destruct x; try discriminate. reflexivity.
  - intros x. rewrite !xzero. intros ->. cbn. unfold Rneg.
    destruct (Rlt_dec 0 0); [lra|]. now rewrite R_sqrt.sqrt_0.
Qed.

(** ** Sums of finite values *)

Lemma fold_xadd_fin (l : list R) (x : R) :
  fold_left xadd (fin l) (XFin x) = XFin (x + Rsum l).
Proof.
  revert x. induction l as [|y l IH]; intros x; simpl.
  - f_equal. lra.
  - rewrite IH. f_equal. lra.
Qed.

Lemma np_sum_fin (l : list R) : np_sum (fin l) = XFin (Rsum l).
Proof.
  destruct l as [|x l]; simpl; [reflexivity|].
  apply fold_xadd_fin.
Qed.

Lemma Rsum_app (l k : list R) : Rsum (l ++ k) = (Rsum l + Rsum k)%R.
Proof. induction l as [|x l IH]; simpl; [lra | rewrite IH; lra]. Qed.

Lemma Rsum_const (l : list R) (c : R) :
  Forall (fun x => x = c) l -> Rsum l = (INR (length l) * c)%R.
Proof.
  induction 1 as [|x l Hx _ IH]; [simpl; lra|].
  change (Rsum (x :: l)) with (x + Rsum l)%R.
  rewrite IH, Hx, length_cons, S_INR. lra.
Qed.

Lemma Rsum_nonneg (l : list R) :
  Forall (fun x => 0 <= x)%R l -> (0 <= Rsum l)%R.
Proof. induction 1; simpl; lra. Qed.

Lemma Rsum_pos (l : list R) (a : R) :
  Forall (fun x => 0 <= x)%R l -> In a l -> (0 < a)%R -> (0 < Rsum l)%R.
Proof.
  induction 1 as [|x l Hx Hl IH]; simpl; [tauto|].
  intros [-> | Ha] Hpos.
  - pose proof (Rsum_nonneg l Hl). lra.
  - specialize (IH Ha Hpos). lra.
Qed.

(** ** The NaN-aware reductions on a slice with missing periods *)

Lemma Rsum_vals (o : list (option R)) :
  Rsum (map (default 0%R) o) = Rsum (vals o).
Proof.
  induction o as [|[v|] o IH]; simpl; [reflexivity | | ].
  - unfold vals in *. simpl. rewrite IH. reflexivity.
  - unfold vals in *. simpl. rewrite IH. lra.
Qed.

Lemma replace_nan_lift (o : list (option R)) :
  replace_nan (map lift o) = fin (map (default 0%R) o).
Proof.
  unfold replace_nan, fin. rewrite !map_map. apply map_ext.
  intros [v|]; reflexivity.
Qed.

Lemma count_valid_lift (o : list (option R)) :
  count_valid (map lift o) = length (vals o).
Proof.
  unfold count_valid, vals.
  induction o as [|[v|] o IH]; simpl in *; [reflexivity | | ]; now rewrite IH.
Qed.

Lemma nansum_lift (o : list (option R)) :
  nansum (map lift o) = XFin (Rsum (vals o)).
Proof.
  unfold nansum. now rewrite replace_nan_lift, np_sum_fin, Rsum_vals.
Qed.

Lemma INR_length_neq_0 {A : Type} (l : list A) : l <> [] -> INR (length l) <> 0%R.
Proof.
  intros Hl. destruct l as [|x l]; [congruence|].
  rewrite length_cons. apply not_0_INR. lia.
Qed.

Lemma nanmean_lift (o : list (option R)) :
  vals o <> [] -> nanmean (map lift o) = XFin (Rmean (vals o)).
Proof.
  intros Hv. unfold nanmean.
  rewrite replace_nan_lift, np_sum_fin, Rsum_vals, count_valid_lift.
  cbn [of_Z exact fdiv]. rewrite <- INR_IZR_INZ.
  rewrite xdiv_fin by now apply INR_length_neq_0.
  reflexivity.
Qed.

Lemma nanmean_no_valid (o : list (option R)) :
  vals o = [] -> nanmean (map lift o) = XNan.
Proof.
  intros Hv. unfold nanmean.
  rewrite replace_nan_lift, np_sum_fin, Rsum_vals, count_valid_lift, Hv.
  apply xdiv_zero_zero; reflexivity.
Qed.

Lemma Rsum_sq_vals (m : R) (o : list (option R)) :
  Rsum (map (fun d => d * d)%R
          (map (fun y => match y with Some v => v + - m | None => 0 end)%R o))
  = Rsum (map (fun x => (x - m) * (x - m))%R (vals o)).
Proof.
  unfold vals. induction o as [|[v|] o IH]; simpl; [reflexivity | | ].
  - rewrite IH. apply (f_equal2 Rplus); [ring | reflexivity].
  - rewrite IH, Rmult_0_l, Rplus_0_l. reflexivity.
Qed.

Lemma nanvar_lift (o : list (option R)) :
  vals o <> [] -> nanvar (map lift o) = XFin (Rvar (vals o)).
Proof.
  intros Hv. unfold nanvar.
  rewrite replace_nan_lift, np_sum_fin, Rsum_vals, count_valid_lift.
  destruct (Nat.leb_spec (length (vals o)) 0) as [Hle|_].
  { destruct (vals o); [congruence | simpl in Hle; lia]. }
  cbn [of_Z exact fdiv fsub fmul fisnan]. rewrite <- INR_IZR_INZ.
  rewrite xdiv_fin by now apply INR_length_neq_0.
  rewrite !map_map.
  replace (map _ o) with
    (fin (map (fun d => d * d)%R
            (map (fun y => match y with
                           | Some v => v + - Rmean (vals o)
                           | None => 0 end)%R o))).
  2:{ unfold fin. rewrite !map_map. apply map_ext.
      intros [v|]; reflexivity. }
  rewrite np_sum_fin, Rsum_sq_vals.
  rewrite xdiv_fin by now apply INR_length_neq_0.
  reflexivity.
Qed.

Lemma Rvar_nonneg (l : list R) : (0 <= Rvar l)%R.
Proof.
  unfold Rvar. destruct l as [|x l].
  - simpl. lra.
  - assert (Hs : (0 <= Rsum (map (fun y => (y - Rmean (x :: l)) *
                                            (y - Rmean (x :: l))) (x :: l)))%R).
    { apply Rsum_nonneg, List.Forall_forall. intros y Hy.
      apply in_map_iff in Hy as (z & <- & _).
      exact (Rle_0_sqr (z - Rmean (x :: l))). }
    assert (Hn : (0 < INR (length (x :: l)))%R).
    { apply lt_0_INR. simpl. lia. }
    apply Rmult_le_pos; [exact Hs|].
    apply Rlt_le, Rinv_0_lt_compat, Hn.
Qed.

Lemma nanstd_lift (o : list (option R)) :
  vals o <> [] -> nanstd (map lift o) = XFin (R_sqrt.sqrt (Rvar (vals o))).
Proof.
  intros Hv. unfold nanstd. rewrite nanvar_lift by assumption.
  cbn [fsqrt exact]. apply xsqrt_fin, Rvar_nonneg.
Qed.

Lemma cross_lift (xm ym : R) (ts : list R) (o : list (option R)) :
  nansum (zip_with (fun t y => fmul (fsub t (XFin xm)) (fsub y (XFin ym)))
            (fin ts) (map lift o))
  = XFin (Rcross xm ym ts o).
Proof.
  unfold nansum, Rcross.
  replace (replace_nan _) with
    (fin (zip_with (fun t y => match y with
                               | Some v => (t - xm) * (v - ym)
                               | None => 0 end)%R ts o)).
  { apply np_sum_fin. }
  unfold fin, replace_nan.
  revert o. induction ts as [|t ts IH]; intros [|[v|] o]; simpl;
    try reflexivity.
  - rewrite IH. reflexivity.
  - rewrite IH. reflexivity.
Qed.

Lemma vals_fin (l : list R) : vals (map Some l) = l.
Proof. unfold vals. induction l; simpl; [reflexivity | now f_equal]. Qed.

Lemma lift_fin (l : list R) : map lift (map Some l) = fin l.
Proof. unfold fin. rewrite map_map. reflexivity. Qed.

Lemma Rsum_zeros (k : nat) : Rsum (repeat 0%R k) = 0%R.
Proof. induction k as [|k IH]; simpl; [reflexivity | rewrite IH; lra]. Qed.

Lemma cross_no_valid (xm : R) (ts : list R) (o : list (option R)) :
  vals o = [] ->
  replace_nan (zip_with (fun t y => fmul (fsub t (XFin xm)) (fsub y XNan))
                 (fin ts) (map lift o))
  = fin (repeat 0%R (length (zip ts o))).
Proof.
  unfold fin, replace_nan.
  revert o. induction ts as [|t l IH]; intros [|[v|] o'] Hv;
    try reflexivity.
  - unfold vals in Hv. simpl in Hv. discriminate.
  - simpl. f_equal. apply IH. exact Hv.
Qed.

(** ** The statistics of one entity, in exact arithmetic *)

Section ExactStats.
Variable t_sf : xreal -> Z -> xreal.
Variables (ts : list R) (o : list (option R)) (n : nat).
Hypothesis ts_nonempty : ts <> [].
Hypothesis n_pos : n <> 0%nat.

Let st : TrendStats := lin_stats t_sf n (fin ts) (map lift o).
Let sx : R := R_sqrt.sqrt (Rvar ts).

Lemma xmean_exact : nanmean (fin ts) = XFin (Rmean ts).
Proof.
  rewrite <- lift_fin, nanmean_lift; rewrite vals_fin; [reflexivity | assumption].
Qed.

Lemma xstd_exact : nanstd (fin ts) = XFin sx.
Proof.
  rewrite <- lift_fin, nanstd_lift; rewrite vals_fin; [reflexivity | assumption].
Qed.

Lemma INR_n_neq_0 : INR n <> 0%R.
Proof. apply not_0_INR. exact n_pos. Qed.

(** With at least one valid period: the covariance is the sum of the cross
    products of the valid periods divided by [n]. *)
Lemma cov_exact :
  vals o <> [] ->
  cov st = XFin (Rcross (Rmean ts) (Rmean (vals o)) ts o / INR n).
Proof.
  intros Hv. unfold st, lin_stats. cbn [cov].
  rewrite xmean_exact, nanmean_lift by assumption.
  rewrite cross_lift. cbn [of_Z exact fdiv]. rewrite <- INR_IZR_INZ.
  apply xdiv_fin, INR_n_neq_0.
Qed.

Lemma cor_exact :
  vals o <> [] ->
  cor st = xdiv (cov st) (XFin (sx * R_sqrt.sqrt (Rvar (vals o)))).
Proof.
  intros Hv. unfold st, lin_stats. cbn [cov cor].
  rewrite xstd_exact, nanstd_lift by assumption. reflexivity.
Qed.

Lemma slope_exact : slope st = xdiv (cov st) (XFin (Rvar ts)).
Proof.
  unfold st, lin_stats. cbn [cov slope].
  rewrite xstd_exact. cbn [fmul exact xmul]. unfold sx.
  rewrite sqrt_sqrt by apply Rvar_nonneg. reflexivity.
Qed.

Lemma intercept_exact :
  vals o <> [] ->
  intercept st = xsub (XFin (Rmean (vals o))) (xmul (XFin (Rmean ts)) (slope st)).
Proof.
  intros Hv. unfold st, lin_stats. cbn [slope intercept].
  rewrite xmean_exact, nanmean_lift by assumption. reflexivity.
Qed.

(** Without any valid period: the sum of the cross products is the empty
    NaN-sum, 0. *)
Lemma cov_no_valid : vals o = [] -> cov st = XFin 0.
Proof.
  intros Hv. unfold st, lin_stats. cbn [cov].
  rewrite xmean_exact, nanmean_no_valid by assumption.
  unfold nansum. rewrite cross_no_valid, np_sum_fin by assumption.
  cbn [of_Z exact fdiv]. rewrite <- INR_IZR_INZ.
  rewrite xdiv_fin by apply INR_n_neq_0.
  f_equal. rewrite Rsum_zeros. unfold Rdiv. ring.
Qed.

End ExactStats.

(** ** The time offsets of RasterLinModel (lines 118-132) *)

Section ReadBand.
Context {F : Type} `{Float64 F}.
Hypothesis nan_neq : forall v : F, feqb fnan v = false.

Lemma eq_scalar_after_assign (arr : list F) (nodata : option F) :
  eq_scalar (assign_where arr (eq_scalar arr nodata) fnan) nodata
  = repeat false (length arr).
Proof.
  unfold eq_scalar, assign_where.
  induction arr as [|x arr IH]; [reflexivity|].
  simpl. rewrite IH. f_equal.
  destruct nodata as [v|]; [|reflexivity].
  destruct (feqb x v) eqn:Hx; [apply nan_neq | exact Hx].
Qed.

Lemma assign_where_no_mask (arr : list F) (v : F) :
  assign_where arr (repeat false (length arr)) v = arr.
Proof.
  unfold assign_where. induction arr as [|x arr IH]; [reflexivity|].
  simpl. now rewrite IH.
Qed.

(** Line 129 changes nothing: when its mask is computed, line 128 has
    already replaced every no-data value of [arr] by NaN, and NaN equals
    nothing. *)
Lemma read_band_time (year : Z) (b : Band) :
  snd (read_band year b) = repeat (of_Z year) (length (band_arr b)).
Proof.
  unfold read_band. cbn [snd].
  rewrite eq_scalar_after_assign.
  rewrite <- (repeat_length (of_Z year) (length (band_arr b))) at 2.
  apply assign_where_no_mask.
Qed.

Lemma length_read_band (year : Z) (b : Band) :
  length (fst (read_band year b)) = length (band_arr b).
Proof.
  unfold read_band, assign_where, eq_scalar. cbn [fst].
  rewrite length_zip_with, length_map. lia.
Qed.

Lemma read_bands_data (raster : list Band) (since : list Z)
  (band_data time_data : list (list F)) :
  read_bands raster since = Some (band_data, time_data) ->
  (length raster <= length since)%nat
  /\ band_data = zip_with (fun b year => fst (read_band year b)) raster since
  /\ time_data
     = zip_with (fun b year => repeat (of_Z year) (length (band_arr b)))
         raster since.
Proof.
  revert since band_data time_data.
  induction raster as [|b bs IH]; intros since bd td Hr.
  - simpl in Hr. injection Hr as <- <-. simpl. repeat split. lia.
  - destruct since as [|year later]; [discriminate|].
    cbn [read_bands] in Hr.
    pose proof (read_band_time year b) as Ht.
    destruct (read_band year b) as [arr time_arr] eqn:Hb.
    destruct (read_bands bs later) as [[bd' td']|] eqn:Hr'; [|discriminate].
    injection Hr as <- <-.
    destruct (IH later bd' td' Hr') as (Hlen & -> & ->).
    cbn [snd] in Ht. subst time_arr.
    split; [simpl; lia|].
    cbn [zip_with]. rewrite Hb. split; reflexivity.
Qed.

Lemma slices_repeat (ys : list F) (k : nat) :
  ys <> [] -> slices (map (fun y => repeat y k) ys) = repeat ys k.
Proof.
  induction ys as [|y ys IH]; [congruence|]. intros _.
  destruct ys as [|y' ys].
  - simpl. clear IH. induction k as [|k IHk]; simpl; [reflexivity|].
    now rewrite IHk.
  - change (slices (map (fun y0 => repeat y0 k) (y :: y' :: ys)))
      with (zip_with cons (repeat y k)
              (slices (map (fun y0 => repeat y0 k) (y' :: ys)))).
    rewrite IH by discriminate.
    clear IH. induction k as [|k IHk]; simpl; [reflexivity|].
    now rewrite IHk.
Qed.

Lemma length_slices (layers : list (list F)) (k : nat) :
  layers <> [] -> Forall (fun l => length l = k) layers ->
  length (slices layers) = k.
Proof.
  intros Hne Hall. induction Hall as [|l ls Hl Hls IH]; [congruence|].
  destruct ls as [|l' ls].
  - simpl. now rewrite length_map.
  - change (slices (l :: l' :: ls))
      with (zip_with cons l (slices (l' :: ls))).
    rewrite length_zip_with, IH by discriminate. lia.
Qed.

Lemma zip_with_repeat {A B C : Type} (f : A -> B -> C) (x : A) (l : list B) :
  zip_with f (repeat x (length l)) l = map (f x) l.
Proof. induction l as [|y l IH]; simpl; [reflexivity | now rewrite IH]. Qed.

(** Every pixel of the raster is regressed against the same time slice,
    the offsets of the bands, with no period masked; [n] is the number of
    bands. *)
Lemma pixel_stats_offsets (t_sf : F -> Z -> F) (raster : list Band)
  (since : list Z) (band_data time_data : list (list F)) (k : nat) :
  read_bands raster since = Some (band_data, time_data) ->
  raster <> [] ->
  Forall (fun b => length (band_arr b) = k) raster ->
  pixel_stats t_sf band_data time_data
  = Some (map (lin_stats t_sf (length raster)
                 (map of_Z (take (length raster) since)))
              (slices band_data)).
Proof.
  intros Hr Hne Hall.
  destruct (read_bands_data _ _ _ _ Hr) as (Hlen & Hbd & Htd).
  assert (Htime : time_data
                  = map (fun y => repeat y k)
                        (map of_Z (take (length raster) since))).
  { subst time_data. clear Hr Hbd Hne. revert since Hlen.
    induction Hall as [|b bs Hb Hbs IH]; intros since Hlen; [reflexivity|].
    destruct since as [|year later]; [simpl in Hlen; lia|].
    simpl. rewrite Hb, IH by (simpl in Hlen; lia). reflexivity. }
  assert (Hlbd : length band_data = length raster).
  { subst band_data. rewrite length_zip_with. lia. }
  assert (Hkbd : Forall (fun l => length l = k) band_data).
  { subst band_data. clear Hr Htd Htime Hne Hlbd. revert since Hlen.
    induction Hall as [|b bs Hb Hbs IH]; intros since Hlen;
      [constructor|].
    destruct since as [|year later]; [simpl in Hlen; lia|].
    simpl. constructor.
    - rewrite <- Hb. exact (length_read_band year b).
    - apply IH. simpl in Hlen. lia. }
  assert (Hbne : band_data <> []).
  { destruct band_data; [destruct raster; simpl in *; congruence
                        | discriminate]. }
  assert (Htne : map of_Z (take (length raster) since) <> []).
  { destruct raster; [congruence|].
    destruct since; [simpl in Hlen; lia | discriminate]. }
  unfold pixel_stats, dstack.
  destruct band_data as [|l ls]; [congruence|].
  rewrite Htime.
  destruct (map (fun y => repeat y k) (map of_Z (take (length raster) since)))
    as [|l' ls'] eqn:Hm.
  { destruct (map of_Z (take (length raster) since)); [congruence|discriminate]. }
  rewrite <- Hm, (slices_repeat _ k Htne), Hlbd.
  rewrite <- (length_slices (l :: ls) k Hbne Hkbd) at 1.
  rewrite zip_with_repeat. reflexivity.
Qed.

End ReadBand.

(** C2 (the code departs from the claim).  The claim: wherever a value
    equals the no-data sentinel, the time offset of that entity and period is
    marked invalid too, so that both masks agree.  The code: for every band
    of every raster, the time array keeps the period's offset at every
    entity; at a band [0.5; no-data; 0.75] read for offset 4 the value mask
    is [false; true; false] and the time mask is empty. *)
Theorem C2_time_offsets_never_masked :
  (forall (year : Z) (b : Band (F:=float)),
     snd (read_band year b) = repeat (b64_of_Z year) (length (band_arr b)))
  /\ read_band 4 band_b64 = ([0.5; nan; 0.75]%float, [4; 4; 4]%float)
  /\ map fisnan (fst (read_band 4 band_b64)) = [false; true; false]
  /\ map fisnan (snd (read_band 4 band_b64)) = [false; false; false].
Proof.
  split; [|repeat split; vm_compute; reflexivity].
  intros year b. apply (@read_band_time float binary64 b64_eqb_nan).
Qed.

(** ** The output dataset of RasterLinModel (lines 162-186) *)

Section OutputDataset.
Context {F : Type} `{Float64 F}.
Variable t_sf : F -> Z -> F.

Lemma read_bands_some (raster : list Band) (since : list Z) :
  (length raster <= length since)%nat ->
  exists band_data time_data,
    read_bands raster since = Some (band_data, time_data)
    /\ length band_data = length raster
    /\ length time_data = length raster.
Proof.
  revert since. induction raster as [|b bs IH]; intros since Hlen.
  - exists [], []. repeat split.
  - destruct since as [|year later]; [simpl in Hlen; lia|].
    destruct (IH later) as (bd & td & Hr & Hb & Ht); [simpl in Hlen; lia|].
    cbn [read_bands]. destruct (read_band year b) as [arr time_arr].
    rewrite Hr. exists (arr :: bd), (time_arr :: td).
    repeat split; simpl; congruence.
Qed.

Lemma pixel_stats_some (band_data time_data : list (list F)) :
  band_data <> [] -> time_data <> [] ->
  exists st, pixel_stats t_sf band_data time_data = Some st.
Proof.
  intros Hb Ht. unfold pixel_stats.
  destruct band_data; [congruence|]. destruct time_data; [congruence|].
  simpl. eexists. reflexivity.
Qed.

End OutputDataset.

Section OutputBands.
Context {F : Type} `{Float64 F}.
Variable t_sf : F -> Z -> F.

Lemma read_bands_zip (raster : list Band) (since : list Z)
  (band_data time_data : list (list F)) :
  read_bands raster since = Some (band_data, time_data) ->
  band_data = zip_with (fun b year => fst (read_band year b)) raster since
  /\ time_data = zip_with (fun b year => snd (read_band year b)) raster since.
Proof.
  revert since band_data time_data.
  induction raster as [|b bs IH]; intros since bd td Hr.
  - simpl in Hr. injection Hr as <- <-. split; reflexivity.
  - destruct since as [|year later]; [discriminate|].
    cbn [read_bands] in Hr. cbn [zip_with].
    destruct (read_band year b) as [arr time_arr].
    destruct (read_bands bs later) as [[bd' td']|] eqn:Hr'; [|discriminate].
    injection Hr as <- <-.
    destruct (IH later bd' td' Hr') as [-> ->]. split; reflexivity.
Qed.

(** What RasterLinModel returns, for a raster that it can read. *)
Lemma RasterLinModel_bands (raster : list Band) (start_year end_year : Z) :
  raster <> [] ->
  (length raster <= length (since_of start_year end_year))%nat ->
  exists band_data time_data,
    read_bands raster (since_of start_year end_year)
    = Some (band_data, time_data)
    /\ band_data <> [] /\ time_data <> []
    /\ length band_data = length raster
    /\ let st := zip_with (lin_stats t_sf (length raster))
                   (slices time_data) (slices band_data) in
       pixel_stats t_sf band_data time_data = Some st
       /\ RasterLinModel t_sf raster start_year end_year
          = Some (map (fun '(lab, stat) =>
                         {| NoDataValue := Some (of_Z (-9999));
                            Description := lab;
                            Array := map stat st |})
                      [("covaraince"%string, cov); ("correlation"%string, cor);
                       ("slope"%string, slope);
                       ("intercept"%string, intercept);
                       ("tstat"%string, tstats); ("stderr"%string, stderr);
                       ("pval"%string, pval)]).
Proof.
  intros Hne Hlen.
  destruct (read_bands_some raster _ Hlen) as (bd & td & Hr & Hb & Ht).
  exists bd, td. split; [exact Hr|].
  assert (Hbd : bd <> [])
    by (destruct bd; [destruct raster; simpl in *; congruence | congruence]).
  assert (Htd : td <> [])
    by (destruct td; [destruct raster; simpl in *; congruence | congruence]).
  split; [exact Hbd|]. split; [exact Htd|]. split; [exact Hb|].
  intros st.
  assert (Hst : pixel_stats t_sf bd td = Some st).
  { unfold pixel_stats, dstack, st. rewrite <- Hb.
    destruct bd; [congruence|]. destruct td; [congruence|]. reflexivity. }
  split; [exact Hst|].
  unfold RasterLinModel. rewrite Hr, Hst. reflexivity.
Qed.

End OutputBands.

(** C9 (amended).  For a raster with at least one band and no more bands
    than periods, RasterLinModel returns a dataset of exactly seven bands,
    in this order: the covariance, the correlation, the slope, the intercept,
    the t-statistic, the standard error and the p-value that lines 137-160
    compute for every pixel from the arrays read at lines 118-132 (pixel [k]
    of band [j] holds statistic [j] of the slices [k] of the value and time
    stacks); the description of each band is the label of its statistic in
    [stat_labs] and its no-data value is -9999.0.  There is no band for a
    median. *)
Theorem C9_seven_described_bands {F : Type} `{Float64 F}
  (t_sf : F -> Z -> F) (raster : list Band) (start_year end_year : Z) :
  raster <> [] ->
  (length raster <= length (since_of start_year end_year))%nat ->
  let since := since_of start_year end_year in
  let band_data := zip_with (fun b year => fst (read_band year b)) raster since in
  let time_data := zip_with (fun b year => snd (read_band year b)) raster since in
  let st := zip_with (lin_stats t_sf (length raster))
              (slices time_data) (slices band_data) in
  let band (lab : string) (stat : TrendStats -> F) :=
    {| NoDataValue := Some (of_Z (-9999)); Description := lab;
       Array := map stat st |} in
  read_bands raster since = Some (band_data, time_data)
  /\ RasterLinModel t_sf raster start_year end_year
     = Some [band "covaraince"%string cov; band "correlation"%string cor;
             band "slope"%string slope; band "intercept"%string intercept;
             band "tstat"%string tstats; band "stderr"%string stderr;
             band "pval"%string pval]
  /\ map Description
       [band "covaraince"%string cov; band "correlation"%string cor;
        band "slope"%string slope; band "intercept"%string intercept;
        band "tstat"%string tstats; band "stderr"%string stderr;
        band "pval"%string pval]
     = stat_labs.
Proof.
  intros Hne Hlen since band_data time_data st band.
  destruct (RasterLinModel_bands t_sf raster start_year end_year Hne Hlen)
    as (bd & td & Hr & _ & _ & _ & _ & Hout).
  destruct (read_bands_zip raster _ bd td Hr) as [-> ->].
  split; [exact Hr|]. split; [exact Hout | reflexivity].
Qed.

Lemma C9_witness :
  raster_b64 <> []
  /\ (length raster_b64 <= length (since_of 1990 1998))%nat
  /\ let t_sf : float -> Z -> float := fun _ _ => PrimFloat.nan in
     let since := since_of 1990 1998 in
     let band_data :=
       zip_with (fun b year => fst (read_band year b)) raster_b64 since in
     let time_data :=
       zip_with (fun b year => snd (read_band year b)) raster_b64 since in
     let st := zip_with (lin_stats t_sf (length raster_b64))
                 (slices time_data) (slices band_data) in
     let band (lab : string) (stat : TrendStats -> float) :=
       {| NoDataValue := Some (of_Z (-9999)); Description := lab;
          Array := map stat st |} in
     read_bands raster_b64 since = Some (band_data, time_data)
     /\ RasterLinModel t_sf raster_b64 1990 1998
        = Some [band "covaraince"%string cov; band "correlation"%string cor;
                band "slope"%string slope; band "intercept"%string intercept;
                band "tstat"%string tstats; band "stderr"%string stderr;
                band "pval"%string pval]
     /\ map Description
          [band "covaraince"%string cov; band "correlation"%string cor;
           band "slope"%string slope; band "intercept"%string intercept;
           band "tstat"%string tstats; band "stderr"%string stderr;
           band "pval"%string pval]
        = stat_labs.
Proof.
  assert (H1 : raster_b64 <> []) by discriminate.
  assert (H2 : (length raster_b64 <= length (since_of 1990 1998))%nat)
    by (vm_compute; lia).
  split; [exact H1|]. split; [exact H2|].
  exact (C9_seven_described_bands (fun _ _ => PrimFloat.nan)
           raster_b64 1990 1998 H1 H2).
Defined.

(** C9, as stated, fails: the dataset written for a three-band raster has
    seven bands, not eight, and none of them is described as a median. *)
Lemma C9_counterexample :
  (forall t_sf : float -> Z -> float,
     option_map (@length _) (RasterLinModel t_sf raster_b64 1990 1998)
     = Some 7%nat)
  /\ (forall t_sf : float -> Z -> float,
        option_map (map Description) (RasterLinModel t_sf raster_b64 1990 1998)
        = Some ["covaraince"; "correlation"; "slope"; "intercept";
                "tstat"; "stderr"; "pval"]%string).
Proof. split; intros t_sf; vm_compute; reflexivity. Qed.

(** C1 (amended).  [n] is the number of periods of the stack
    ([band_data.shape[2]]: the number of bands of the raster in
    RasterLinModel, the 30 years of [since] in CollectCensusTractStats3.py),
    the same for every entity whatever the number of its valid periods, and
    there is no test on that number: every entity, with 3 valid periods or
    fewer, gets the statistics of lines 137-160, in which the covariance is
    the NaN-skipping sum of the cross products divided by [n], and the
    t-statistic and the p-value use [n - 2]; every zone whose median of year
    [band_idx] can be read gets the statistics for [n = 30]. *)
Theorem C1_n_is_the_stack_depth {F G : Type} `{Float64 F}
  (t_sf : F -> Z -> F) (raster : list Band) (start_year end_year : Z)
  (band_idx : Z) (layer : list (Feature F G)) :
  raster <> [] ->
  (length raster <= length (since_of start_year end_year))%nat ->
  let n := Z.of_nat (length raster) in
  exists band_data time_data st,
    read_bands raster (since_of start_year end_year)
    = Some (band_data, time_data)
    /\ pixel_stats t_sf band_data time_data = Some st
    /\ option_map (map Array)
         (RasterLinModel t_sf raster start_year end_year)
       = Some [map cov st; map cor st; map slope st; map intercept st;
               map tstats st; map stderr st; map pval st]
    /\ Forall2
         (fun s '(time_px, band_px) =>
            s = lin_stats t_sf (length raster) time_px band_px
            /\ cov s
               = fdiv (nansum
                         (zip_with
                            (fun t y => fmul (fsub t (nanmean time_px))
                                             (fsub y (nanmean band_px)))
                            time_px band_px))
                      (of_Z n)
            /\ tstats s
               = fdiv (fmul (cor s) (fsqrt (of_Z (n - 2))))
                      (fsqrt (fsub (of_Z 1) (fmul (cor s) (cor s))))
            /\ pval s = fmul (t_sf (tstats s) (n - 2)%Z) (of_Z 2))
         st (zip (slices time_data) (slices band_data))
    /\ CollectCensusTractStats3.n (F := F) = 30%nat
    /\ forall (tract_id ts_rast_lab : string) (zone_data : list F) (med : F),
         py_index zone_data band_idx = Some med ->
         CollectCensusTractStats3.trend_of_raster t_sf band_idx tract_id
           ts_rast_lab zone_data layer
         = Done (CollectCensusTractStats3.write_trend tract_id ts_rast_lab
                   (lin_stats t_sf 30 CollectCensusTractStats3.time_data
                      zone_data)
                   med layer).
Proof.
  intros Hne Hlen n.
  destruct (RasterLinModel_bands t_sf raster start_year end_year Hne Hlen)
    as (bd & td & Hr & _ & _ & _ & Hst & Hout).
  exists bd, td. eexists. split; [exact Hr|]. split; [exact Hst|].
  split; [rewrite Hout; reflexivity|]. split; [|split; [reflexivity|]].
  - generalize (slices td) (slices bd). intros tpx.
    induction tpx as [|time_px tpx IH]; intros [|band_px bpx]; constructor.
    + repeat split.
    + apply IH.
  - intros tract_id ts_rast_lab zone_data med Hmed.
    unfold CollectCensusTractStats3.trend_of_raster. rewrite Hmed.
    reflexivity.
Qed.

Lemma C1_witness :
  raster_b64 <> []
  /\ (length raster_b64 <= length (since_of 1990 1998))%nat
  /\ let t_sf : float -> Z -> float := fun _ _ => PrimFloat.nan in
     let n := Z.of_nat (length raster_b64) in
     exists band_data time_data st,
       read_bands raster_b64 (since_of 1990 1998)
       = Some (band_data, time_data)
       /\ pixel_stats t_sf band_data time_data = Some st
       /\ option_map (map Array) (RasterLinModel t_sf raster_b64 1990 1998)
          = Some [map cov st; map cor st; map slope st; map intercept st;
                  map tstats st; map stderr st; map pval st]
       /\ Forall2
            (fun s '(time_px, band_px) =>
               s = lin_stats t_sf (length raster_b64) time_px band_px
               /\ cov s
                  = fdiv (nansum
                            (zip_with
                               (fun t y => fmul (fsub t (nanmean time_px))
                                                (fsub y (nanmean band_px)))
                               time_px band_px))
                         (of_Z n)
               /\ tstats s
                  = fdiv (fmul (cor s) (fsqrt (of_Z (n - 2))))
                         (fsqrt (fsub (of_Z 1) (fmul (cor s) (cor s))))
               /\ pval s = fmul (t_sf (tstats s) (n - 2)%Z) (of_Z 2))
            st (zip (slices time_data) (slices band_data))
       /\ CollectCensusTractStats3.n (F := float) = 30%nat
       /\ forall (tract_id ts_rast_lab : string) (zone_data : list float)
                 (med : float),
            py_index zone_data 0 = Some med ->
            CollectCensusTractStats3.trend_of_raster t_sf 0 tract_id
              ts_rast_lab zone_data zones3
            = Done (CollectCensusTractStats3.write_trend tract_id ts_rast_lab
                      (lin_stats t_sf 30 CollectCensusTractStats3.time_data
                         zone_data)
                      med zones3).
Proof.
  assert (H1 : raster_b64 <> []) by discriminate.
  assert (H2 : (length raster_b64 <= length (since_of 1990 1998))%nat)
    by (vm_compute; lia).
  split; [exact H1|]. split; [exact H2|].
  exact (C1_n_is_the_stack_depth (fun _ _ => PrimFloat.nan)
           raster_b64 1990 1998 0 zones3 H1 H2).
Defined.

(** C1, as stated, fails.  The one pixel of [raster_b64] is valid in 2 of
    its 3 periods (values 1, no-data, 3 at the offsets 1, 4, 7); the script
    divides by [n = 3], where the count of valid periods is 2, and writes
    defined statistics: covariance 2, and a correlation, slope, intercept,
    t-statistic and standard error that are not NaN. *)
Lemma C1_counterexample :
  count_valid [1%float; PrimFloat.nan; 3%float] = 2%nat
  /\ (forall t_sf : float -> Z -> float,
        option_map (fun out_ds => Array <$> out_ds !! 0%nat)
          (RasterLinModel t_sf raster_b64 1990 1998)
        = Some (Some [2%float]))
  /\ (forall t_sf : float -> Z -> float,
        option_map (fun out_ds =>
                      map (fun band => map PrimFloat.is_nan (Array band))
                          (take 6 out_ds))
          (RasterLinModel t_sf raster_b64 1990 1998)
        = Some [[false]; [false]; [false]; [false]; [false]; [false]]).
Proof.
  split; [reflexivity|].
  split; intros t_sf; vm_compute; reflexivity.
Qed.

(** ** How the later statistics are computed from the earlier ones *)

Section Shape.
Context {F : Type} `{Float64 F}.
Variable t_sf : F -> Z -> F.
Variables (n : nat) (time_px band_px : list F).

Let st : TrendStats := lin_stats t_sf n time_px band_px.

Lemma tstats_eq :
  tstats st = fdiv (fmul (cor st) (fsqrt (of_Z (Z.of_nat n - 2))))
                   (fsqrt (fsub (of_Z 1) (fmul (cor st) (cor st)))).
Proof. reflexivity. Qed.

Lemma stderr_eq : stderr st = fdiv (slope st) (tstats st).
Proof. reflexivity. Qed.

Lemma pval_eq : pval st = fmul (t_sf (tstats st) (Z.of_nat n - 2)) (of_Z 2).
Proof. reflexivity. Qed.

End Shape.

(** ** A series on a line, [v = a + b*t], every period valid *)

Lemma Rvar_Rsq (l : list R) : Rvar l = (Rsq (Rmean l) l / INR (length l))%R.
Proof. reflexivity. Qed.

Lemma Rsum_line (a b : R) (ts : list R) :
  Rsum (line a b ts) = (INR (length ts) * a + b * Rsum ts)%R.
Proof.
  induction ts as [|t ts IH]; [simpl; lra|].
  change (Rsum (line a b (t :: ts))) with (a + b * t + Rsum (line a b ts))%R.
  rewrite IH, length_cons, S_INR. simpl. lra.
Qed.

Lemma Rsq_line (a b m : R) (ts : list R) :
  Rsq (a + b * m) (line a b ts) = (b * b * Rsq m ts)%R.
Proof.
  unfold Rsq. induction ts as [|t ts IH]; [simpl; lra|].
  simpl in *. rewrite IH. ring.
Qed.

Lemma Rcross_line (a b xm : R) (ts : list R) :
  Rcross xm (a + b * xm) ts (map Some (line a b ts)) = (b * Rsq xm ts)%R.
Proof.
  unfold Rcross, Rsq. induction ts as [|t ts IH]; [simpl; lra|].
  simpl in *. rewrite IH. ring.
Qed.

Lemma length_line (a b : R) (ts : list R) : length (line a b ts) = length ts.
Proof. apply length_map. Qed.

Lemma Rmean_line (a b : R) (ts : list R) :
  ts <> [] -> Rmean (line a b ts) = (a + b * Rmean ts)%R.
Proof.
  intros Hts. unfold Rmean. rewrite Rsum_line, length_line.
  pose proof (INR_length_neq_0 ts Hts). field. assumption.
Qed.

Lemma Rvar_line (a b : R) (ts : list R) :
  ts <> [] -> Rvar (line a b ts) = (b * b * Rvar ts)%R.
Proof.
  intros Hts. rewrite !Rvar_Rsq, Rmean_line, Rsq_line, length_line by assumption.
  pose proof (INR_length_neq_0 ts Hts). field. assumption.
Qed.

(** Two different offsets make the variance of the time basis positive. *)
Lemma Rvar_pos (ts : list R) (t1 t2 : R) :
  In t1 ts -> In t2 ts -> t1 <> t2 -> (0 < Rvar ts)%R.
Proof.
  intros H1 H2 Hne. rewrite Rvar_Rsq.
  assert (Hts : ts <> []) by (destruct ts; [destruct H1 | discriminate]).
  assert (Hn : (0 < INR (length ts))%R).
  { destruct ts; [congruence|]. apply lt_0_INR. simpl. lia. }
  assert (Hsq : (0 < Rsq (Rmean ts) ts)%R).
  { set (m := Rmean ts).
    assert (Hall : Forall (fun x => 0 <= x)%R
                     (map (fun x => (x - m) * (x - m))%R ts)).
    { apply List.Forall_forall. intros y Hy.
      apply in_map_iff in Hy as (z & <- & _). exact (Rle_0_sqr (z - m)). }
    destruct (Req_dec_T t1 m) as [E1|N1].
    - apply (Rsum_pos _ ((t2 - m) * (t2 - m))%R Hall).
      + apply in_map_iff. exists t2. split; [reflexivity | assumption].
      + assert (t2 - m <> 0)%R by lra. nra.
    - apply (Rsum_pos _ ((t1 - m) * (t1 - m))%R Hall).
      + apply in_map_iff. exists t1. split; [reflexivity | assumption].
      + assert (t1 - m <> 0)%R by lra. nra. }
  apply Rmult_lt_0_compat; [exact Hsq | apply Rinv_0_lt_compat, Hn].
Qed.

(** ** A correlation of magnitude exactly 1 *)

Section UnitCorrelation.
Variable t_sf : xreal -> Z -> xreal.
Variables (n : nat) (time_px band_px : list xreal).
Hypothesis n_ge_3 : (3 <= n)%nat.

Let st : TrendStats := lin_stats t_sf n time_px band_px.

Lemma sqrt_df_pos : (0 < R_sqrt.sqrt (IZR (Z.of_nat n - 2)))%R.
Proof. apply sqrt_lt_R0, (IZR_lt 0). lia. Qed.

(** [1 - c*c] is 0, its square root is 0, and a nonzero finite value divided
    by 0 is an infinity of the same sign. *)
Lemma tstats_of_unit_cor (s : bool) :
  cor st = XFin (if s then -1 else 1) -> tstats st = XInf s.
Proof.
  intros Hcor. unfold st in *. rewrite tstats_eq, Hcor.
  cbn [fmul fsqrt fsub fdiv of_Z exact].
  rewrite xsqrt_fin by (apply (IZR_le 0); lia).
  cbn [xmul xsub xadd xopp].
  rewrite xsqrt_fin by (destruct s; lra).
  pose proof sqrt_df_pos as Hpos.
  assert (Hz : R_sqrt.sqrt (1 + - ((if s then -1 else 1) * (if s then -1 else 1))) = 0%R).
  { replace (1 + - ((if s then -1 else 1) * (if s then -1 else 1)))%R
      with 0%R by (destruct s; lra).
    apply sqrt_0. }
  destruct s.
  - apply xdiv_neg_zero; [lra | exact Hz].
  - apply xdiv_pos_zero; [lra | exact Hz].
Qed.

(** A finite slope divided by an infinite t-statistic is 0. *)
Lemma stderr_of_unit_cor (s : bool) (b : R) :
  cor st = XFin (if s then -1 else 1) -> slope st = XFin b ->
  stderr st = XFin 0.
Proof.
  intros Hcor Hslope. pose proof (tstats_of_unit_cor s Hcor) as Ht.
  unfold st in *. rewrite stderr_eq, Hslope, Ht. reflexivity.
Qed.

End UnitCorrelation.

Lemma Rvar_pos_nonempty (l : list R) : (0 < Rvar l)%R -> l <> [].
Proof.
  intros Hvar E. rewrite E in Hvar. unfold Rvar, Rsum in Hvar.
  simpl in Hvar. lra.
Qed.

(** ** The regression of a series on a line *)

Section Line.
Variable t_sf : xreal -> Z -> xreal.
Variables (a b : R) (ts : list R).
Hypothesis var_pos : (0 < Rvar ts)%R.

Let st : TrendStats :=
  lin_stats t_sf (length ts) (fin ts) (fin (line a b ts)).

Lemma ts_nonempty_of_var : ts <> [].
Proof. exact (Rvar_pos_nonempty ts var_pos). Qed.

Lemma line_cov : cov st = XFin (b * Rvar ts).
Proof.
  pose proof ts_nonempty_of_var as Hts.
  assert (Hn : length ts <> 0%nat) by (destruct ts; simpl; congruence).
  assert (Hv : vals (map Some (line a b ts)) <> []).
  { rewrite vals_fin. destruct ts; [congruence | discriminate]. }
  unfold st. rewrite <- (lift_fin (line a b ts)).
  rewrite (cov_exact t_sf ts _ _ Hts Hn Hv).
  rewrite vals_fin, Rmean_line, Rcross_line, Rvar_Rsq by assumption.
  f_equal. unfold Rdiv. ring.
Qed.

Lemma line_slope : slope st = XFin b.
Proof.
  pose proof ts_nonempty_of_var as Hts. pose proof line_cov as Hcov.
  unfold st in *. rewrite <- (lift_fin (line a b ts)) in *.
  rewrite (slope_exact t_sf ts _ _ Hts), Hcov, xdiv_fin by lra.
  f_equal. field. lra.
Qed.

Lemma line_vals : vals (map Some (line a b ts)) <> [].
Proof.
  pose proof ts_nonempty_of_var.
  rewrite vals_fin. destruct ts; [congruence | discriminate].
Qed.

Lemma line_intercept : intercept st = XFin a.
Proof.
  pose proof ts_nonempty_of_var as Hts. pose proof line_slope as Hslope.
  pose proof line_vals as Hv.
  unfold st in *. rewrite <- (lift_fin (line a b ts)) in *.
  rewrite (intercept_exact t_sf ts _ _ Hts Hv), Hslope.
  rewrite vals_fin, Rmean_line by assumption.
  cbn [xmul xsub xadd xopp]. f_equal. ring.
Qed.

Lemma sqrt_den : (R_sqrt.sqrt (Rvar ts) * R_sqrt.sqrt (b * b * Rvar ts)
                  = Rabs b * Rvar ts)%R.
Proof.
  rewrite sqrt_mult_alt by nra.
  change (b * b)%R with (Rsqr b). rewrite sqrt_Rsqr_abs.
  transitivity (Rabs b * (R_sqrt.sqrt (Rvar ts) * R_sqrt.sqrt (Rvar ts)))%R;
    [ring|].
  rewrite sqrt_sqrt by lra. reflexivity.
Qed.

Lemma line_cor :
  cor st = xdiv (XFin (b * Rvar ts)) (XFin (Rabs b * Rvar ts)).
Proof.
  pose proof ts_nonempty_of_var as Hts. pose proof line_cov as Hcov.
  pose proof line_vals as Hv.
  unfold st in *. rewrite <- (lift_fin (line a b ts)) in *.
  rewrite (cor_exact t_sf ts _ _ Hts Hv), Hcov.
  rewrite vals_fin, Rvar_line, sqrt_den by assumption. reflexivity.
Qed.

Lemma line_cor_pos : (0 < b)%R -> cor st = XFin 1.
Proof.
  intros Hb. rewrite line_cor, Rabs_right by lra.
  rewrite xdiv_fin by nra. f_equal. field. split; lra.
Qed.

Lemma line_cor_neg : (b < 0)%R -> cor st = XFin (-1).
Proof.
  intros Hb. rewrite line_cor, Rabs_left by lra.
  rewrite xdiv_fin by nra. f_equal. field. split; lra.
Qed.

Lemma line_cor_flat : b = 0%R -> cor st = XNan.
Proof.
  intros Hb. rewrite line_cor, Hb, Rabs_R0.
  apply xdiv_zero_zero; ring.
Qed.

End Line.

Lemma offsets7_var : (0 < Rvar offsets7)%R.
Proof.
  apply (Rvar_pos offsets7 1 4); [simpl; tauto | simpl; tauto | lra].
Qed.

(** C4 (amended).  In exact arithmetic, for every entity of a stack of at
    least 3 periods whose computed correlation is exactly 1 or -1: the
    t-statistic is the infinity of the sign of the correlation (nothing
    raises), and the standard error, [slope / t_statistic], is 0 whenever the
    slope is finite. *)
Theorem C4_unit_correlation_infinite_t
  (t_sf : xreal -> Z -> xreal) (n : nat) (time_px band_px : list xreal)
  (s : bool) (b : R) :
  let st := lin_stats t_sf n time_px band_px in
  (3 <= n)%nat ->
  cor st = XFin (if s then -1 else 1) ->
  slope st = XFin b ->
  tstats st = XInf s /\ stderr st = XFin 0.
Proof.
  intros st Hn Hcor Hslope. split.
  - exact (tstats_of_unit_cor t_sf n time_px band_px Hn s Hcor).
  - exact (stderr_of_unit_cor t_sf n time_px band_px Hn s b Hcor Hslope).
Qed.

Lemma C4_witness :
  let st := lin_stats sf_ends 7 (fin offsets7) (fin (line 0 1 offsets7)) in
  (3 <= 7)%nat
  /\ cor st = XFin 1
  /\ slope st = XFin 1
  /\ tstats st = XInf false /\ stderr st = XFin 0.
Proof.
  intros st.
  assert (H1 : (3 <= 7)%nat) by lia.
  assert (H2 : cor st = XFin 1).
  { apply (line_cor_pos sf_ends 0 1 offsets7 offsets7_var). lra. }
  assert (H3 : slope st = XFin 1).
  { apply (line_slope sf_ends 0 1 offsets7 offsets7_var). }
  split; [exact H1|]. split; [exact H2|]. split; [exact H3|].
  exact (C4_unit_correlation_infinite_t sf_ends 7 (fin offsets7)
           (fin (line 0 1 offsets7)) false 1 H1 H2 H3).
Defined.

(** C4, as stated, fails: on the seven-band raster whose two pixels are
    [v = t] and [v = 20 - t] the script computes, in binary64, the
    correlations 1 and -1, the t-statistics +inf and -inf (not NaN) and the
    standard errors 0 and 0. *)
Lemma C4_counterexample :
  (forall t_sf : float -> Z -> float,
     option_map (fun out_ds => (Array <$> out_ds !! 1%nat,
                                Array <$> out_ds !! 4%nat,
                                Array <$> out_ds !! 5%nat))
       (RasterLinModel t_sf raster7_b64 1990 2010)
     = Some (Some [1; -1]%float,
             Some [infinity; neg_infinity],
             Some [0; 0]%float))
  /\ map PrimFloat.is_nan [infinity; neg_infinity; 0%float]
     = [false; false; false].
Proof. split; [intros t_sf|]; vm_compute; reflexivity. Qed.

(** ** The regression of a series on a line, in binary64 *)








(** ** A constant series, in every arithmetic with the IEEE special values *)

Section Zeros.
Context {F : Type} `{Float64Laws F}.







Section Constant.
Variable t_sf : F -> Z -> F.
Variables (time_px band_px : list F) (c : F).
Hypothesis size : (length band_px <= 1024)%nat.
Hypothesis finite_c : ffinite c = true.
Hypothesis one_valid : Exists (fun v => fisnan v = false) band_px.
Hypothesis constant : Forall (fun v => fisnan v = true \/ v = c) band_px.
Hypothesis mean_c : nanmean band_px = c.

Let st : TrendStats := lin_stats t_sf (length band_px) time_px band_px.









Hypothesis finite_xmean : ffinite (nanmean time_px) = true.
Hypothesis regular_xvar :
  ffinite (fmul (nanstd time_px) (nanstd time_px)) = true
  /\ fzero (fmul (nanstd time_px) (nanstd time_px)) = false.



End Constant.
End Zeros.




(** ** The p-value (GreenLSTTrends3YrMedians.py, 160;
       CollectCensusTractStats3.py, 196) *)

(** C5 (the code departs from the claim).  The claim: the p-value is
    [2 * sf(|t|)], the same for a rising and a falling trend, and lies in
    [0, 1].  The code computes [2 * sf(t)], without the absolute value: for
    every entity of a stack of at least 3 periods whose correlation lies
    strictly between -1 and 0, and a survival function [S] that is symmetric
    about 0 ([S (-x) = 1 - S x], and [0 < S x < 1/2] for [x > 0]), the
    t-statistic is a finite negative [t] and the p-value is [2 * S t], which
    lies strictly between 1 and 2 and differs from [2 * S |t|]. *)
Theorem C5_p_value_of_a_negative_t
  (t_sf : xreal -> Z -> xreal) (S : R -> R) (n : nat)
  (time_px band_px : list xreal) (c : R) :
  let st := lin_stats t_sf n time_px band_px in
  (3 <= n)%nat ->
  (forall x, t_sf (XFin x) (Z.of_nat n - 2)%Z = XFin (S x)) ->
  (forall x, S (- x) = 1 - S x)%R ->
  (forall x, 0 < x -> 0 < S x < 1 / 2)%R ->
  cor st = XFin c -> (-1 < c < 0)%R ->
  exists t p : R,
    tstats st = XFin t /\ (t < 0)%R
    /\ pval st = XFin p /\ p = (2 * S t)%R
    /\ (1 < p < 2)%R /\ p <> (2 * S (Rabs t))%R.
Proof.
  intros st Hn Hsf Hsym Hhalf Hcor Hc.
  set (df := R_sqrt.sqrt (IZR (Z.of_nat n - 2))).
  set (d := R_sqrt.sqrt (1 + - (c * c))).
  assert (Hdf : (0 < df)%R) by (apply sqrt_lt_R0, (IZR_lt 0); lia).
  assert (Hd : (0 < d)%R) by (apply sqrt_lt_R0; nra).
  assert (Ht : tstats st = XFin (c * df / d)).
  { unfold st. rewrite tstats_eq. fold st. rewrite Hcor.
    cbn [fmul fsqrt fsub fdiv of_Z exact].
    rewrite xsqrt_fin by (apply (IZR_le 0); lia).
    cbn [xmul xsub xadd xopp].
    rewrite xsqrt_fin by nra.
    apply xdiv_fin. fold d. lra. }
  assert (Hneg : (c * df / d < 0)%R).
  { apply Ropp_lt_cancel. rewrite Ropp_0.
    replace (- (c * df / d))%R with ((- c) * df * / d)%R
      by (unfold Rdiv; ring).
    apply Rmult_lt_0_compat; [nra | apply Rinv_0_lt_compat, Hd]. }
  exists (c * df / d)%R, (2 * S (c * df / d))%R.
  pose proof (Hhalf (- (c * df / d))%R ltac:(lra)) as Hs.
  pose proof (Hsym (- (c * df / d))%R) as Hs'.
  rewrite Ropp_involutive in Hs'.
  split; [exact Ht|]. split; [exact Hneg|].
  split.
  { unfold st. rewrite pval_eq. fold st. rewrite Ht, Hsf.
    cbn [fmul of_Z exact xmul]. f_equal. ring. }
  split; [reflexivity|].
  split; [lra|].
  rewrite Rabs_left by exact Hneg. lra.
Qed.

Lemma Rvar_offsets7 : Rvar offsets7 = 36%R.
Proof. unfold Rvar, Rmean, Rsum, offsets7. simpl. field. Qed.

Lemma Rmean_offsets7 : Rmean offsets7 = 10%R.
Proof. unfold Rmean, Rsum, offsets7. simpl. field. Qed.

Lemma Rmean_falling7 : Rmean falling7 = 3%R.
Proof. unfold Rmean, Rsum, falling7. simpl. field. Qed.

Lemma Rvar_falling7 : Rvar falling7 = 4%R.
Proof. unfold Rvar, Rmean, Rsum, falling7. simpl. field. Qed.

Lemma sqrt_36 : R_sqrt.sqrt 36 = 6%R.
Proof. replace 36%R with (6 * 6)%R by lra. apply sqrt_square. lra. Qed.

Lemma sqrt_4 : R_sqrt.sqrt 4 = 2%R.
Proof. replace 4%R with (2 * 2)%R by lra. apply sqrt_square. lra. Qed.

Lemma cor_falling7 (t_sf : xreal -> Z -> xreal) :
  cor (lin_stats t_sf 7 (fin offsets7) (fin falling7)) = XFin (- 25 / 28).
Proof.
  assert (Hts : offsets7 <> []) by discriminate.
  assert (Hv : vals (map Some falling7) <> []) by discriminate.
  rewrite <- (lift_fin falling7).
  rewrite (cor_exact t_sf offsets7 _ 7 Hts Hv).
  rewrite (cov_exact t_sf offsets7 _ 7 Hts ltac:(lia) Hv).
  rewrite vals_fin, Rvar_offsets7, Rvar_falling7, sqrt_36, sqrt_4.
  rewrite Rmean_offsets7, Rmean_falling7.
  rewrite xdiv_fin by lra. f_equal.
  unfold Rcross, Rsum, offsets7, falling7. simpl. field.
Qed.

Lemma S_sym_symmetric (x : R) : S_sym (- x) = (1 - S_sym x)%R.
Proof.
  unfold S_sym. rewrite Rabs_Ropp.
  pose proof (Rabs_pos x). field. lra.
Qed.

Lemma S_sym_half (x : R) : (0 < x)%R -> (0 < S_sym x < 1 / 2)%R.
Proof.
  intros Hx. unfold S_sym. rewrite Rabs_right by lra.
  assert (H1 : (0 < x / (2 * (1 + x)))%R).
  { apply Rmult_lt_0_compat; [lra | apply Rinv_0_lt_compat; lra]. }
  assert (H2 : (x / (2 * (1 + x)) < 1 / 2)%R).
  { apply (Rmult_lt_reg_r (2 * (1 + x))); [lra|].
    unfold Rdiv. rewrite Rmult_assoc, Rinv_l by lra. lra. }
  lra.
Qed.

Lemma C5_witness :
  let st := lin_stats sf_sym 7 (fin offsets7) (fin falling7) in
  ((3 <= 7)%nat
   /\ (forall x, sf_sym (XFin x) (Z.of_nat 7 - 2)%Z = XFin (S_sym x))
   /\ (forall x, S_sym (- x) = 1 - S_sym x)%R
   /\ (forall x, 0 < x -> 0 < S_sym x < 1 / 2)%R
   /\ cor st = XFin (- 25 / 28) /\ (-1 < - 25 / 28 < 0)%R)
  /\ exists t p : R,
       tstats st = XFin t /\ (t < 0)%R
       /\ pval st = XFin p /\ p = (2 * S_sym t)%R
       /\ (1 < p < 2)%R /\ p <> (2 * S_sym (Rabs t))%R.
Proof.
  intros st.
  assert (H1 : (3 <= 7)%nat) by lia.
  assert (H2 : forall x, sf_sym (XFin x) (Z.of_nat 7 - 2)%Z = XFin (S_sym x))
    by reflexivity.
  assert (H5 : cor st = XFin (- 25 / 28)) by apply cor_falling7.
  assert (H6 : (-1 < - 25 / 28 < 0)%R) by lra.
  split.
  { split; [exact H1|]. split; [exact H2|].
    split; [exact S_sym_symmetric|]. split; [exact S_sym_half|].
    split; [exact H5 | exact H6]. }
  exact (C5_p_value_of_a_negative_t sf_sym S_sym 7 (fin offsets7)
           (fin falling7) (- 25 / 28) H1 H2 S_sym_symmetric S_sym_half H5 H6).
Defined.

(** ** The Feature Attribute Writer *)

Section Writer.
Context {F G : Type}.
Implicit Types (feat : Feature F G) (layer : list (Feature F G)).

Lemma zone_key_SetFields (values : list (string * F)) feat :
  zone_key (SetFields values feat) = zone_key feat.
Proof.
  revert feat. induction values as [|[name value] values IH]; intros feat;
    [reflexivity|].
  simpl. rewrite IH. reflexivity.
Qed.

Lemma geometry_SetFields (values : list (string * F)) feat :
  geometry (SetFields values feat) = geometry feat.
Proof.
  revert feat. induction values as [|[name value] values IH]; intros feat;
    [reflexivity|].
  simpl. rewrite IH. reflexivity.
Qed.

Lemma fields_SetFields (values : list (string * F)) feat (name : string) :
  fields (SetFields values feat) !! name
  = match written values name with
    | Some v => Some v
    | None => fields feat !! name
    end.
Proof.
  revert feat. induction values as [|[name' value] values IH]; intros feat;
    [reflexivity|].
  simpl. rewrite IH. destruct (written values name); [reflexivity|].
  simpl. destruct (String.eqb_spec name' name) as [->|Hne].
  - apply lookup_insert_eq.
  - apply lookup_insert_ne, Hne.
Qed.

Lemma Feature_eq feat1 feat2 :
  zone_key feat1 = zone_key feat2 -> geometry feat1 = geometry feat2 ->
  fields feat1 = fields feat2 -> feat1 = feat2.
Proof. destruct feat1, feat2. simpl. intros -> -> ->. reflexivity. Qed.

(** Writing the same values a second time changes nothing. *)
Lemma SetFields_idem (values : list (string * F)) feat :
  SetFields values (SetFields values feat) = SetFields values feat.
Proof.
  apply Feature_eq.
  - apply zone_key_SetFields.
  - apply geometry_SetFields.
  - apply map_eq. intros name. rewrite !fields_SetFields.
    destruct (written values name); reflexivity.
Qed.


Lemma for_feat_in_idem (tract_id : string) body layer :
  (forall feat, zone_key (body feat) = zone_key feat) ->
  (forall feat, body (body feat) = body feat) ->
  for_feat_in tract_id body (for_feat_in tract_id body layer)
  = for_feat_in tract_id body layer.
Proof.
  intros Hkey Hidem. unfold for_feat_in. rewrite map_map. apply map_ext.
  intros feat. destruct (String.eqb (zone_key feat) tract_id) eqn:E.
  - rewrite Hkey, E. apply Hidem.
  - rewrite E. reflexivity.
Qed.

Lemma for_feat_in_compose (tract_id : string) body1 body2 layer :
  (forall feat, zone_key (body1 feat) = zone_key feat) ->
  for_feat_in tract_id body2 (for_feat_in tract_id body1 layer)
  = for_feat_in tract_id (fun feat => body2 (body1 feat)) layer.
Proof.
  intros Hkey. unfold for_feat_in. rewrite map_map. apply map_ext.
  intros feat. destruct (String.eqb (zone_key feat) tract_id) eqn:E.
  - rewrite Hkey, E. reflexivity.
  - rewrite E. reflexivity.
Qed.

(** Every feature of the zone in the rewritten layer is the image of a
    feature of the zone. *)
Lemma In_for_feat_in (tract_id : string) body layer feat :
  (forall feat, zone_key (body feat) = zone_key feat) ->
  In feat (for_feat_in tract_id body layer) ->
  zone_key feat = tract_id ->
  exists feat0, In feat0 layer /\ zone_key feat0 = tract_id /\ feat = body feat0.
Proof.
  intros Hkey Hin Hid. unfold for_feat_in in Hin.
  apply in_map_iff in Hin as (feat0 & Heq & Hin0).
  destruct (String.eqb_spec (zone_key feat0) tract_id) as [E|E].
  - exists feat0. auto.
  - subst feat. contradiction.
Qed.

End Writer.

Section Writers3.
Context {F G : Type} `{Float64 F}.
Import CollectCensusTractStats3.

Lemma write_areas_eq (tract_id : string) (in_mem_gsc : list (list F))
  (layer : list (Feature F G)) :
  write_areas tract_id in_mem_gsc layer
  = for_feat_in tract_id
      (SetFields [("greenArea"%string, of_Z (class_area in_mem_gsc 1));
                  ("waterArea"%string, of_Z (class_area in_mem_gsc 2));
                  ("urbanArea"%string, of_Z (class_area in_mem_gsc 3))])
      layer.
Proof.
  unfold write_areas. cbn [zip zip_with fold_left].
  rewrite !for_feat_in_compose by reflexivity. reflexivity.
Qed.


(** Every field that the loop writes was created at lines 100-112, so no
    SetField names an unknown field. *)
Lemma written_fields_created (ts_rast_lab : string) (st : TrendStats) (med : F) :
  In ts_rast_lab ts_rast_labs ->
  incl (map fst (trend_fields ts_rast_lab st med)) created_fields
  /\ incl ["greenArea"; "waterArea"; "urbanArea"]%string created_fields.
Proof.
  intros Hlab. split.
  - destruct Hlab as [<-|[<-|[]]]; intros name Hname; simpl in Hname;
      repeat (destruct Hname as [<-|Hname]; [vm_compute; tauto|]);
      destruct Hname.
  - intros name Hname. simpl in Hname.
    repeat (destruct Hname as [<-|Hname]; [vm_compute; tauto|]).
    destruct Hname.
Qed.

End Writers3.

Section Writers2.
Context {F G : Type} `{Float64 F}.
Import CollectCensusTractStats2.
Variable median_of : string -> G -> option F.
Variable sum_of_class : Z -> G -> option F.

(* lines 162-166 on one feature *)
Let body (dissolved : G) (feat : Feature F G) : Feature F G :=
  let total_area_list := total_area_list sum_of_class dissolved in
  SetField "urbanArea" (area total_area_list 2)
    (SetField "waterArea" (area total_area_list 1)
       (SetField "greenArea" (area total_area_list 0)
          (SetFieldOpt "medianLST" (median_of "LST" dissolved)
             (SetFieldOpt "medianNDVI" (median_of "NDVI" dissolved) feat)))).

Lemma write_zone_eq (tract_id : string) (dissolved : G)
  (layer : list (Feature F G)) :
  write_zone median_of sum_of_class tract_id dissolved layer
  = for_feat_in tract_id (body dissolved) layer.
Proof. reflexivity. Qed.

Lemma zone_key_body (dissolved : G) (feat : Feature F G) :
  zone_key (body dissolved feat) = zone_key feat.
Proof.
  unfold body, SetFieldOpt.
  destruct (median_of "LST" dissolved), (median_of "NDVI" dissolved);
    reflexivity.
Qed.

Lemma fields_body (dissolved : G) (feat : Feature F G) :
  let total_area_list := total_area_list sum_of_class dissolved in
  fields (body dissolved feat) !! "medianNDVI"%string
    = median_of "NDVI" dissolved
  /\ fields (body dissolved feat) !! "medianLST"%string
    = median_of "LST" dissolved
  /\ fields (body dissolved feat) !! "greenArea"%string
    = Some (area total_area_list 0)
  /\ fields (body dissolved feat) !! "waterArea"%string
    = Some (area total_area_list 1)
  /\ fields (body dissolved feat) !! "urbanArea"%string
    = Some (area total_area_list 2).
Proof.
  unfold body, SetFieldOpt.
  destruct (median_of "LST" dissolved), (median_of "NDVI" dissolved);
    cbn [fields SetField]; repeat split; simplify_map_eq; reflexivity.
Qed.


End Writers2.

(** ** The zone loop of CollectCensusTractStats3.py (lines 114-224) *)

Section ZoneLoop.
Context {F G : Type} `{Float64 F}.
Import CollectCensusTractStats3.
Variable t_sf : F -> Z -> F.
Variable Source : Type.
Variables ndvi_src lst_src gsc_src : Source.
Variable mask : Source -> list G -> option (list (list F)).
Variable nanmedian : list F -> F.
Variables ndvi_nodata lst_nodata : option F.
Variable band_idx : Z.

Let loop := zone_loop t_sf Source ndvi_src lst_src gsc_src mask nanmedian
              ndvi_nodata lst_nodata band_idx.
Let shapes_of (gdf : list (Feature F G)) (tract_id : string) : list G :=
  map geometry
      (List.filter (fun row => String.eqb (zone_key row) tract_id) gdf).

(** The try of lines 120-123 fails as soon as one of the three clips
    raises. *)
Lemma clip_raises (shapes : list G) :
  mask ndvi_src shapes = None \/ mask lst_src shapes = None
  \/ mask gsc_src shapes = None ->
  clip Source ndvi_src lst_src gsc_src mask shapes = None.
Proof.
  unfold clip. intros [E|[E|E]].
  - rewrite E. reflexivity.
  - destruct (mask ndvi_src shapes); [|reflexivity]. rewrite E. reflexivity.
  - destruct (mask ndvi_src shapes); [|reflexivity].
    destruct (mask lst_src shapes); [|reflexivity]. rewrite E. reflexivity.
Qed.

Lemma loop_skips_head (gdf : list (Feature F G)) (tract_id : string)
  (later : list string) (layer : list (Feature F G)) :
  clip Source ndvi_src lst_src gsc_src mask (shapes_of gdf tract_id) = None ->
  loop gdf (tract_id :: later) layer = loop gdf later layer.
Proof.
  intros E. unfold loop, shapes_of in *. cbn [zone_loop]. rewrite E.
  reflexivity.
Qed.

Lemma loop_skips (gdf : list (Feature F G)) (tract_id : string)
  (earlier later : list string) (layer : list (Feature F G)) :
  clip Source ndvi_src lst_src gsc_src mask (shapes_of gdf tract_id) = None ->
  loop gdf (earlier ++ tract_id :: later) layer
  = loop gdf (earlier ++ later) layer.
Proof.
  intros E. revert layer.
  induction earlier as [|id earlier IH]; intros layer.
  - apply loop_skips_head, E.
  - unfold loop in *. cbn [app zone_loop].
    destruct (clip Source ndvi_src lst_src gsc_src mask
                (map geometry
                   (List.filter
                      (fun row => String.eqb (zone_key row) id) gdf)))
      as [[[ndvi lst] gsc]|]; [|apply IH].
    destruct (zone_body t_sf nanmedian ndvi_nodata lst_nodata band_idx
                id ndvi lst gsc layer); [apply IH | reflexivity].
Qed.

End ZoneLoop.

(** * Further properties *)

(** ** The confusion matrix of PolygonAccuracy.py *)

Section PolygonAccuracyProofs.
Import PolygonAccuracy.

Lemma py_range_classes (max_class : Z) :
  py_range 1 (max_class + 1) 1 = classes max_class.
Proof.
  unfold py_range, classes.
  replace ((max_class + 1 - 1 + 1 - 1) / 1)%Z with max_class
    by (rewrite Z.div_1_r; lia).
  apply map_ext. intros k. lia.
Qed.

Lemma shape_row (m : list (list Z)) (R C r : nat) (row : list Z) :
  shape m R C -> m !! r = Some row -> length row = C.
Proof.
  intros [_ Hall] Hr. rewrite List.Forall_forall in Hall.
  apply Hall. apply list_elem_of_In. eapply list_elem_of_lookup_2, Hr.
Qed.

Lemma set_cell_spec (m : list (list Z)) (R C : nat) (r c v : Z) :
  shape m R C -> (Z.to_nat r < R)%nat -> (Z.to_nat c < C)%nat ->
  exists m', set_cell m r c v = Some m' /\ shape m' R C
    /\ forall r' c', cell m' r' c'
         = if decide (r' = Z.to_nat r /\ c' = Z.to_nat c) then Some v
           else cell m r' c'.
Proof.
  intros Hs Hr Hc. unfold set_cell.
  destruct (m !! Z.to_nat r) as [row|] eqn:Hrow.
  2:{ apply lookup_ge_None in Hrow. destruct Hs as [Hl _]. lia. }
  pose proof (shape_row m R C _ row Hs Hrow) as Hlen.
  destruct (Nat.ltb_spec (Z.to_nat c) (length row)) as [_|Hge]; [|lia].
  eexists. split; [reflexivity|]. split.
  - destruct Hs as [Hl Hall]. split; [now rewrite length_insert|].
    apply List.Forall_forall. intros row' Hin.
    apply list_elem_of_In, list_elem_of_lookup in Hin as [k Hk].
    destruct (decide (k = Z.to_nat r)) as [->|Hne].
    + rewrite list_lookup_insert_eq in Hk by (apply lookup_lt_Some in Hrow; lia).
      injection Hk as <-. now rewrite length_insert.
    + rewrite list_lookup_insert_ne in Hk by congruence.
      eapply (shape_row m R C); [split|]; eassumption.
  - intros r' c'. unfold cell.
    destruct (decide (r' = Z.to_nat r)) as [->|Hne].
    + rewrite list_lookup_insert_eq by (apply lookup_lt_Some in Hrow; lia).
      rewrite Hrow.
      destruct (decide (c' = Z.to_nat c)) as [->|Hnc].
      * rewrite decide_True by auto.
        apply list_lookup_insert_eq. lia.
      * rewrite decide_False by tauto.
        apply list_lookup_insert_ne. congruence.
    + rewrite list_lookup_insert_ne by congruence.
      rewrite decide_False by tauto. reflexivity.
Qed.

Lemma inner_loop_spec (class_masked : list Z) (i : Z) (R C : nat)
  (ks : list nat) (m : list (list Z)) :
  shape m R C -> (Z.to_nat (i - 1) < C)%nat ->
  Forall (fun k => k < R)%nat ks ->
  exists m',
    inner_loop class_masked i (map (fun k => Z.of_nat k + 1)%Z ks) m = Some m'
    /\ shape m' R C
    /\ forall r' c', cell m' r' c'
         = if decide (c' = Z.to_nat (i - 1) /\ r' ∈ ks)
           then Some (count_nonzero
                        (map (fun c => (c =? Z.of_nat r' + 1)%Z) class_masked)
                      * 25)%Z
           else cell m r' c'.
Proof.
  intros Hs Hc Hks. revert m Hs.
  induction Hks as [|k ks Hk Hks IH]; intros m Hs.
  - exists m. split; [reflexivity|]. split; [exact Hs|].
    intros r' c'.
    rewrite decide_False by (intros [_ Hin]; inversion Hin). reflexivity.
  - cbn [map inner_loop].
    destruct (set_cell_spec m R C (Z.of_nat k + 1 - 1) (i - 1)
                (count_nonzero
                   (map (fun c => (c =? Z.of_nat k + 1)%Z) class_masked) * 25)
                Hs) as (m1 & E1 & Hs1 & Hc1); [lia | exact Hc |].
    rewrite E1.
    destruct (IH m1 Hs1) as (m2 & E2 & Hs2 & Hc2).
    exists m2. split; [exact E2|]. split; [exact Hs2|].
    intros r' c'. rewrite Hc2, Hc1.
    replace (Z.to_nat (Z.of_nat k + 1 - 1)) with k by lia.
    destruct (decide (c' = Z.to_nat (i - 1) /\ r' ∈ ks)) as [[-> Hin]|Hn].
    + rewrite decide_True by set_solver. reflexivity.
    + destruct (decide (r' = k /\ c' = Z.to_nat (i - 1))) as [[-> ->]|Hn'].
      * rewrite decide_True by set_solver. reflexivity.
      * rewrite decide_False; [reflexivity|].
        intros [-> Hin]. apply elem_of_cons in Hin as [->|Hin]; tauto.
Qed.

Lemma tally_flat (vs cs : list Z) (i j : Z) :
  count_nonzero
    (map (fun c => (c =? j)%Z)
       (map fst (List.filter snd (zip cs (map (fun v => (v =? i)%Z) vs)))))
  = tally vs cs i j.
Proof.
  unfold count_nonzero, tally. f_equal. f_equal.
  revert cs. induction vs as [|v vs IH]; intros [|c cs]; try reflexivity.
  simpl. destruct (v =? i)%Z; simpl; [|apply IH].
  destruct (c =? j)%Z; simpl; [f_equal|]; apply IH.
Qed.

Lemma bool_index_same_shape (val_arr class_arr : list (list Z)) (i : Z) :
  map length class_arr = map length val_arr ->
  bool_index class_arr (map (map (fun v => (v =? i)%Z)) val_arr)
  = Some (map fst (List.filter snd
                     (zip (concat class_arr)
                          (map (fun v => (v =? i)%Z) (concat val_arr))))).
Proof.
  intros Hshape. unfold bool_index.
  assert (map length (map (map (fun v => (v =? i)%Z)) val_arr)
          = map length val_arr) as ->.
  { rewrite map_map. apply map_ext. intros row. apply length_map. }
  rewrite bool_decide_eq_true_2 by exact Hshape.
  rewrite <- concat_map. reflexivity.
Qed.


Lemma elem_of_seq_0 (R r : nat) : r ∈ seq 0 R <-> (r < R)%nat.
Proof. rewrite elem_of_seq. lia. Qed.

Lemma outer_loop_spec (val_arr class_arr : list (list Z)) (max_class : Z)
  (cs : list nat) (m : list (list Z)) :
  let R := Z.to_nat max_class in
  map length class_arr = map length val_arr ->
  shape m R R -> Forall (fun c => c < R)%nat cs ->
  exists m',
    outer_loop val_arr class_arr max_class
      (map (fun k => Z.of_nat k + 1)%Z cs) m = Some m'
    /\ shape m' R R
    /\ forall r' c', cell m' r' c'
         = if decide (c' ∈ cs /\ (r' < R)%nat)
           then Some (tally (concat val_arr) (concat class_arr)
                        (Z.of_nat c' + 1) (Z.of_nat r' + 1) * 25)%Z
           else cell m r' c'.
Proof.
  intros R Hlen Hs Hcs. revert m Hs.
  induction Hcs as [|c cs Hc Hcs IH]; intros m Hs.
  - exists m. split; [reflexivity|]. split; [exact Hs|].
    intros r' c'.
    rewrite decide_False by (intros [Hin _]; inversion Hin). reflexivity.
  - cbn [map outer_loop].
    rewrite (bool_index_same_shape val_arr class_arr (Z.of_nat c + 1) Hlen).
    rewrite py_range_classes. unfold classes. fold R.
    destruct (inner_loop_spec
                (map fst (List.filter snd
                   (zip (concat class_arr)
                      (map (fun v => (v =? Z.of_nat c + 1)%Z)
                         (concat val_arr)))))
                (Z.of_nat c + 1) R R (seq 0 R) m Hs)
      as (m1 & E1 & Hs1 & Hc1).
    { lia. }
    { apply List.Forall_forall. intros k Hk. apply in_seq in Hk. lia. }
    rewrite E1.
    destruct (IH m1 Hs1) as (m2 & E2 & Hs2 & Hc2).
    exists m2. split; [exact E2|]. split; [exact Hs2|].
    intros r' c'. rewrite Hc2, Hc1.
    replace (Z.to_nat (Z.of_nat c + 1 - 1)) with c by lia.
    destruct (decide (c' ∈ cs /\ (r' < R)%nat)) as [[Hin Hr]|Hn].
    + rewrite decide_True; [reflexivity|].
      split; [apply elem_of_cons; tauto | exact Hr].
    + destruct (decide (c' = c /\ r' ∈ seq 0 R)) as [[-> Hr]|Hn'].
      * apply elem_of_seq_0 in Hr.
        rewrite decide_True by (split; [apply elem_of_cons; tauto | exact Hr]).
        f_equal. f_equal.
        apply tally_flat.
      * rewrite decide_False; [reflexivity|].
        intros [Hin Hr]. apply elem_of_cons in Hin as [->|Hin]; [|tauto].
        apply Hn'. split; [reflexivity | now apply elem_of_seq_0].
Qed.

Lemma shape_zeros (R C : nat) : shape (repeat (repeat 0%Z C) R) R C.
Proof.
  split; [apply repeat_length|].
  apply List.Forall_forall. intros row Hin.
  apply repeat_spec in Hin. subst. apply repeat_length.
Qed.


Lemma matrix_ext (m1 m2 : list (list Z)) (R C : nat) :
  shape m1 R C -> shape m2 R C ->
  (forall r c, (r < R)%nat -> (c < C)%nat -> cell m1 r c = cell m2 r c) ->
  m1 = m2.
Proof.
  intros Hs1 Hs2 Hc. apply list_eq. intros r.
  destruct (m1 !! r) as [row1|] eqn:E1.
  - assert (Hr : (r < R)%nat)
      by (apply lookup_lt_Some in E1; destruct Hs1; lia).
    destruct (m2 !! r) as [row2|] eqn:E2.
    2:{ apply lookup_ge_None in E2. destruct Hs2. lia. }
    f_equal. apply list_eq. intros c.
    pose proof (shape_row _ _ _ _ _ Hs1 E1) as L1.
    pose proof (shape_row _ _ _ _ _ Hs2 E2) as L2.
    destruct (Nat.lt_ge_cases c C) as [Hlt|Hge].
    + specialize (Hc r c Hr Hlt). unfold cell in Hc.
      rewrite E1, E2 in Hc. exact Hc.
    + rewrite !lookup_ge_None_2 by lia. reflexivity.
  - apply lookup_ge_None in E1. symmetry. apply lookup_ge_None.
    destruct Hs1, Hs2. lia.
Qed.

Lemma shape_table (val_arr class_arr : list Z) (max_class : Z) :
  shape (table val_arr class_arr max_class)
        (Z.to_nat max_class) (Z.to_nat max_class).
Proof.
  unfold table, classes. split.
  - now rewrite !length_map, length_seq.
  - apply List.Forall_forall. intros row Hin.
    apply in_map_iff in Hin as (j & <- & _).
    now rewrite !length_map, length_seq.
Qed.

Lemma cell_table (val_arr class_arr : list Z) (max_class : Z) (r c : nat) :
  (r < Z.to_nat max_class)%nat -> (c < Z.to_nat max_class)%nat ->
  cell (table val_arr class_arr max_class) r c
  = Some (tally val_arr class_arr (Z.of_nat c + 1) (Z.of_nat r + 1) * 25)%Z.
Proof.
  intros Hr Hc. unfold cell, table, classes.
  rewrite !list_lookup_fmap, lookup_seq_lt by lia. cbn.
  rewrite !list_lookup_fmap, lookup_seq_lt by lia. reflexivity.
Qed.

(** The loops with their in-place assignments compute the table. *)
Lemma PolygonAccuracy_eq_table (val_arr class_arr : list (list Z))
  (max_class : Z) :
  np_max (concat class_arr) = Some max_class -> (0 <= max_class)%Z ->
  map length val_arr = map length class_arr ->
  PolygonAccuracy val_arr class_arr
  = Some (table (concat val_arr) (concat class_arr) max_class).
Proof.
  intros Hmax Hpos Hlen. unfold PolygonAccuracy. rewrite Hmax.
  unfold np_zeros.
  replace ((max_class <? 0) || (max_class <? 0))%Z%bool with false
    by (destruct (Z.ltb_spec max_class 0); [lia | reflexivity]).
  rewrite py_range_classes. unfold classes.
  destruct (outer_loop_spec val_arr class_arr max_class
              (seq 0 (Z.to_nat max_class))
              (repeat (repeat 0%Z (Z.to_nat max_class)) (Z.to_nat max_class)))
    as (m' & E & Hs & Hc).
  { congruence. }
  { apply shape_zeros. }
  { apply List.Forall_forall. intros k Hk. apply in_seq in Hk. lia. }
  rewrite E. f_equal.
  apply (matrix_ext _ _ _ _ Hs (shape_table _ _ _)).
  intros r c Hr Hcl. rewrite Hc, cell_table by assumption.
  rewrite decide_True; [reflexivity|].
  split; [now apply elem_of_seq_0 | exact Hr].
Qed.


Lemma np_max_None (a : list Z) : np_max a = None <-> a = [].
Proof. destruct a; simpl; split; congruence. Qed.

(** X2.  PolygonAccuracy raises in exactly three situations: the class
    raster has no pixel ([class_arr.max()]), its greatest value is negative
    ([np.zeros] of a negative size), or its greatest value is at least 1 and
    the two rasters differ in shape (the boolean index of line 40).  When
    the greatest class is 0 the matrix is empty and the shapes are never
    compared. *)
Theorem PolygonAccuracy_raises (val_arr class_arr : list (list Z)) :
  PolygonAccuracy val_arr class_arr = None
  <-> concat class_arr = []
      \/ exists max_class, np_max (concat class_arr) = Some max_class
           /\ (max_class < 0
               \/ (1 <= max_class
                   /\ map length val_arr <> map length class_arr))%Z.
Proof.
  destruct (np_max (concat class_arr)) as [mx|] eqn:Hmax.
  2:{ unfold PolygonAccuracy. rewrite Hmax. apply np_max_None in Hmax.
      split; auto. }
  assert (Hne : concat class_arr <> [])
    by (intros E; rewrite E in Hmax; discriminate).
  destruct (Z.ltb_spec mx 0) as [Hneg|Hpos].
  { unfold PolygonAccuracy, np_zeros. rewrite Hmax.
    replace (mx <? 0)%Z with true by (symmetry; apply Z.ltb_lt; lia).
    split; [|reflexivity]. intros _. right. exists mx. auto. }
  destruct (decide (map length val_arr = map length class_arr)) as [Hlen|Hlen].
  { rewrite (PolygonAccuracy_eq_table _ _ mx Hmax Hpos Hlen).
    split; [discriminate|].
    intros [E|(mx' & E & [Hn|[_ Hn]])]; [congruence | | congruence].
    assert (mx' = mx) by congruence. lia. }
  destruct (decide (mx = 0%Z)) as [->|Hnz].
  { unfold PolygonAccuracy. rewrite Hmax. cbn.
    split; [discriminate|].
    intros [E|(mx' & E & [Hn|[Hn _]])]; [congruence | | ];
      assert (mx' = 0%Z) by congruence; lia. }
  split.
  - intros _. right. exists mx. split; [reflexivity|]. right.
    split; [lia | exact Hlen].
  - intros _. unfold PolygonAccuracy, np_zeros. rewrite Hmax.
    replace (mx <? 0)%Z with false by (symmetry; apply Z.ltb_ge; lia).
    cbn [orb]. rewrite py_range_classes. unfold classes.
    destruct (Z.to_nat mx) as [|k] eqn:Hk; [lia|].
    cbn [seq map outer_loop]. unfold bool_index.
    assert (map length (map (map (fun v => (v =? Z.of_nat 0 + 1)%Z)) val_arr)
            = map length val_arr) as ->.
    { rewrite map_map. apply map_ext. intros row. apply length_map. }
    rewrite bool_decide_eq_false_2 by congruence. reflexivity.
Qed.


Lemma tally_same (a : list Z) (i j : Z) :
  tally a a i j = if (i =? j)%Z then count_class a i else 0%Z.
Proof.
  unfold tally, count_class.
  induction a as [|v a IH]; simpl.
  - destruct (i =? j)%Z; reflexivity.
  - destruct (Z.eqb_spec v i) as [->|Hvi]; simpl.
    + destruct (Z.eqb_spec i j) as [->|Hij]; simpl; [|exact IH].
      rewrite !Nat2Z.inj_succ. f_equal. exact IH.
    + exact IH.
Qed.

(** X3.  A class raster compared with itself gives a diagonal matrix: cell
    (i-1, i-1) holds 25 times the number of pixels of class [i], every other
    cell is 0. *)
Theorem PolygonAccuracy_agreement (a : list (list Z)) (max_class : Z) :
  np_max (concat a) = Some max_class -> (0 <= max_class)%Z ->
  PolygonAccuracy a a
  = Some (map (fun j => map (fun i => if (i =? j)%Z
                                      then (count_class (concat a) i * 25)%Z
                                      else 0%Z)
                            (classes max_class))
              (classes max_class)).
Proof.
  intros Hmax Hpos.
  rewrite (PolygonAccuracy_eq_table a a max_class Hmax Hpos eq_refl).
  unfold table. f_equal. apply map_ext. intros j. apply map_ext. intros i.
  rewrite tally_same. destruct (i =? j)%Z; reflexivity.
Qed.


Lemma sumZ_add {A : Type} (f g : A -> Z) (l : list A) :
  sumZ (map (fun x => f x + g x)%Z l) = (sumZ (map f l) + sumZ (map g l))%Z.
Proof. induction l as [|x l IH]; simpl; [reflexivity | rewrite IH; lia]. Qed.

Lemma sumZ_zero {A : Type} (f : A -> Z) (l : list A) :
  (forall x, f x = 0%Z) -> sumZ (map f l) = 0%Z.
Proof.
  intros Hf. induction l as [|x l IH]; simpl; [reflexivity|].
  rewrite Hf, IH. reflexivity.
Qed.

Lemma sumZ_indicator (l : list Z) (x a : Z) :
  List.NoDup l ->
  sumZ (map (fun i => if (x =? i)%Z then a else 0%Z) l)
  = if existsb (Z.eqb x) l then a else 0%Z.
Proof.
  induction 1 as [|y l Hy Hl IH]; simpl; [reflexivity|].
  rewrite IH. destruct (Z.eqb_spec x y) as [->|Hne]; simpl; [|reflexivity].
  destruct (existsb (Z.eqb y) l) eqn:E; [|lia].
  apply existsb_exists in E as (z & Hz & Ez).
  apply Z.eqb_eq in Ez. subst z. contradiction.
Qed.

Lemma NoDup_classes (max_class : Z) : List.NoDup (classes max_class).
Proof.
  unfold classes. apply Finite.Injective_map_NoDup; [|apply seq_NoDup].
  intros k1 k2. lia.
Qed.

Lemma existsb_classes (max_class x : Z) :
  existsb (Z.eqb x) (classes max_class)
  = ((1 <=? x) && (x <=? max_class))%Z.
Proof.
  apply eq_true_iff_eq. rewrite existsb_exists, andb_true_iff.
  rewrite !Z.leb_le. unfold classes. split.
  - intros (y & Hy & E). apply Z.eqb_eq in E. subst y.
    apply in_map_iff in Hy as (k & <- & Hk). apply in_seq in Hk. lia.
  - intros [H1 H2]. exists x. split; [|apply Z.eqb_refl].
    apply in_map_iff. exists (Z.to_nat (x - 1)). split; [lia|].
    apply in_seq. lia.
Qed.

Lemma total_table (val_arr class_arr : list Z) (max_class : Z) :
  sumZ (map sumZ (table val_arr class_arr max_class))
  = (25 * Z.of_nat
            (length (List.filter
                       (fun '(v, c) => ((1 <=? v) && (v <=? max_class)
                                       && ((1 <=? c) && (c <=? max_class)))%Z)
                       (zip val_arr class_arr))))%Z.
Proof.
  unfold table, tally. rewrite map_map.
  generalize (zip val_arr class_arr) as ps.
  induction ps as [|[v c] ps IH].
  - rewrite sumZ_zero; [reflexivity|]. intros j.
    apply sumZ_zero. intros i. reflexivity.
  - transitivity
      (sumZ (map (fun j =>
                    (if (c =? j)%Z
                     then (if ((1 <=? v) && (v <=? max_class))%Z then 25 else 0)
                     else 0)
                    + sumZ (map (fun i =>
                                   Z.of_nat
                                     (length (List.filter
                                        (fun '(v0, c0) =>
                                           ((v0 =? i) && (c0 =? j))%Z) ps))
                                   * 25) (classes max_class)))%Z
                 (classes max_class))).
    + f_equal. apply map_ext. intros j.
      rewrite <- (existsb_classes max_class v).
      destruct (Z.eqb_spec c j) as [->|Hcj].
      * rewrite <- (sumZ_indicator (classes max_class) v 25
                      (NoDup_classes max_class)).
        rewrite <- sumZ_add. f_equal. apply map_ext. intros i.
        cbn [List.filter]. rewrite Z.eqb_refl, andb_true_r.
        destruct (v =? i)%Z; cbn [length]; lia.
      * replace (0 + sumZ _)%Z with (sumZ
          (map (fun i => Z.of_nat (length (List.filter
                  (fun '(v0, c0) => ((v0 =? i) && (c0 =? j))%Z) ps)) * 25)
               (classes max_class)))%Z by lia.
        f_equal. apply map_ext. intros i. cbn [List.filter].
        replace (c =? j)%Z with false by (symmetry; apply Z.eqb_neq, Hcj).
        rewrite andb_false_r. reflexivity.
    + rewrite sumZ_add, IH.
      rewrite (sumZ_indicator (classes max_class) c _ (NoDup_classes max_class)).
      rewrite existsb_classes. cbn [List.filter].
      destruct ((1 <=? v) && (v <=? max_class))%Z,
               ((1 <=? c) && (c <=? max_class))%Z; cbn [andb length]; lia.
Qed.

Lemma fold_max_ge (xs : list Z) (x : Z) :
  (x <= fold_left Z.max xs x)%Z
  /\ forall y, In y xs -> (y <= fold_left Z.max xs x)%Z.
Proof.
  revert x. induction xs as [|z xs IH]; intros x; simpl.
  - split; [lia | tauto].
  - destruct (IH (Z.max x z)) as [H1 H2]. split; [lia|].
    intros y [->|Hy]; [lia | auto].
Qed.

Lemma np_max_ge (a : list Z) (max_class c : Z) :
  np_max a = Some max_class -> In c a -> (c <= max_class)%Z.
Proof.
  destruct a as [|x xs]; [discriminate|]. simpl. intros [= <-] [E|Hc].
  - subst c. exact (proj1 (fold_max_ge xs x)).
  - exact (proj2 (fold_max_ge xs x) c Hc).
Qed.

(** X4.  The cells of the matrix add up to 25 times the number of pixels
    whose validation value is one of the classes 1 .. max_class and whose
    class is at least 1: a pixel outside every validation polygon (value 0),
    or validated as a class above the greatest class of the class raster, is
    counted nowhere. *)
Theorem PolygonAccuracy_total (val_arr class_arr : list (list Z))
  (max_class : Z) :
  np_max (concat class_arr) = Some max_class -> (0 <= max_class)%Z ->
  map length val_arr = map length class_arr ->
  exists conf_mat,
    PolygonAccuracy val_arr class_arr = Some conf_mat
    /\ sumZ (map sumZ conf_mat)
       = (25 * Z.of_nat
                 (length (List.filter
                            (fun '(v, c) => ((1 <=? v) && (v <=? max_class)
                                            && (1 <=? c))%Z)
                            (zip (concat val_arr) (concat class_arr)))))%Z.
Proof.
  intros Hmax Hpos Hlen.
  exists (table (concat val_arr) (concat class_arr) max_class). split.
  - exact (PolygonAccuracy_eq_table _ _ _ Hmax Hpos Hlen).
  - rewrite total_table. f_equal. f_equal. f_equal.
    apply filter_ext_in. intros [v c] Hin.
    assert (Hc : (c <= max_class)%Z).
    { apply (np_max_ge (concat class_arr) _ _ Hmax).
      clear -Hin. revert Hin. generalize (concat class_arr) as cs.
      induction (concat val_arr) as [|v0 vs IH]; intros [|c0 cs] Hin;
        simpl in Hin; try tauto.
      destruct Hin as [[= -> ->]|Hin]; [left; reflexivity|].
      right. apply IH, Hin. }
    replace (c <=? max_class)%Z with true by (symmetry; apply Z.leb_le, Hc).
    now rewrite andb_true_r.
Qed.

(** X1.  For two rasters of the same shape, PolygonAccuracy returns a square
    matrix with one row and one column per class 1 .. max_class, where
    max_class is the greatest value of the class raster; the cell in row
    [j-1] and column [i-1] is 25 times the number of pixels whose validation
    value is [i] and whose class is [j]: rows are the classification,
    columns the validation. *)
Theorem confusion_matrix_cells (val_arr class_arr : list (list Z))
  (max_class : Z) :
  np_max (concat class_arr) = Some max_class -> (0 <= max_class)%Z ->
  map length val_arr = map length class_arr ->
  exists conf_mat,
    PolygonAccuracy val_arr class_arr = Some conf_mat
    /\ shape conf_mat (Z.to_nat max_class) (Z.to_nat max_class)
    /\ forall i j : Z,
         (1 <= i <= max_class)%Z -> (1 <= j <= max_class)%Z ->
         cell conf_mat (Z.to_nat (j - 1)) (Z.to_nat (i - 1))
         = Some (tally (concat val_arr) (concat class_arr) i j * 25)%Z.
Proof.
  intros Hmax Hpos Hlen.
  exists (table (concat val_arr) (concat class_arr) max_class).
  split; [exact (PolygonAccuracy_eq_table _ _ _ Hmax Hpos Hlen)|].
  split; [apply shape_table|].
  intros i j Hi Hj. rewrite cell_table by lia.
  repeat f_equal; lia.
Qed.

End PolygonAccuracyProofs.


Lemma confusion_matrix_cells_witness :
  PolygonAccuracy.np_max (concat class6) = Some 3%Z /\ (0 <= 3)%Z
  /\ map length val6 = map length class6
  /\ exists conf_mat,
       PolygonAccuracy.PolygonAccuracy val6 class6 = Some conf_mat
       /\ shape conf_mat (Z.to_nat 3) (Z.to_nat 3)
       /\ forall i j : Z,
            (1 <= i <= 3)%Z -> (1 <= j <= 3)%Z ->
            cell conf_mat (Z.to_nat (j - 1)) (Z.to_nat (i - 1))
            = Some (PolygonAccuracy.tally (concat val6) (concat class6) i j
                    * 25)%Z.
Proof.
  assert (H1 : PolygonAccuracy.np_max (concat class6) = Some 3%Z)
    by reflexivity.
  assert (H2 : (0 <= 3)%Z) by lia.
  assert (H3 : map length val6 = map length class6) by reflexivity.
  split; [exact H1|]. split; [exact H2|]. split; [exact H3|].
  exact (confusion_matrix_cells val6 class6 3 H1 H2 H3).
Defined.

Lemma PolygonAccuracy_agreement_witness :
  PolygonAccuracy.np_max (concat class6) = Some 3%Z /\ (0 <= 3)%Z
  /\ PolygonAccuracy.PolygonAccuracy class6 class6
     = Some (map (fun j => map (fun i => if (i =? j)%Z
                                         then (count_class (concat class6) i
                                               * 25)%Z
                                         else 0%Z)
                               (PolygonAccuracy.classes 3))
                 (PolygonAccuracy.classes 3)).
Proof.
  assert (H1 : PolygonAccuracy.np_max (concat class6) = Some 3%Z)
    by reflexivity.
  assert (H2 : (0 <= 3)%Z) by lia.
  split; [exact H1|]. split; [exact H2|].
  exact (PolygonAccuracy_agreement class6 3 H1 H2).
Defined.

Lemma PolygonAccuracy_total_witness :
  PolygonAccuracy.np_max (concat class6) = Some 3%Z /\ (0 <= 3)%Z
  /\ map length val6 = map length class6
  /\ exists conf_mat,
       PolygonAccuracy.PolygonAccuracy val6 class6 = Some conf_mat
       /\ sumZ (map sumZ conf_mat)
          = (25 * Z.of_nat
                    (length (List.filter
                               (fun '(v, c) => ((1 <=? v) && (v <=? 3)
                                               && (1 <=? c))%Z)
                               (zip (concat val6) (concat class6)))))%Z.
Proof.
  assert (H1 : PolygonAccuracy.np_max (concat class6) = Some 3%Z)
    by reflexivity.
  assert (H2 : (0 <= 3)%Z) by lia.
  assert (H3 : map length val6 = map length class6) by reflexivity.
  split; [exact H1|]. split; [exact H2|]. split; [exact H3|].
  exact (PolygonAccuracy_total val6 class6 3 H1 H2 H3).
Defined.

(** ** The periods of RasterLinModel (lines 99-104) *)

Lemma since_of_eq (start_year end_year : Z) :
  since_of start_year end_year
  = map (fun k => 3 * Z.of_nat k + 1)%Z
        (seq 0 (Z.to_nat ((end_year - start_year + 2) / 3))).
Proof.
  unfold since_of, py_range. rewrite map_map.
  replace (end_year + 1 - (start_year + 1) + 3 - 1)%Z
    with (end_year - start_year + 2)%Z by lia.
  apply map_ext. intros k. lia.
Qed.

Lemma length_since_of (start_year end_year : Z) :
  length (since_of start_year end_year)
  = Z.to_nat ((end_year - start_year + 2) / 3).
Proof. now rewrite since_of_eq, length_map, length_seq. Qed.

(** X5.  The offsets that RasterLinModel gives to the bands are 1, 4, 7,
    ...: one every three years, the first of them 1 and not 0, whatever the
    start year; there are as many as there are whole or started triples of
    years from [start_year + 1] to [end_year], and none when
    [end_year <= start_year]. *)
Theorem since_of_offsets (start_year end_year : Z) :
  since_of start_year end_year
  = map (fun k => 3 * Z.of_nat k + 1)%Z
        (seq 0 (Z.to_nat ((end_year - start_year + 2) / 3))).
Proof. apply since_of_eq. Qed.

Section Raises.
Context {F : Type} `{Float64 F}.
Variable t_sf : F -> Z -> F.

Lemma read_bands_none (raster : list Band) (since : list Z) :
  (length since < length raster)%nat -> read_bands raster since = None.
Proof.
  revert since. induction raster as [|b bs IH]; intros since Hlen.
  - simpl in Hlen. lia.
  - destruct since as [|year later]; [reflexivity|].
    cbn [read_bands]. destruct (read_band year b).
    rewrite IH by (simpl in Hlen; lia). reflexivity.
Qed.

Lemma RasterLinModel_none (raster : list Band) (start_year end_year : Z) :
  RasterLinModel t_sf raster start_year end_year = None
  <-> raster = []
      \/ (Z.to_nat ((end_year - start_year + 2) / 3) < length raster)%nat.
Proof.
  rewrite <- length_since_of. unfold RasterLinModel.
  destruct raster as [|b bs].
  - simpl. split; auto.
  - destruct (Nat.lt_ge_cases (length (since_of start_year end_year))
                (length (b :: bs))) as [Hlt|Hge].
    + rewrite (read_bands_none _ _ Hlt). split; auto.
    + destruct (read_bands_some (b :: bs) _ Hge) as (bd & td & Hr & Hb & Ht).
      rewrite Hr.
      destruct (pixel_stats_some t_sf bd td) as [st Hst].
      { destruct bd; [discriminate | congruence]. }
      { destruct td; [discriminate | congruence]. }
      rewrite Hst. split; [discriminate|].
      intros [E|E]; [discriminate | lia].
Qed.

End Raises.

(** X6.  RasterLinModel raises exactly when the raster has no band
    (np.dstack of an empty list) or more bands than the years give periods
    ([since[band]] at line 122); with fewer bands than periods it runs, and
    the later periods are not used. *)
Theorem RasterLinModel_raises {F : Type} `{Float64 F} (t_sf : F -> Z -> F)
  (raster : list Band) (start_year end_year : Z) :
  RasterLinModel t_sf raster start_year end_year = None
  <-> raster = []
      \/ (Z.to_nat ((end_year - start_year + 2) / 3) < length raster)%nat.
Proof. apply RasterLinModel_none. Qed.

Section PerPixel.
Context {F : Type} `{Float64 F}.
Variable t_sf : F -> Z -> F.
Hypothesis nan_neq : forall v : F, feqb fnan v = false.

Lemma zip_with_const_r {A B C : Type} (f : A -> C) (l1 : list A) (l2 : list B) :
  (length l1 <= length l2)%nat ->
  zip_with (fun a _ => f a) l1 l2 = map f l1.
Proof.
  revert l2. induction l1 as [|a l1 IH]; intros [|b l2] Hlen;
    simpl in *; try reflexivity; [lia|].
  rewrite IH by lia. reflexivity.
Qed.

Lemma RasterLinModel_pixels (raster : list Band)
  (start_year end_year : Z) (k : nat) :
  let n := length raster in
  let offsets := map of_Z (take n (since_of start_year end_year)) in
  let series := slices (map (fun b => fst (read_band 0 b)) raster) in
  let st := map (lin_stats t_sf n offsets) series in
  raster <> [] ->
  (length raster <= length (since_of start_year end_year))%nat ->
  Forall (fun b => length (band_arr b) = k) raster ->
  length st = k
  /\ exists out_ds,
       RasterLinModel t_sf raster start_year end_year = Some out_ds
       /\ map Array out_ds
          = [map cov st; map cor st; map slope st; map intercept st;
             map tstats st; map stderr st; map pval st].
Proof.
  intros n offsets series st Hne Hlen Hall.
  destruct (read_bands_some raster _ Hlen) as (bd & td & Hr & Hb & Ht).
  pose proof (pixel_stats_offsets nan_neq t_sf raster _ bd td k Hr Hne Hall)
    as Hps.
  destruct (read_bands_data nan_neq raster _ bd td Hr) as (_ & Hbd & _).
  assert (Ebd : bd = map (fun b => fst (read_band 0 b)) raster).
  { rewrite Hbd. apply (zip_with_const_r (fun b => fst (read_band 0 b))), Hlen. }
  split.
  - unfold st, series. rewrite length_map. apply length_slices.
    + destruct raster; [congruence | discriminate].
    + apply List.Forall_forall. intros l Hl.
      apply in_map_iff in Hl as (b & <- & Hb').
      rewrite length_read_band.
      rewrite List.Forall_forall in Hall. auto.
  - unfold RasterLinModel. rewrite Hr, Hps. rewrite Ebd.
    eexists. split; [reflexivity|]. reflexivity.
Qed.

End PerPixel.

(** X7.  Every pixel is regressed on its own: for a raster of [n] bands of
    [k] pixels, band [b] of the dataset that RasterLinModel returns holds, at
    each pixel, statistic [b] of the series of that pixel alone (its values
    band by band, no-data replaced by NaN), computed with [n] the number of
    bands against the first [n] offsets.  The statistics of a pixel do not
    depend on the other pixels. *)
Theorem RasterLinModel_per_pixel {F : Type} `{Float64 F}
  (t_sf : F -> Z -> F) (raster : list Band) (start_year end_year : Z)
  (k : nat) :
  let n := length raster in
  let offsets := map of_Z (take n (since_of start_year end_year)) in
  let series := slices (map (fun b => fst (read_band 0 b)) raster) in
  let st := map (lin_stats t_sf n offsets) series in
  (forall v : F, feqb fnan v = false) ->
  raster <> [] ->
  (length raster <= length (since_of start_year end_year))%nat ->
  Forall (fun b => length (band_arr b) = k) raster ->
  length st = k
  /\ exists out_ds,
       RasterLinModel t_sf raster start_year end_year = Some out_ds
       /\ map Array out_ds
          = [map cov st; map cor st; map slope st; map intercept st;
             map tstats st; map stderr st; map pval st].
Proof.
  intros n offsets series st nan_neq.
  exact (RasterLinModel_pixels t_sf nan_neq raster start_year end_year k).
Qed.

Lemma RasterLinModel_per_pixel_witness :
  (forall v : float, feqb fnan v = false)
  /\ raster7_b64 <> []
  /\ (length raster7_b64 <= length (since_of 1990 2010))%nat
  /\ Forall (fun b => length (band_arr b) = 2%nat) raster7_b64
  /\ let st := map (lin_stats (fun _ _ => PrimFloat.nan) 7
                      (map of_Z (take 7 (since_of 1990 2010))))
                   (slices (map (fun b => fst (read_band 0 b)) raster7_b64)) in
     length st = 2%nat
     /\ exists out_ds,
          RasterLinModel (fun _ _ => PrimFloat.nan) raster7_b64 1990 2010
            = Some out_ds
          /\ map Array out_ds
             = [map cov st; map cor st; map slope st; map intercept st;
                map tstats st; map stderr st; map pval st].
Proof.
  assert (H1 : raster7_b64 <> []) by discriminate.
  assert (H2 : (length raster7_b64 <= length (since_of 1990 2010))%nat)
    by (vm_compute; lia).
  assert (H3 : Forall (fun b => length (band_arr b) = 2%nat) raster7_b64)
    by (repeat constructor).
  split; [exact b64_eqb_nan|]. split; [exact H1|]. split; [exact H2|].
  split; [exact H3|].
  exact (RasterLinModel_per_pixel (fun _ _ => PrimFloat.nan) raster7_b64
           1990 2010 2 b64_eqb_nan H1 H2 H3).
Defined.

(** ** A change of origin, in exact arithmetic *)

Section ShapeMore.
Context {F : Type} `{Float64 F}.
Variable t_sf : F -> Z -> F.
Variables (n : nat) (time_px band_px : list F).

Let st : TrendStats := lin_stats t_sf n time_px band_px.

Lemma cor_eq :
  cor st = fdiv (cov st) (fmul (nanstd time_px) (nanstd band_px)).
Proof. reflexivity. Qed.

Lemma slope_eq :
  slope st = fdiv (cov st) (fmul (nanstd time_px) (nanstd time_px)).
Proof. reflexivity. Qed.

Lemma intercept_eq :
  intercept st = fsub (nanmean band_px) (fmul (nanmean time_px) (slope st)).
Proof. reflexivity. Qed.

End ShapeMore.


Lemma shift_line (d : R) (ts : list R) : shift d ts = line d 1 ts.
Proof. apply map_ext. intros t. ring. Qed.

Lemma Rmean_shift (d : R) (ts : list R) :
  ts <> [] -> Rmean (shift d ts) = (Rmean ts + d)%R.
Proof. intros Hts. rewrite shift_line, Rmean_line by assumption. ring. Qed.

Lemma Rvar_shift (d : R) (ts : list R) :
  ts <> [] -> Rvar (shift d ts) = Rvar ts.
Proof. intros Hts. rewrite shift_line, Rvar_line by assumption. ring. Qed.

Lemma Rcross_shift (d xm ym : R) (ts : list R) (o : list (option R)) :
  Rcross (xm + d) ym (shift d ts) o = Rcross xm ym ts o.
Proof.
  unfold Rcross, shift. revert o.
  induction ts as [|t ts IH]; intros [|[v|] o]; simpl; try reflexivity.
  - rewrite IH. ring.
  - rewrite IH. ring.
Qed.

Lemma shift_nonempty (d : R) (ts : list R) : ts <> [] -> shift d ts <> [].
Proof. destruct ts; [congruence | discriminate]. Qed.

Lemma slope_finite (t_sf : xreal -> Z -> xreal) (ts : list R)
  (o : list (option R)) (n : nat) :
  (0 < Rvar ts)%R -> n <> 0%nat ->
  exists C, cov (lin_stats t_sf n (fin ts) (map lift o)) = XFin C
    /\ slope (lin_stats t_sf n (fin ts) (map lift o)) = XFin (C / Rvar ts).
Proof.
  intros Hvar Hn. pose proof (Rvar_pos_nonempty ts Hvar) as Hts.
  assert (exists C, cov (lin_stats t_sf n (fin ts) (map lift o)) = XFin C)
    as [C HC].
  { destruct (vals o) eqn:Hv.
    - exists 0%R. exact (cov_no_valid t_sf ts o n Hts Hn Hv).
    - eexists. apply (cov_exact t_sf ts o n Hts Hn). congruence. }
  exists C. split; [exact HC|].
  rewrite (slope_exact t_sf ts o n Hts), HC. apply xdiv_fin. lra.
Qed.

(** X8.  Counting the years from another origin, in exact arithmetic:
    shifting every offset by [d] leaves the covariance, correlation, slope,
    t-statistic, standard error and p-value as they are and moves the
    intercept by [- d * slope].  So the offsets 1, 4, 7, ... of
    RasterLinModel and the offsets 0, 1, 2, ... of the zonal script differ
    in the intercept alone, for the same spacing. *)
Theorem time_shift (t_sf : xreal -> Z -> xreal) (ts : list R)
  (o : list (option R)) (d t1 t2 : R) :
  let st := lin_stats t_sf (length o) (fin ts) (map lift o) in
  let st' := lin_stats t_sf (length o) (fin (shift d ts)) (map lift o) in
  In t1 ts -> In t2 ts -> t1 <> t2 -> o <> [] ->
  cov st' = cov st /\ cor st' = cor st /\ slope st' = slope st
  /\ tstats st' = tstats st /\ stderr st' = stderr st /\ pval st' = pval st
  /\ exists b, slope st = XFin b
       /\ intercept st' = xsub (intercept st) (XFin (d * b)).
Proof.
  intros st st' H1 H2 Hne Ho.
  pose proof (Rvar_pos ts t1 t2 H1 H2 Hne) as Hvar.
  pose proof (Rvar_pos_nonempty ts Hvar) as Hts.
  pose proof (shift_nonempty d ts Hts) as Hts'.
  assert (Hn : length o <> 0%nat) by (destruct o; [congruence | discriminate]).
  assert (Hstd : nanstd (fin (shift d ts)) = nanstd (fin ts)).
  { rewrite !xstd_exact, Rvar_shift by assumption. reflexivity. }
  assert (Hcov : cov st' = cov st).
  { unfold st, st'. destruct (vals o) eqn:Hv.
    - rewrite !cov_no_valid by assumption. reflexivity.
    - rewrite !cov_exact by (assumption || congruence).
      rewrite Rmean_shift, Rcross_shift by assumption. reflexivity. }
  assert (Hcor : cor st' = cor st).
  { unfold st, st' in *. rewrite !cor_eq, Hcov, Hstd. reflexivity. }
  assert (Hslope : slope st' = slope st).
  { unfold st, st' in *. rewrite !slope_eq, Hcov, Hstd. reflexivity. }
  assert (Ht : tstats st' = tstats st).
  { unfold st, st' in *. rewrite !tstats_eq, Hcor. reflexivity. }
  repeat (split; [assumption|]).
  split; [unfold st, st' in *; rewrite !stderr_eq, Hslope, Ht; reflexivity|].
  split; [unfold st, st' in *; rewrite !pval_eq, Ht; reflexivity|].
  destruct (slope_finite t_sf ts o (length o) Hvar Hn) as (C & _ & Hb).
  exists (C / Rvar ts)%R. split; [exact Hb|].
  unfold st, st' in *. rewrite !intercept_eq, Hslope, Hb.
  rewrite !xmean_exact, Rmean_shift by assumption.
  destruct (nanmean (map lift o)) as [| s | y]; try reflexivity.
  cbn. f_equal. ring.
Qed.


Lemma time_shift_witness :
  let o := [Some 5%R; None; Some 4%R; Some 3%R; None; Some 0%R; Some 0%R] in
  let st := lin_stats sf_ends (length o) (fin offsets7) (map lift o) in
  let st' :=
    lin_stats sf_ends (length o) (fin (shift (-1) offsets7)) (map lift o) in
  (In 1%R offsets7 /\ In 4%R offsets7 /\ 1%R <> 4%R /\ o <> [])
  /\ cov st' = cov st /\ cor st' = cor st /\ slope st' = slope st
  /\ tstats st' = tstats st /\ stderr st' = stderr st /\ pval st' = pval st
  /\ exists b, slope st = XFin b
       /\ intercept st' = xsub (intercept st) (XFin (-1 * b)).
Proof.
  intros o st st'.
  assert (H1 : In 1%R offsets7) by (simpl; tauto).
  assert (H2 : In 4%R offsets7) by (simpl; tauto).
  assert (H3 : 1%R <> 4%R) by lra.
  assert (H4 : o <> []) by discriminate.
  split; [repeat split; assumption|].
  exact (time_shift sf_ends offsets7 o (-1) 1 4 H1 H2 H3 H4).
Defined.

(** ** Indexing, and the medians of CollectCensusTractStats3.py *)

Lemma py_index_nonneg {A : Type} (a : list A) (k : nat) :
  py_index a (Z.of_nat k) = a !! k.
Proof.
  unfold py_index. destruct (Z.leb_spec 0 (Z.of_nat k)); [|lia].
  now rewrite Nat2Z.id.
Qed.

(** [a[i]] is defined exactly for [-len(a) <= i < len(a)]. *)
Lemma py_index_None {A : Type} (a : list A) (i : Z) :
  py_index a i = None
  <-> (i < - Z.of_nat (length a) \/ Z.of_nat (length a) <= i)%Z.
Proof.
  unfold py_index. destruct (Z.leb_spec 0 i) as [Hi|Hi].
  - rewrite lookup_ge_None. lia.
  - destruct (Z.leb_spec (- Z.of_nat (length a)) i) as [Hj|Hj].
    + rewrite lookup_ge_None. lia.
    + split; [lia | reflexivity].
Qed.

Section Layers.
Context {F G : Type}.
Implicit Types (feat : Feature F G) (layer : list (Feature F G)).

Lemma existsb_zone layer (tract_id : string) :
  existsb (fun feat => String.eqb (zone_key feat) tract_id) layer = true
  <-> In tract_id (map zone_key layer).
Proof.
  rewrite existsb_exists, in_map_iff. split.
  - intros (feat & Hin & E). apply String.eqb_eq in E. eauto.
  - intros (feat & E & Hin). exists feat. split; [exact Hin|].
    now apply String.eqb_eq.
Qed.

Lemma for_feat_in_fixed (tract_id : string) body layer :
  (forall feat, In feat layer -> zone_key feat = tract_id -> body feat = feat)
  -> for_feat_in tract_id body layer = layer.
Proof.
  intros Hfix. induction layer as [|feat layer IH]; [reflexivity|].
  cbn [for_feat_in map]. f_equal.
  - destruct (String.eqb_spec (zone_key feat) tract_id) as [E|E];
      [|reflexivity].
    apply Hfix; [left; reflexivity | exact E].
  - apply IH. intros feat' Hin. apply Hfix. right. exact Hin.
Qed.

Lemma for_feat_in_fixed_inv (tract_id : string) body layer feat :
  for_feat_in tract_id body layer = layer ->
  In feat layer -> zone_key feat = tract_id -> body feat = feat.
Proof.
  intros Heq Hin Hid. induction layer as [|feat' layer IH]; [destruct Hin|].
  cbn [for_feat_in map] in Heq. injection Heq as Hhd Htl.
  destruct Hin as [->|Hin].
  - rewrite Hid, String.eqb_refl in Hhd. exact Hhd.
  - apply IH; assumption.
Qed.

Lemma for_feat_in_no_zone (tract_id : string) body layer :
  ~ In tract_id (map zone_key layer) ->
  for_feat_in tract_id body layer = layer.
Proof.
  intros Hno. apply for_feat_in_fixed. intros feat Hin Hid.
  exfalso. apply Hno. rewrite <- Hid. now apply in_map.
Qed.

Lemma zone_key_for_feat_in (tract_id : string) body layer :
  (forall feat, zone_key (body feat) = zone_key feat) ->
  map zone_key (for_feat_in tract_id body layer) = map zone_key layer.
Proof.
  intros Hkey. unfold for_feat_in. rewrite map_map. apply map_ext.
  intros feat. destruct (String.eqb (zone_key feat) tract_id);
    [apply Hkey | reflexivity].
Qed.

(** The passes over two different zones commute. *)
Lemma for_feat_in_comm (id1 id2 : string) body1 body2 layer :
  id1 <> id2 ->
  (forall feat, zone_key (body1 feat) = zone_key feat) ->
  (forall feat, zone_key (body2 feat) = zone_key feat) ->
  for_feat_in id1 body1 (for_feat_in id2 body2 layer)
  = for_feat_in id2 body2 (for_feat_in id1 body1 layer).
Proof.
  intros Hne Hk1 Hk2. unfold for_feat_in. rewrite !map_map. apply map_ext.
  intros feat. cbv beta.
  destruct (String.eqb (zone_key feat) id1) eqn:E1;
    destruct (String.eqb (zone_key feat) id2) eqn:E2;
    rewrite ?Hk1, ?Hk2, ?E1, ?E2; try reflexivity.
  apply String.eqb_eq in E1, E2. congruence.
Qed.

Lemma SetFields_app (values1 values2 : list (string * F)) feat :
  SetFields (values1 ++ values2) feat
  = SetFields values2 (SetFields values1 feat).
Proof. unfold SetFields. apply fold_left_app. Qed.

Lemma written_In (values : list (string * F)) (name : string) :
  written values name <> None -> In name (map fst values).
Proof.
  induction values as [|[name' value] values IH]; [intros E; now destruct E|].
  cbn [written map fst]. destruct (written values name) as [w|].
  - intros _. right. apply IH. discriminate.
  - destruct (String.eqb_spec name' name) as [->|]; [|intros E; now destruct E].
    intros _. left. reflexivity.
Qed.

Lemma Forall2_for_feat_in (R : Feature F G -> Feature F G -> Prop)
  (tract_id : string) body layer :
  (forall feat, zone_key feat <> tract_id -> R feat feat) ->
  (forall feat, zone_key feat = tract_id -> R feat (body feat)) ->
  Forall2 R layer (for_feat_in tract_id body layer).
Proof.
  intros Hrefl Hbody. induction layer as [|feat layer IH]; constructor.
  - destruct (String.eqb_spec (zone_key feat) tract_id) as [E|E];
      [apply Hbody, E | apply Hrefl, E].
  - exact IH.
Qed.

End Layers.

(** ** One zone of CollectCensusTractStats3.py (lines 129-224) *)

Section ZoneBody.
Context {F G : Type} `{Float64 F}.
Import CollectCensusTractStats3.
Variable t_sf : F -> Z -> F.
Variable nanmedian : list F -> F.
Variables ndvi_nodata lst_nodata : option F.
Variable band_idx : Z.
Implicit Types (feat : Feature F G) (layer : list (Feature F G)).

Let body := zone_body (G := G) t_sf nanmedian ndvi_nodata lst_nodata band_idx.

Lemma since_30 : since = map Z.of_nat (seq 0 30).
Proof. reflexivity. Qed.

Lemma medians_seq (in_mem : list (list F)) (a k : nat) :
  medians nanmedian in_mem (map Z.of_nat (seq a k))
  = if decide (k = 0 \/ a + k <= length in_mem)%nat
    then Some (map nanmedian (take k (drop a in_mem)))
    else None.
Proof.
  revert a. induction k as [|k IH]; intros a.
  - rewrite decide_True by auto. reflexivity.
  - cbn [seq map medians]. rewrite py_index_nonneg, IH.
    destruct (in_mem !! a) as [band|] eqn:Hband.
    + pose proof (lookup_lt_Some _ _ _ Hband) as Hlt.
      rewrite (drop_S _ _ _ Hband). cbn [take map].
      destruct (decide (k = 0 \/ S a + k <= length in_mem)%nat) as [Hd|Hd].
      * rewrite decide_True; [reflexivity|]. right.
        destruct Hd as [->|Hd]; lia.
      * rewrite decide_False by lia. reflexivity.
    + apply lookup_ge_None in Hband.
      rewrite decide_False by lia. reflexivity.
Qed.

(** Lines 158-168 read the first 30 bands of the clipped raster and no
    other; with fewer than 30 bands, [in_mem[year,:,:]] raises. *)
Lemma medians_since (in_mem : list (list F)) :
  medians nanmedian in_mem since
  = if decide (30 <= length in_mem)%nat
    then Some (map nanmedian (take 30 in_mem))
    else None.
Proof.
  rewrite since_30, medians_seq. rewrite drop_0.
  destruct (decide (30 <= length in_mem)%nat).
  - rewrite decide_True by (right; lia). reflexivity.
  - rewrite decide_False by lia. reflexivity.
Qed.

Lemma medians_nodata_to_nan (in_mem : list (list F)) (nodata : option F) :
  medians nanmedian (nodata_to_nan in_mem nodata) since
  = if decide (30 <= length in_mem)%nat
    then Some (map nanmedian (take 30 (nodata_to_nan in_mem nodata)))
    else None.
Proof.
  rewrite medians_since.
  assert (length (nodata_to_nan in_mem nodata) = length in_mem) as ->
    by apply length_map.
  reflexivity.
Qed.

Lemma length_band_data (in_mem : list (list F)) (nodata : option F) :
  (30 <= length in_mem)%nat ->
  length (map nanmedian (take 30 (nodata_to_nan in_mem nodata))) = 30%nat.
Proof.
  intros Hlen. rewrite length_map, length_take.
  assert (length (nodata_to_nan in_mem nodata) = length in_mem) as ->
    by apply length_map.
  lia.
Qed.

Lemma zone_pass (tract_id : string) (st1 st2 : TrendStats) (m1 m2 : F)
  (in_mem_gsc : list (list F)) layer :
  write_areas tract_id in_mem_gsc
    (write_trend tract_id "LST" st2 m2
       (write_trend tract_id "NDVI" st1 m1 layer))
  = for_feat_in tract_id (SetFields (zone_values st1 m1 st2 m2 in_mem_gsc))
      layer.
Proof.
  rewrite write_areas_eq. unfold write_trend.
  rewrite !for_feat_in_compose
    by (intros; rewrite ?zone_key_SetFields; reflexivity).
  unfold for_feat_in. apply map_ext. intros feat.
  destruct (String.eqb (zone_key feat) tract_id); [|reflexivity].
  unfold zone_values. rewrite !SetFields_app. reflexivity.
Qed.

(** The three ways a zone can go: a raster with fewer than 30 bands raises
    before anything is written; a [band_idx] outside the 30 medians raises at
    the first feature of the zone; otherwise the zone's features receive the
    19 values in one pass. *)
Lemma zone_body_cases (tract_id : string)
  (in_mem_ndvi in_mem_lst in_mem_gsc : list (list F)) :
  let ndvi_band_data :=
    map nanmedian (take 30 (nodata_to_nan in_mem_ndvi ndvi_nodata)) in
  let lst_band_data :=
    map nanmedian (take 30 (nodata_to_nan in_mem_lst lst_nodata)) in
  (((length in_mem_ndvi < 30)%nat \/ (length in_mem_lst < 30)%nat)
   /\ forall layer,
        body tract_id in_mem_ndvi in_mem_lst in_mem_gsc layer = Raised layer)
  \/ ((30 <= length in_mem_ndvi)%nat /\ (30 <= length in_mem_lst)%nat
      /\ (band_idx < -30 \/ 30 <= band_idx)%Z
      /\ forall layer,
           body tract_id in_mem_ndvi in_mem_lst in_mem_gsc layer
           = if existsb (fun feat => String.eqb (zone_key feat) tract_id)
                        layer
             then Raised layer else Done layer)
  \/ ((30 <= length in_mem_ndvi)%nat /\ (30 <= length in_mem_lst)%nat
      /\ (-30 <= band_idx < 30)%Z
      /\ exists med_ndvi med_lst,
           py_index ndvi_band_data band_idx = Some med_ndvi
           /\ py_index lst_band_data band_idx = Some med_lst
           /\ forall layer,
                body tract_id in_mem_ndvi in_mem_lst in_mem_gsc layer
                = Done (for_feat_in tract_id
                          (SetFields
                             (zone_values
                                (lin_stats t_sf n time_data ndvi_band_data)
                                med_ndvi
                                (lin_stats t_sf n time_data lst_band_data)
                                med_lst in_mem_gsc))
                          layer)).
Proof.
  intros nbd lbd. unfold body, zone_body.
  rewrite !medians_nodata_to_nan. fold nbd lbd.
  destruct (decide (30 <= length in_mem_ndvi)%nat) as [Hn|Hn];
    [|left; split; [left; lia | reflexivity]].
  destruct (decide (30 <= length in_mem_lst)%nat) as [Hl|Hl];
    [|left; split; [right; lia | reflexivity]].
  right.
  pose proof (length_band_data in_mem_ndvi ndvi_nodata Hn) as Hnl.
  pose proof (length_band_data in_mem_lst lst_nodata Hl) as Hll.
  fold nbd in Hnl. fold lbd in Hll.
  unfold trend_of_raster.
  destruct (py_index nbd band_idx) as [mn|] eqn:En.
  - destruct (py_index lbd band_idx) as [ml|] eqn:El.
    + right. repeat (split; [assumption|]). split.
      * destruct (Z_lt_le_dec band_idx (-30)) as [Hlo|Hlo].
        { assert (py_index nbd band_idx = None)
            by (apply py_index_None; lia). congruence. }
        destruct (Z_lt_le_dec band_idx 30) as [Hhi|Hhi]; [lia|].
        assert (py_index nbd band_idx = None)
          by (apply py_index_None; lia). congruence.
      * exists mn, ml. repeat (split; [reflexivity|]).
        intros layer. rewrite zone_pass. reflexivity.
    + apply py_index_None in El.
      assert (py_index nbd band_idx = None)
        by (apply py_index_None; lia). congruence.
  - left. repeat (split; [assumption|]). apply py_index_None in En.
    split; [lia|]. intros layer.
    destruct (existsb (fun feat => String.eqb (zone_key feat) tract_id)
                      layer) eqn:Ex; [reflexivity|].
    assert (py_index lbd band_idx = None) as ->
      by (apply py_index_None; lia).
    rewrite Ex. f_equal. rewrite write_areas_eq.
    apply for_feat_in_no_zone. rewrite <- existsb_zone, Ex. discriminate.
Qed.

End ZoneBody.

Lemma Forall2_chain {A : Type} (R S T : A -> A -> Prop) (l k m : list A) :
  (forall x y z, R x y -> S y z -> T x z) ->
  Forall2 R l k -> Forall2 S k m -> Forall2 T l m.
Proof.
  intros Hchain Hlk. revert m.
  induction Hlk as [|x y l k Hxy Hlk IH]; intros m Hkm;
    inversion Hkm; subst; constructor; eauto.
Qed.

Lemma Forall2_diag {A : Type} (R : A -> A -> Prop) (l : list A) :
  (forall x, R x x) -> Forall2 R l l.
Proof. intros Hrefl. induction l; constructor; auto. Qed.

Lemma Forall2_impl_In {A : Type} (R S : A -> A -> Prop) (l k : list A) :
  (forall x y, In x l -> R x y -> S x y) -> Forall2 R l k -> Forall2 S l k.
Proof.
  intros Himpl Hlk. induction Hlk as [|x y l k Hxy Hlk IH]; constructor.
  - apply Himpl; [left; reflexivity | exact Hxy].
  - apply IH. intros x' y' Hin. apply Himpl. right. exact Hin.
Qed.

Lemma Forall2_both {A : Type} (R S : A -> A -> Prop) (l k : list A) :
  Forall2 R l k -> Forall2 S l k -> Forall2 (fun x y => R x y /\ S x y) l k.
Proof.
  intros HR. induction HR as [|x y l k Hxy HR IH]; intros HS;
    inversion HS; subst; constructor; auto.
Qed.

Lemma Forall2_zone_key {F G : Type} (R : Feature F G -> Feature F G -> Prop)
  (l k : list (Feature F G)) :
  (forall x y, R x y -> zone_key y = zone_key x) ->
  Forall2 R l k -> map zone_key k = map zone_key l.
Proof.
  intros Hkey Hlk. induction Hlk as [|x y l k Hxy Hlk IH]; [reflexivity|].
  cbn [map]. f_equal; [apply Hkey, Hxy | exact IH].
Qed.

Section FirstOccurrences.

Lemma existsb_eqb_In (tract_id : string) (seen : list string) :
  existsb (String.eqb tract_id) seen = true <-> In tract_id seen.
Proof.
  rewrite existsb_exists. split.
  - intros (x & Hin & E). apply String.eqb_eq in E. now subst.
  - intros Hin. exists tract_id. split; [exact Hin | apply String.eqb_refl].
Qed.

Lemma In_first_occurrences_from (seen tract_ids : list string) (x : string) :
  In x (first_occurrences_from seen tract_ids)
  <-> In x tract_ids /\ ~ In x seen.
Proof.
  revert seen. induction tract_ids as [|tract_id later IH]; intros seen.
  - simpl. tauto.
  - cbn [first_occurrences_from].
    destruct (existsb (String.eqb tract_id) seen) eqn:E.
    + apply existsb_eqb_In in E. rewrite IH. simpl. split.
      * tauto.
      * intros [[->|Hin] Hno]; tauto.
    + assert (~ In tract_id seen) as Hno
        by (rewrite <- existsb_eqb_In, E; discriminate).
      simpl. rewrite IH. simpl.
      destruct (string_dec tract_id x) as [->|Hne]; tauto.
Qed.

Lemma NoDup_first_occurrences_from (seen tract_ids : list string) :
  List.NoDup (first_occurrences_from seen tract_ids).
Proof.
  revert seen. induction tract_ids as [|tract_id later IH]; intros seen.
  - constructor.
  - cbn [first_occurrences_from].
    destruct (existsb (String.eqb tract_id) seen); [apply IH|].
    constructor; [|apply IH].
    rewrite In_first_occurrences_from. simpl. tauto.
Qed.

End FirstOccurrences.

Section ZoneValues.
Context {F G : Type} `{Float64 F}.
Import CollectCensusTractStats3.
Variables (st1 st2 : @TrendStats F) (m1 m2 : F) (in_mem_gsc : list (list F)).

Let values := zone_values st1 m1 st2 m2 in_mem_gsc.


(** The fields written for a zone are the fields created at lines
    100-112. *)
Lemma zone_values_created (name : string) :
  In name created_fields <-> written values name <> None.
Proof.
  split.
  - intros Hin.
    repeat (destruct Hin as [<-|Hin]; [discriminate|]). destruct Hin.
  - intros Hw. apply written_In in Hw. revert name Hw.
    change (incl (map fst values) created_fields).
    intros name Hname. simpl in Hname.
    repeat (destruct Hname as [<-|Hname]; [vm_compute; tauto|]).
    destruct Hname.
Qed.


End ZoneValues.

(** ** Turns of a zone loop *)

Section Turns.
Context {F G : Type}.
Variable Q : string -> Feature F G -> Prop.
Implicit Types (feat : Feature F G) (layer : list (Feature F G)).

Lemma zone_turns_nil feat : zone_turns Q [] feat feat.
Proof. split; [reflexivity|]. split; [tauto | intros []]. Qed.

Lemma zone_turns_cons (id : string) (ids : list string) feat1 feat2 feat3 :
  zone_turn Q id feat1 feat2 -> zone_turns Q ids feat2 feat3 ->
  zone_turns Q (id :: ids) feat1 feat3.
Proof.
  intros (Hk1 & Hq1 & Hu1) (Hk2 & Hq2 & Hf2).
  assert (Hkeep : Q (zone_key feat1) feat1 -> Q (zone_key feat1) feat3).
  { intros HQ. rewrite <- Hk1. apply Hq2. rewrite Hk1.
    destruct (string_dec (zone_key feat1) id) as [E|E].
    - rewrite E. apply Hq1, E.
    - rewrite (Hu1 E). exact HQ. }
  split; [congruence|]. split; [exact Hkeep|].
  intros [E|Hin].
  - rewrite <- Hk1. apply Hq2. rewrite Hk1, <- E. apply Hq1. symmetry. exact E.
  - rewrite <- Hk1. apply Hf2. rewrite Hk1. exact Hin.
Qed.

(** A turn for a zone without feature leaves the layer as it is. *)
Lemma zone_turn_no_zone (id : string) layer :
  ~ In id (map zone_key layer) -> Forall2 (zone_turn Q id) layer layer.
Proof.
  intros Hno. apply Forall2_impl_In with (R := eq);
    [|apply Forall2_diag; reflexivity].
  intros feat feat' Hin <-. split; [reflexivity|]. split; [|reflexivity].
  intros E. exfalso. apply Hno. rewrite <- E. now apply in_map.
Qed.

Lemma zone_turn_for_feat_in (id : string) body layer :
  (forall feat, zone_key (body feat) = zone_key feat) ->
  (forall feat, zone_key feat = id -> Q id (body feat)) ->
  Forall2 (zone_turn Q id) layer (for_feat_in id body layer).
Proof.
  intros Hkey Hbody. apply Forall2_for_feat_in.
  - intros feat Hne. split; [reflexivity|]. split; [contradiction | reflexivity].
  - intros feat Hid. split; [apply Hkey|]. split; [intros _; apply Hbody, Hid|].
    contradiction.
Qed.

End Turns.

(** ** The zone loop, zone by zone *)

Section ZoneSteps.
Context {F G : Type} `{Float64 F}.
Import CollectCensusTractStats3.
Variable t_sf : F -> Z -> F.
Variable Source : Type.
Variables ndvi_src lst_src gsc_src : Source.
Variable mask : Source -> list G -> option (list (list F)).
Variable nanmedian : list F -> F.
Variables ndvi_nodata lst_nodata : option F.
Variable band_idx : Z.
Variable gdf : list (Feature F G).
Implicit Types (feat : Feature F G) (layer : list (Feature F G)).

Let loop := zone_loop t_sf Source ndvi_src lst_src gsc_src mask nanmedian
              ndvi_nodata lst_nodata band_idx gdf.
Let clip_of (tract_id : string) :=
  clip Source ndvi_src lst_src gsc_src mask
    (map geometry
       (List.filter (fun row => String.eqb (zone_key row) tract_id) gdf)).

(* one turn of the loop *)
Let step (tract_id : string) layer : outcome (list (Feature F G)) :=
  match clip_of tract_id with
  | None => Done layer
  | Some (in_mem_ndvi, in_mem_lst, in_mem_gsc) =>
      zone_body t_sf nanmedian ndvi_nodata lst_nodata band_idx tract_id
        in_mem_ndvi in_mem_lst in_mem_gsc layer
  end.

Lemma loop_cons (tract_id : string) (later : list string) layer :
  loop (tract_id :: later) layer
  = match step tract_id layer with
    | Raised layer => Raised layer
    | Done layer => loop later layer
    end.
Proof.
  unfold loop, step, clip_of. cbn [zone_loop].
  destruct (clip _ _ _ _ _ _) as [[[ndvi lst] gsc]|]; reflexivity.
Qed.

(** What a turn does depends on the layer only through the presence of a
    feature of the zone. *)
Lemma step_cases (tract_id : string) :
  (clip_of tract_id = None /\ forall layer, step tract_id layer = Done layer)
  \/ (clip_of tract_id <> None
      /\ forall layer, step tract_id layer = Raised layer)
  \/ (clip_of tract_id <> None
      /\ forall layer,
           step tract_id layer
           = if existsb (fun feat => String.eqb (zone_key feat) tract_id)
                        layer
             then Raised layer else Done layer)
  \/ (clip_of tract_id <> None
      /\ exists values : list (string * F),
           (forall name, In name created_fields
                         <-> written values name <> None)
           /\ forall layer,
                step tract_id layer
                = Done (for_feat_in tract_id (SetFields values) layer)).
Proof.
  unfold step. destruct (clip_of tract_id) as [[[ndvi lst] gsc]|];
    [|left; split; reflexivity].
  right.
  destruct (zone_body_cases (G := G) t_sf nanmedian ndvi_nodata lst_nodata
              band_idx tract_id ndvi lst gsc)
    as [[_ Hb]|[(_ & _ & _ & Hb)|(_ & _ & _ & mn & ml & _ & _ & Hb)]].
  - left. split; [discriminate | exact Hb].
  - right. left. split; [discriminate | exact Hb].
  - right. right. split; [discriminate|]. eexists. split; [|exact Hb].
    apply zone_values_created.
Qed.

Lemma step_same_or_pass (tract_id : string) layer :
  layer_of (step tract_id layer) = layer
  \/ exists values : list (string * F),
       (forall name, In name created_fields <-> written values name <> None)
       /\ step tract_id layer
          = Done (for_feat_in tract_id (SetFields values) layer).
Proof.
  destruct (step_cases tract_id)
    as [[_ Hs]|[[_ Hs]|[[_ Hs]|(_ & values & Hv & Hs)]]].
  - left. rewrite Hs. reflexivity.
  - left. rewrite Hs. reflexivity.
  - left. rewrite Hs. destruct (existsb _ _); reflexivity.
  - right. exists values. split; [exact Hv | apply Hs].
Qed.

(** *** What the loop never touches *)

Let frame (tract_ids : list string) feat feat' : Prop :=
  zone_key feat' = zone_key feat /\ geometry feat' = geometry feat
  /\ (forall name, ~ In name created_fields ->
                   fields feat' !! name = fields feat !! name)
  /\ (~ In (zone_key feat) tract_ids -> feat' = feat).

Lemma frame_refl tract_ids feat : frame tract_ids feat feat.
Proof. repeat split. Qed.

Lemma frame_chain (tract_id : string) (later : list string) feat1 feat2 feat3 :
  frame [tract_id] feat1 feat2 -> frame later feat2 feat3 ->
  frame (tract_id :: later) feat1 feat3.
Proof.
  intros (Hk1 & Hg1 & Hf1 & Hu1) (Hk2 & Hg2 & Hf2 & Hu2).
  split; [congruence|]. split; [congruence|]. split.
  - intros name Hname. rewrite Hf2, Hf1 by exact Hname. reflexivity.
  - intros Hno. simpl in Hno.
    rewrite Hu2 by (rewrite Hk1; tauto). apply Hu1. simpl. tauto.
Qed.

Lemma step_frame (tract_id : string) layer :
  Forall2 (frame [tract_id]) layer (layer_of (step tract_id layer)).
Proof.
  destruct (step_same_or_pass tract_id layer) as [->|(values & Hv & ->)].
  - apply Forall2_diag, frame_refl.
  - cbn [layer_of]. apply Forall2_for_feat_in; [intros; apply frame_refl|].
    intros feat Hid. split; [apply zone_key_SetFields|].
    split; [apply geometry_SetFields|]. split.
    + intros name Hname. rewrite fields_SetFields.
      destruct (written values name) eqn:Hw; [|reflexivity].
      exfalso. apply Hname, Hv. rewrite Hw. discriminate.
    + intros Hno. exfalso. apply Hno. left. symmetry. exact Hid.
Qed.

Lemma loop_frame (tract_ids : list string) layer :
  Forall2 (frame tract_ids) layer (layer_of (loop tract_ids layer)).
Proof.
  revert layer. induction tract_ids as [|tract_id later IH]; intros layer.
  - apply Forall2_diag, frame_refl.
  - rewrite loop_cons. pose proof (step_frame tract_id layer) as Hs.
    destruct (step tract_id layer) as [layer1|layer1]; cbn [layer_of] in *.
    + eapply Forall2_chain; [apply frame_chain | exact Hs | apply IH].
    + eapply Forall2_impl; [exact Hs|].
      intros feat feat' Hf. eapply frame_chain; [exact Hf | apply frame_refl].
Qed.

(** *** Zones listed more than once *)

Lemma step_keys (tract_id : string) layer :
  map zone_key (layer_of (step tract_id layer)) = map zone_key layer.
Proof.
  eapply Forall2_zone_key; [|apply step_frame].
  intros feat feat' Hf. apply Hf.
Qed.

(* the zone has been written: another turn changes nothing *)
Let settled (tract_id : string) layer : Prop :=
  step tract_id layer = Done layer.

Lemma settled_after (tract_id : string) layer layer' :
  step tract_id layer = Done layer' -> settled tract_id layer'.
Proof.
  unfold settled.
  destruct (step_cases tract_id)
    as [[_ Hs]|[[_ Hs]|[[_ Hs]|(_ & values & _ & Hs)]]]; rewrite !Hs.
  - congruence.
  - discriminate.
  - destruct (existsb _ layer) eqn:Ex; [discriminate|].
    intros [= <-]. rewrite Ex. reflexivity.
  - intros [= <-]. f_equal. apply for_feat_in_idem.
    + apply zone_key_SetFields.
    + apply SetFields_idem.
Qed.

Lemma settled_kept (id id' : string) layer layer' :
  settled id' layer -> step id layer = Done layer' -> settled id' layer'.
Proof.
  intros Hset Hstep. destruct (string_dec id id') as [<-|Hne];
    [eapply settled_after, Hstep|].
  pose proof (step_keys id layer) as Hkeys. rewrite Hstep in Hkeys.
  cbn [layer_of] in Hkeys.
  unfold settled in *.
  destruct (step_cases id')
    as [[_ Hs]|[[_ Hs]|[[_ Hs]|(_ & values' & _ & Hs)]]];
    rewrite Hs in *.
  - reflexivity.
  - discriminate.
  - destruct (existsb _ layer) eqn:Ex; [discriminate|].
    assert (existsb (fun feat => String.eqb (zone_key feat) id') layer'
            = false) as ->; [|reflexivity].
    apply not_true_is_false. rewrite existsb_zone, Hkeys, <- existsb_zone, Ex.
    discriminate.
  - injection Hset as Hset. f_equal.
    destruct (step_same_or_pass id layer) as [Hsame|(values & _ & Hpass)].
    + rewrite Hstep in Hsame. cbn [layer_of] in Hsame. subst layer'.
      exact Hset.
    + rewrite Hstep in Hpass. injection Hpass as ->.
      rewrite for_feat_in_comm;
        [|congruence | apply zone_key_SetFields | apply zone_key_SetFields].
      rewrite Hset. reflexivity.
Qed.

Lemma loop_first_occurrences_from (seen tract_ids : list string) layer :
  (forall tract_id, In tract_id seen -> settled tract_id layer) ->
  loop tract_ids layer = loop (first_occurrences_from seen tract_ids) layer.
Proof.
  revert seen layer. induction tract_ids as [|tract_id later IH];
    intros seen layer Hseen; [reflexivity|].
  cbn [first_occurrences_from].
  destruct (existsb (String.eqb tract_id) seen) eqn:E.
  - apply existsb_eqb_In in E. rewrite loop_cons, (Hseen tract_id E).
    apply IH, Hseen.
  - rewrite !loop_cons.
    destruct (step tract_id layer) as [layer1|layer1] eqn:Hstep;
      [|reflexivity].
    apply IH. intros id [<-|Hin].
    + eapply settled_after, Hstep.
    + eapply settled_kept; [apply Hseen, Hin | exact Hstep].
Qed.

(** *** A batch that completes *)

Let complete feat : Prop :=
  forall name, In name created_fields -> fields feat !! name <> None.

Let filled (tract_ids : list string) feat feat' : Prop :=
  zone_key feat' = zone_key feat
  /\ (complete feat -> complete feat')
  /\ (In (zone_key feat) tract_ids -> clip_of (zone_key feat) <> None ->
      complete feat').

Lemma filled_refl feat : filled [] feat feat.
Proof. split; [reflexivity|]. split; [tauto|]. intros []. Qed.

Lemma filled_chain (tract_id : string) (later : list string) feat1 feat2 feat3 :
  filled [tract_id] feat1 feat2 -> filled later feat2 feat3 ->
  filled (tract_id :: later) feat1 feat3.
Proof.
  intros (Hk1 & Hc1 & Hf1) (Hk2 & Hc2 & Hf2).
  split; [congruence|]. split; [tauto|].
  intros [E|Hin] Hclip.
  - apply Hc2, Hf1; [left; exact E | exact Hclip].
  - apply Hf2; rewrite Hk1; assumption.
Qed.

Lemma step_filled (tract_id : string) layer layer' :
  step tract_id layer = Done layer' ->
  Forall2 (filled [tract_id]) layer layer'.
Proof.
  destruct (step_cases tract_id)
    as [[Hc Hs]|[[_ Hs]|[[_ Hs]|(_ & values & Hv & Hs)]]]; rewrite Hs.
  - intros [= <-]. apply Forall2_diag. intros feat.
    split; [reflexivity|]. split; [tauto|].
    intros [<-|[]] Hclip. contradiction.
  - discriminate.
  - destruct (existsb _ layer) eqn:Ex; [discriminate|]. intros [= <-].
    assert (Hno : ~ In tract_id (map zone_key layer))
      by (rewrite <- existsb_zone, Ex; discriminate).
    apply Forall2_impl_In with (R := eq); [|apply Forall2_diag; reflexivity].
    intros feat feat' Hin <-.
    split; [reflexivity|]. split; [tauto|].
    intros [E|[]]. exfalso. apply Hno. rewrite E. now apply in_map.
  - intros [= <-]. induction layer as [|feat layer IH]; constructor;
      [|exact IH].
    destruct (String.eqb_spec (zone_key feat) tract_id) as [E|E].
    + assert (Hall : complete (SetFields values feat)).
      { intros name Hname. rewrite fields_SetFields.
        apply Hv in Hname. destruct (written values name);
          [discriminate | contradiction]. }
      split; [apply zone_key_SetFields|]. split; intros; exact Hall.
    + split; [reflexivity|]. split; [tauto|].
      intros [E'|[]]. congruence.
Qed.

Lemma loop_filled (tract_ids : list string) layer layer' :
  loop tract_ids layer = Done layer' ->
  Forall2 (filled tract_ids) layer layer'.
Proof.
  revert layer. induction tract_ids as [|tract_id later IH]; intros layer.
  - intros [= <-]. apply Forall2_diag, filled_refl.
  - rewrite loop_cons.
    destruct (step tract_id layer) as [layer1|layer1] eqn:Hstep;
      [|discriminate].
    intros Hloop. eapply Forall2_chain;
      [apply filled_chain | apply step_filled, Hstep | apply IH, Hloop].
Qed.

(** *** The zones that are skipped *)

Let skipped feat feat' : Prop :=
  zone_key feat' = zone_key feat
  /\ (clip_of (zone_key feat) = None -> feat' = feat).

Lemma step_skipped (tract_id : string) layer :
  Forall2 skipped layer (layer_of (step tract_id layer)).
Proof.
  destruct (step_cases tract_id)
    as [[_ Hs]|[[_ Hs]|[[_ Hs]|(Hc & values & _ & Hs)]]]; rewrite Hs;
    try (destruct (existsb _ layer)); cbn [layer_of];
    try (apply Forall2_diag; intros feat; split; reflexivity).
  apply Forall2_for_feat_in.
  - intros feat _. split; reflexivity.
  - intros feat Hid. split; [apply zone_key_SetFields|].
    rewrite Hid. intros Hnone. contradiction.
Qed.

Lemma loop_skipped (tract_ids : list string) layer :
  Forall2 skipped layer (layer_of (loop tract_ids layer)).
Proof.
  revert layer. induction tract_ids as [|tract_id later IH]; intros layer.
  - apply Forall2_diag. intros feat. split; reflexivity.
  - rewrite loop_cons. pose proof (step_skipped tract_id layer) as Hs.
    destruct (step tract_id layer) as [layer1|layer1]; cbn [layer_of] in *;
      [|exact Hs].
    eapply Forall2_chain; [|exact Hs | apply IH].
    intros feat1 feat2 feat3 (Hk1 & Hu1) (Hk2 & Hu2).
    split; [congruence|]. intros Hnone.
    rewrite Hu2 by (rewrite Hk1; exact Hnone). apply Hu1, Hnone.
Qed.

(** *** The class areas of a batch that completes *)

Let areas (tract_id : string) feat : Prop :=
  forall in_mem_ndvi in_mem_lst in_mem_gsc : list (list F),
    clip_of tract_id = Some (in_mem_ndvi, in_mem_lst, in_mem_gsc) ->
    class_areas (of_Z (class_area in_mem_gsc 1))
                (of_Z (class_area in_mem_gsc 2))
                (of_Z (class_area in_mem_gsc 3)) feat.

Lemma step_areas (tract_id : string) layer layer' :
  step tract_id layer = Done layer' ->
  Forall2 (zone_turn areas tract_id) layer layer'.
Proof.
  unfold step.
  destruct (clip_of tract_id) as [[[ndvi lst] gsc]|] eqn:Hclip.
  - destruct (zone_body_cases (G := G) t_sf nanmedian ndvi_nodata lst_nodata
                band_idx tract_id ndvi lst gsc)
      as [[_ Hb]|[(_ & _ & _ & Hb)|(_ & _ & _ & mn & ml & _ & _ & Hb)]];
      rewrite Hb.
    + discriminate.
    + destruct (existsb _ layer) eqn:Ex; [discriminate|]. intros [= <-].
      apply zone_turn_no_zone. rewrite <- existsb_zone, Ex. discriminate.
    + intros [= <-]. apply zone_turn_for_feat_in.
      * intros feat. apply zone_key_SetFields.
      * intros feat _ n l g Hg. unfold areas in *.
        rewrite Hclip in Hg. injection Hg as _ _ <-.
        unfold class_areas. rewrite !fields_SetFields.
        repeat split; reflexivity.
  - intros [= <-]. apply Forall2_diag. intros feat.
    split; [reflexivity|]. split; [|reflexivity].
    intros _ n l g Hg. rewrite Hclip in Hg. discriminate.
Qed.

Lemma loop_areas (tract_ids : list string) layer layer' :
  loop tract_ids layer = Done layer' ->
  Forall2 (zone_turns areas tract_ids) layer layer'.
Proof.
  revert layer. induction tract_ids as [|tract_id later IH]; intros layer.
  - intros [= <-]. apply Forall2_diag, zone_turns_nil.
  - rewrite loop_cons.
    destruct (step tract_id layer) as [layer1|layer1] eqn:Hstep;
      [|discriminate].
    intros Hloop. eapply Forall2_chain;
      [apply zone_turns_cons | apply step_areas, Hstep | apply IH, Hloop].
Qed.

End ZoneSteps.

(** X11.  When one zone of CollectCensusTractStats3.py raises after its
    three clips succeeded, nothing of that zone has been written: the layer
    is the one the zone started from.  And it raises in exactly two
    situations: one of the two time-series clips has fewer than 30 bands
    ([in_mem[year,:,:]] for the years 0..29), or [band_idx] is outside
    [-30, 30) while the layer holds a feature of the zone
    ([band_data[0,0,band_idx]] is evaluated inside the feature loop). *)
Theorem zone_body_raises {F G : Type} `{Float64 F}
  (t_sf : F -> Z -> F) (nanmedian : list F -> F)
  (ndvi_nodata lst_nodata : option F) (band_idx : Z) (tract_id : string)
  (in_mem_ndvi in_mem_lst in_mem_gsc : list (list F))
  (layer layer' : list (Feature F G)) :
  CollectCensusTractStats3.zone_body t_sf nanmedian ndvi_nodata lst_nodata
    band_idx tract_id in_mem_ndvi in_mem_lst in_mem_gsc layer = Raised layer'
  <-> layer' = layer
      /\ ((length in_mem_ndvi < 30)%nat \/ (length in_mem_lst < 30)%nat
          \/ ((band_idx < -30 \/ 30 <= band_idx)%Z
              /\ In tract_id (map zone_key layer))).
Proof.
  destruct (zone_body_cases (G := G) t_sf nanmedian ndvi_nodata lst_nodata
              band_idx tract_id in_mem_ndvi in_mem_lst in_mem_gsc)
    as [[Hlen Hb]|[(Hn & Hl & Hidx & Hb)
                  |(Hn & Hl & Hidx & mn & ml & _ & _ & Hb)]];
    rewrite Hb.
  - split.
    + intros [= <-]. split; [reflexivity | tauto].
    + intros [-> _]. reflexivity.
  - destruct (existsb _ layer) eqn:Ex.
    + split.
      * intros [= <-]. split; [reflexivity|]. right. right.
        split; [exact Hidx|]. now apply existsb_zone.
      * intros [-> _]. reflexivity.
    + split; [discriminate|]. intros [_ [Hlt|[Hlt|[_ Hin]]]]; try lia.
      apply existsb_zone in Hin. congruence.
  - split; [discriminate|]. intros [_ [Hlt|[Hlt|[Hout _]]]]; lia.
Qed.



(** X13.  Whatever the outcome of the zone loop of
    CollectCensusTractStats3.py, the layer it leaves has the features of the
    layer it started from, in the same order, each with its id and its
    geometry; no field outside the 19 fields created at lines 100-112 has
    changed; and a feature whose id is not in the list of zones is exactly
    as it was. *)
Theorem zone_loop_frame {F G : Type} `{Float64 F}
  (t_sf : F -> Z -> F) (Source : Type) (ndvi_src lst_src gsc_src : Source)
  (mask : Source -> list G -> option (list (list F)))
  (nanmedian : list F -> F) (ndvi_nodata lst_nodata : option F)
  (band_idx : Z)
  (gdf : list (Feature F G)) (tract_ids : list string)
  (layer : list (Feature F G)) :
  Forall2
    (fun feat feat' =>
       zone_key feat' = zone_key feat /\ geometry feat' = geometry feat
       /\ (forall name, ~ In name CollectCensusTractStats3.created_fields ->
                        fields feat' !! name = fields feat !! name)
       /\ (~ In (zone_key feat) tract_ids -> feat' = feat))
    layer
    (layer_of
       (CollectCensusTractStats3.zone_loop t_sf Source ndvi_src lst_src
          gsc_src mask nanmedian ndvi_nodata lst_nodata band_idx gdf
          tract_ids layer)).
Proof.
  exact (loop_frame t_sf Source ndvi_src lst_src gsc_src mask nanmedian
           ndvi_nodata lst_nodata band_idx gdf tract_ids layer).
Qed.

(** X14.  A zone id that occurs several times in the list of zones (the ids
    are read row by row from the shapefile, so a zone of several rows is
    listed once per row) is processed again at each occurrence, and the
    repetitions change nothing: the outcome of the loop is the outcome of
    the loop over the ids without their repetitions, in the order of their
    first occurrence. *)
Theorem zone_loop_first_occurrences {F G : Type} `{Float64 F}
  (t_sf : F -> Z -> F) (Source : Type) (ndvi_src lst_src gsc_src : Source)
  (mask : Source -> list G -> option (list (list F)))
  (nanmedian : list F -> F) (ndvi_nodata lst_nodata : option F)
  (band_idx : Z)
  (gdf : list (Feature F G)) (tract_ids : list string)
  (layer : list (Feature F G)) :
  let loop :=
    CollectCensusTractStats3.zone_loop t_sf Source ndvi_src lst_src gsc_src
      mask nanmedian ndvi_nodata lst_nodata band_idx in
  List.NoDup (first_occurrences tract_ids)
  /\ (forall tract_id,
        In tract_id (first_occurrences tract_ids) <-> In tract_id tract_ids)
  /\ loop gdf tract_ids layer = loop gdf (first_occurrences tract_ids) layer.
Proof.
  intros loop. split; [apply NoDup_first_occurrences_from|]. split.
  - intros tract_id. unfold first_occurrences.
    rewrite In_first_occurrences_from. simpl. tauto.
  - apply (loop_first_occurrences_from t_sf Source ndvi_src lst_src gsc_src
             mask nanmedian ndvi_nodata lst_nodata band_idx gdf []).
    intros tract_id [].
Qed.

(** X15.  When AddRasterStatistics of CollectCensusTractStats3.py runs to
    its end, every feature of a zone whose three clips succeeded has a value
    in each of the 19 fields created at lines 100-112; only the features of
    the skipped zones can be left with a null. *)
Theorem batch_fills_every_clipped_zone {F G : Type} `{Float64 F}
  (t_sf : F -> Z -> F) (Source : Type) (ndvi_src lst_src gsc_src : Source)
  (mask : Source -> list G -> option (list (list F)))
  (nanmedian : list F -> F) (ndvi_nodata lst_nodata : option F)
  (band_idx : Z)
  (shp layer' : list (Feature F G)) :
  CollectCensusTractStats3.AddRasterStatistics t_sf Source ndvi_src lst_src
    gsc_src mask nanmedian ndvi_nodata lst_nodata band_idx shp = Done layer'
  ->
  Forall2
    (fun feat feat' =>
       zone_key feat' = zone_key feat
       /\ (CollectCensusTractStats3.clip Source ndvi_src lst_src gsc_src mask
             (map geometry
                (List.filter
                   (fun row => String.eqb (zone_key row) (zone_key feat))
                   shp)) <> None ->
           forall name, In name CollectCensusTractStats3.created_fields ->
                        fields feat' !! name <> None))
    shp layer'.
Proof.
  unfold CollectCensusTractStats3.AddRasterStatistics. intros Hdone.
  apply (loop_filled t_sf Source ndvi_src lst_src gsc_src mask nanmedian
           ndvi_nodata lst_nodata band_idx shp) in Hdone.
  eapply Forall2_impl_In; [|exact Hdone].
  intros feat feat' Hin (Hkey & _ & Hfill). split; [exact Hkey|].
  intros Hclip. apply Hfill; [|exact Hclip]. now apply in_map.
Qed.

Lemma batch_fills_every_clipped_zone_witness :
  batch3 = Done (layer_of batch3)
  /\ Forall2
       (fun feat feat' =>
          zone_key feat' = zone_key feat
          /\ (CollectCensusTractStats3.clip nat 1%nat 2%nat 3%nat mask3
                (map geometry
                   (List.filter
                      (fun row => String.eqb (zone_key row) (zone_key feat))
                      zones3)) <> None ->
              forall name, In name CollectCensusTractStats3.created_fields ->
                           fields feat' !! name <> None))
       zones3 (layer_of batch3).
Proof.
  assert (Hdone : batch3 = Done (layer_of batch3))
    by (vm_compute; reflexivity).
  split; [exact Hdone|].
  exact (batch_fills_every_clipped_zone (fun _ _ => PrimFloat.nan)
           nat 1%nat 2%nat 3%nat mask3 (fun band => hd PrimFloat.nan band)
           (Some (b64_of_Z (-9999))) (Some (b64_of_Z (-9999))) 0%Z
           zones3 (layer_of batch3) Hdone).
Defined.

(** ** The statistics rasters of CollectCensusTractStats2.py *)

Lemma length_append (s1 s2 : string) :
  String.length (s1 +:+ s2) = (String.length s1 + String.length s2)%nat.
Proof. induction s1 as [|c s1 IH]; simpl; [reflexivity | now rewrite IH]. Qed.

Lemma append_inj_r (s s1 s2 : string) : s +:+ s1 = s +:+ s2 -> s1 = s2.
Proof. induction s as [|c s IH]; simpl; [tauto | intros [= E]; auto]. Qed.

Lemma length_substring_0 (m : nat) (s : string) :
  (String.length (String.substring 0 m s) <= m)%nat.
Proof.
  revert s. induction m as [|m IH]; intros s.
  - destruct s; simpl; lia.
  - destruct s as [|c s]; simpl; [lia|]. specialize (IH s). lia.
Qed.

Section Stats2Names.
Import CollectCensusTractStats2.

Lemma field_header_cases (description : string) :
  field_header description = "ndvi_"%string
  \/ field_header description = "lst_"%string.
Proof.
  unfold field_header. destruct (String.index 0 "NDVI" description); auto.
Qed.

End Stats2Names.

(** X16.  Every field name that CollectCensusTractStats2.py builds from a
    dataset description and a band description has at most 10 characters;
    under one dataset description, two band descriptions get the same field
    exactly when their first five characters agree; and a field of a dataset
    whose description contains 'NDVI' is never a field of one whose
    description does not. *)
Theorem field_name_fits (description description' bandDesc bandDesc' : string) :
  let field_name d b :=
    CollectCensusTractStats2.field_name (CollectCensusTractStats2.field_header d) b in
  (String.length (field_name description bandDesc) <= 10)%nat
  /\ (field_name description bandDesc = field_name description bandDesc'
      <-> String.substring 0 5 bandDesc = String.substring 0 5 bandDesc')
  /\ (CollectCensusTractStats2.field_header description
      <> CollectCensusTractStats2.field_header description' ->
      field_name description bandDesc <> field_name description' bandDesc').
Proof.
  intros field_name. unfold field_name, CollectCensusTractStats2.field_name. split; [|split].
  - rewrite length_append.
    pose proof (length_substring_0 5 bandDesc).
    destruct (field_header_cases description) as [-> | ->]; simpl; lia.
  - split; [apply append_inj_r | intros ->; reflexivity].
  - destruct (field_header_cases description) as [-> | ->];
      destruct (field_header_cases description') as [-> | ->];
      intros Hne; try congruence; simpl; discriminate.
Qed.

Section WritersOpt.
Context {F G : Type}.
Import CollectCensusTractStats2.
Implicit Types (feat : Feature F G) (layer : list (Feature F G)).

Lemma zone_key_SetFieldOpt (name : string) (value : option F) feat :
  zone_key (SetFieldOpt name value feat) = zone_key feat.
Proof. destruct value; reflexivity. Qed.

Lemma geometry_SetFieldOpt (name : string) (value : option F) feat :
  geometry (SetFieldOpt name value feat) = geometry feat.
Proof. destruct value; reflexivity. Qed.

Lemma fields_SetFieldOpt (name name' : string) (value : option F) feat :
  fields (SetFieldOpt name value feat) !! name'
  = if String.eqb name name' then value else fields feat !! name'.
Proof.
  destruct (String.eqb_spec name name') as [<-|Hne]; destruct value; simpl.
  - apply lookup_insert_eq.
  - apply lookup_delete_eq.
  - apply lookup_insert_ne, Hne.
  - apply lookup_delete_ne, Hne.
Qed.

Lemma zone_key_SetFieldsOpt (values : list (string * option F)) feat :
  zone_key (SetFieldsOpt values feat) = zone_key feat.
Proof.
  revert feat. induction values as [|[name value] values IH]; intros feat;
    [reflexivity|].
  unfold SetFieldsOpt in *. cbn [fold_left]. rewrite IH.
  apply zone_key_SetFieldOpt.
Qed.

Lemma geometry_SetFieldsOpt (values : list (string * option F)) feat :
  geometry (SetFieldsOpt values feat) = geometry feat.
Proof.
  revert feat. induction values as [|[name value] values IH]; intros feat;
    [reflexivity|].
  unfold SetFieldsOpt in *. cbn [fold_left]. rewrite IH.
  apply geometry_SetFieldOpt.
Qed.

Lemma fields_SetFieldsOpt (values : list (string * option F)) feat
  (name : string) :
  fields (SetFieldsOpt values feat) !! name
  = match last_write values name with
    | Some v => v
    | None => fields feat !! name
    end.
Proof.
  revert feat. induction values as [|[name' value] values IH]; intros feat;
    [reflexivity|].
  unfold SetFieldsOpt in *. cbn [fold_left last_write]. rewrite IH.
  destruct (last_write values name); [reflexivity|].
  rewrite fields_SetFieldOpt. destruct (String.eqb name' name); reflexivity.
Qed.

Lemma last_write_app (values1 values2 : list (string * option F))
  (name : string) :
  last_write (values1 ++ values2) name
  = match last_write values2 name with
    | Some v => Some v
    | None => last_write values1 name
    end.
Proof.
  induction values1 as [|[name' value] values1 IH]; cbn [app last_write].
  - destruct (last_write values2 name); reflexivity.
  - rewrite IH. destruct (last_write values2 name); reflexivity.
Qed.

Lemma last_write_In (values : list (string * option F)) (name : string) :
  last_write values name <> None <-> In name (map fst values).
Proof.
  induction values as [|[name' value] values IH]; cbn [last_write map fst].
  - simpl. tauto.
  - destruct (last_write values name) as [v|].
    + split; [intros _; right; apply IH; discriminate | discriminate].
    + destruct (String.eqb_spec name' name) as [->|Hne].
      * split; [intros _; left; reflexivity | discriminate].
      * split; [congruence|]. intros [E|Hin]; [congruence|].
        apply IH in Hin. congruence.
Qed.

(** The values written by a later run over the same fields are the ones
    that stay. *)
Lemma SetFieldsOpt_overwritten (values1 values2 : list (string * option F))
  feat :
  incl (map fst values1) (map fst values2) ->
  SetFieldsOpt (values1 ++ values2) feat = SetFieldsOpt values2 feat.
Proof.
  intros Hincl. apply Feature_eq.
  - rewrite !zone_key_SetFieldsOpt. reflexivity.
  - rewrite !geometry_SetFieldsOpt. reflexivity.
  - apply map_eq. intros name. rewrite !fields_SetFieldsOpt, last_write_app.
    destruct (last_write values2 name) eqn:E2; [reflexivity|].
    destruct (last_write values1 name) eqn:E1; [|reflexivity].
    exfalso. assert (Hin : In name (map fst values1))
      by (apply last_write_In; congruence).
    apply Hincl, last_write_In in Hin. congruence.
Qed.

Lemma fold_for_feat_in {W : Type} (tract_id : string)
  (turn : list (Feature F G) -> W -> list (Feature F G))
  (write : W -> string * option F) (ws : list W) layer :
  (forall layer w,
     turn layer w
     = for_feat_in tract_id (SetFieldOpt (fst (write w)) (snd (write w)))
         layer) ->
  fold_left turn ws layer
  = for_feat_in tract_id (SetFieldsOpt (map write ws)) layer.
Proof.
  intros Hturn. revert layer. induction ws as [|w ws IH]; intros layer.
  - cbn [fold_left map]. unfold for_feat_in. rewrite <- (map_id layer) at 1.
    apply map_ext. intros feat. destruct (String.eqb _ _); reflexivity.
  - cbn [fold_left map]. rewrite IH, Hturn.
    rewrite for_feat_in_compose by (intros; apply zone_key_SetFieldOpt).
    unfold for_feat_in. apply map_ext. intros feat.
    destruct (String.eqb _ _); [|reflexivity].
    unfold SetFieldsOpt. cbn [fold_left]. destruct (write w). reflexivity.
Qed.

End WritersOpt.

Section Stats2Zones.
Context {F G : Type} `{Float64 F}.
Import CollectCensusTractStats2.
Variable median_of : string -> G -> option F.
Variable sum_of_class : Z -> G -> option F.
Variable Arr : Type.
Variable zonal_median : Arr -> G -> option F.
Variable dissolve : list G -> option G.
Implicit Types (feat : Feature F G) (layer : list (Feature F G))
  (tif_files : list (string * list (string * Arr))).

(* the SetField calls of lines 193-195, in the order in which they run *)
Let stat_writes (dissolved : G) tif_files : list (string * option F) :=
  flat_map
    (fun '(description, bands) =>
       map (fun '(bandDesc, arr) =>
              (field_name (field_header description) bandDesc,
               zonal_median arr dissolved))
           (bands : list (string * Arr)))
    tif_files.

Lemma write_stats_eq (tract_id : string) (dissolved : G) tif_files layer :
  write_stats Arr zonal_median tif_files tract_id dissolved layer
  = for_feat_in tract_id (SetFieldsOpt (stat_writes dissolved tif_files))
      layer.
Proof.
  unfold write_stats, stat_writes. revert layer.
  induction tif_files as [|[description bands] tif_files IH]; intros layer.
  - cbn [fold_left flat_map]. unfold for_feat_in.
    rewrite <- (map_id layer) at 1. apply map_ext. intros feat.
    destruct (String.eqb _ _); reflexivity.
  - cbn [fold_left flat_map]. rewrite IH.
    rewrite (fold_for_feat_in tract_id _
               (fun '(bandDesc, arr) =>
                  (field_name (field_header description) bandDesc,
                   zonal_median arr dissolved)))
      by (intros layer0 [bandDesc arr]; reflexivity).
    rewrite for_feat_in_compose by (intros; apply zone_key_SetFieldsOpt).
    unfold for_feat_in. apply map_ext. intros feat.
    destruct (String.eqb _ _); [|reflexivity].
    unfold SetFieldsOpt. rewrite fold_left_app. reflexivity.
Qed.

Lemma stat_writes_names (dissolved : G) tif_files :
  map fst (stat_writes dissolved tif_files)
  = flat_map
      (fun '(description, bands) =>
         map (fun '(bandDesc, _) =>
                field_name (field_header description) bandDesc)
             (bands : list (string * Arr)))
      tif_files.
Proof.
  unfold stat_writes.
  induction tif_files as [|[description bands] tif_files IH];
    [reflexivity|].
  cbn [flat_map]. rewrite map_app, IH. f_equal.
  rewrite map_map. apply map_ext. intros [bandDesc arr]. reflexivity.
Qed.

(** Every field that lines 193-195 write was created at lines 97-120. *)
Lemma stat_writes_created (dissolved : G) tif_files :
  created_fields Arr tif_files
  = ["medianNDVI"; "medianLST"; "greenArea"; "waterArea"; "urbanArea"]%string
    ++ map fst (stat_writes dissolved tif_files).
Proof. unfold created_fields. rewrite stat_writes_names. reflexivity. Qed.

Lemma stat_writes_same_names (dissolved : G) (description1 description2 : string)
  (bands1 bands2 : list (string * Arr)) :
  field_header description1 = field_header description2 ->
  map fst bands1 = map fst bands2 ->
  map fst (stat_writes dissolved [(description1, bands1)])
  = map fst (stat_writes dissolved [(description2, bands2)]).
Proof.
  intros Hh Hb. rewrite !stat_writes_names. cbn [flat_map].
  rewrite !app_nil_r, Hh.
  transitivity (map (field_name (field_header description2)) (map fst bands1)).
  - rewrite map_map. apply map_ext. intros [bandDesc arr]. reflexivity.
  - rewrite Hb, map_map. apply map_ext. intros [bandDesc arr]. reflexivity.
Qed.

Lemma write_stats_overwritten (tract_id : string) (dissolved : G)
  (description1 description2 : string) (bands1 bands2 : list (string * Arr))
  layer :
  field_header description1 = field_header description2 ->
  map fst bands1 = map fst bands2 ->
  write_stats Arr zonal_median
    [(description1, bands1); (description2, bands2)] tract_id dissolved layer
  = write_stats Arr zonal_median [(description2, bands2)] tract_id dissolved
      layer.
Proof.
  intros Hh Hb. rewrite !write_stats_eq.
  unfold for_feat_in. apply map_ext. intros feat.
  destruct (String.eqb _ _); [|reflexivity].
  assert (stat_writes dissolved
            [(description1, bands1); (description2, bands2)]
          = stat_writes dissolved [(description1, bands1)]
            ++ stat_writes dissolved [(description2, bands2)]) as ->
    by (unfold stat_writes; cbn [flat_map]; rewrite !app_nil_r; reflexivity).
  apply SetFieldsOpt_overwritten.
  rewrite (stat_writes_same_names dissolved description1 description2
             bands1 bands2 Hh Hb).
  apply incl_refl.
Qed.

Variable tif_files : list (string * list (string * Arr)).

Let loop := zone_loop median_of sum_of_class Arr zonal_median dissolve
              tif_files.
Let shapes_of (gdf : list (Feature F G)) (tract_id : string) : list G :=
  map geometry
      (List.filter (fun row => String.eqb (zone_key row) tract_id) gdf).

Lemma loop2_app (gdf : list (Feature F G)) (earlier later : list string)
  layer :
  loop gdf (earlier ++ later) layer
  = match loop gdf earlier layer with
    | Done layer => loop gdf later layer
    | Raised layer => Raised layer
    end.
Proof.
  revert layer. induction earlier as [|tract_id earlier IH]; intros layer;
    [reflexivity|].
  unfold loop in *. cbn [app zone_loop].
  destruct (dissolve _); [apply IH | reflexivity].
Qed.

Lemma loop2_aborts (gdf : list (Feature F G)) (tract_id : string)
  (earlier later : list string) layer :
  dissolve (shapes_of gdf tract_id) = None ->
  loop gdf (earlier ++ tract_id :: later) layer
  = Raised (layer_of (loop gdf earlier layer)).
Proof.
  intros E. rewrite loop2_app.
  destruct (loop gdf earlier layer) as [layer1|layer1]; [|reflexivity].
  unfold loop, shapes_of in *. cbn [zone_loop layer_of]. rewrite E.
  reflexivity.
Qed.

(** *** The class areas of a batch that completes *)

(** No statistics field is one of the class-area fields: its name starts
    with the header, [ndvi_] or [lst_]. *)
Lemma stat_writes_not_area (dissolved : G) (name : string) :
  In name ["greenArea"; "waterArea"; "urbanArea"]%string ->
  last_write (stat_writes dissolved tif_files) name = None.
Proof.
  intros Hname.
  destruct (last_write (stat_writes dissolved tif_files) name) eqn:E;
    [|reflexivity].
  exfalso.
  assert (Hin : In name (map fst (stat_writes dissolved tif_files)))
    by (apply last_write_In; congruence).
  rewrite stat_writes_names in Hin.
  apply in_flat_map in Hin as ([description bands] & _ & Hin).
  apply in_map_iff in Hin as ([bandDesc arr] & Hn & _).
  unfold field_name in Hn.
  destruct (field_header_cases description) as [Hh|Hh]; rewrite Hh in Hn;
    simpl in Hname, Hn;
    destruct Hname as [<-|[<-|[<-|[]]]]; discriminate.
Qed.

Let areas (gdf : list (Feature F G)) (tract_id : string) feat : Prop :=
  forall dissolved : G,
    dissolve (shapes_of gdf tract_id) = Some dissolved ->
    let total_area_list := total_area_list sum_of_class dissolved in
    class_areas (area total_area_list 0) (area total_area_list 1)
                (area total_area_list 2) feat.

Lemma zone_body2_eq (tract_id : string) (dissolved : G) layer :
  zone_body median_of sum_of_class Arr zonal_median tif_files tract_id
    dissolved layer
  = for_feat_in tract_id
      (fun feat =>
         SetFieldsOpt (stat_writes dissolved tif_files)
           (SetField "urbanArea"
              (area (total_area_list sum_of_class dissolved) 2)
              (SetField "waterArea"
                 (area (total_area_list sum_of_class dissolved) 1)
                 (SetField "greenArea"
                    (area (total_area_list sum_of_class dissolved) 0)
                    (SetFieldOpt "medianLST" (median_of "LST" dissolved)
                       (SetFieldOpt "medianNDVI" (median_of "NDVI" dissolved)
                          feat))))))
      layer.
Proof.
  unfold zone_body. rewrite write_stats_eq, write_zone_eq.
  apply for_feat_in_compose. intros feat.
  apply (zone_key_body median_of sum_of_class).
Qed.

Lemma zone_body2_areas (gdf : list (Feature F G)) (tract_id : string)
  (dissolved : G) layer :
  dissolve (shapes_of gdf tract_id) = Some dissolved ->
  Forall2 (zone_turn (areas gdf) tract_id) layer
    (zone_body median_of sum_of_class Arr zonal_median tif_files tract_id
       dissolved layer).
Proof.
  intros Hd. rewrite zone_body2_eq. apply zone_turn_for_feat_in.
  - intros feat. rewrite zone_key_SetFieldsOpt.
    apply (zone_key_body median_of sum_of_class).
  - intros feat _ dissolved' Hd'. rewrite Hd in Hd'. injection Hd' as <-.
    pose proof (fields_body median_of sum_of_class dissolved feat)
      as (_ & _ & Hg & Hw & Hu).
    unfold class_areas. rewrite !fields_SetFieldsOpt.
    rewrite !stat_writes_not_area by (simpl; tauto).
    repeat split; assumption.
Qed.

Lemma loop2_areas (gdf : list (Feature F G)) (tract_ids : list string)
  layer layer' :
  loop gdf tract_ids layer = Done layer' ->
  Forall2 (zone_turns (areas gdf) tract_ids) layer layer'.
Proof.
  revert layer. induction tract_ids as [|tract_id later IH]; intros layer.
  - intros [= <-]. apply Forall2_diag, zone_turns_nil.
  - unfold loop in *. cbn [zone_loop].
    destruct (dissolve _) as [dissolved|] eqn:Hd; [|discriminate].
    intros Hloop. eapply Forall2_chain;
      [apply zone_turns_cons | apply zone_body2_areas, Hd | apply IH, Hloop].
Qed.

End Stats2Zones.

Section Stats2Overwrite.
Context {F G : Type} `{Float64 F}.
Import CollectCensusTractStats2.
Variable median_of : string -> G -> option F.
Variable sum_of_class : Z -> G -> option F.
Variable Arr : Type.
Variable zonal_median : Arr -> G -> option F.
Variable dissolve : list G -> option G.

Lemma loop2_overwritten (description1 description2 : string)
  (bands1 bands2 : list (string * Arr))
  (gdf : list (Feature F G)) (tract_ids : list string)
  (layer : list (Feature F G)) :
  field_header description1 = field_header description2 ->
  map fst bands1 = map fst bands2 ->
  zone_loop median_of sum_of_class Arr zonal_median dissolve
    [(description1, bands1); (description2, bands2)] gdf tract_ids layer
  = zone_loop median_of sum_of_class Arr zonal_median dissolve
      [(description2, bands2)] gdf tract_ids layer.
Proof.
  intros Hh Hb. revert layer.
  induction tract_ids as [|tract_id later IH]; intros layer; [reflexivity|].
  cbn [zone_loop]. destruct (dissolve _) as [dissolved|]; [|reflexivity].
  unfold zone_body. rewrite (write_stats_overwritten Arr zonal_median
                               tract_id dissolved description1 description2
                               bands1 bands2 _ Hh Hb).
  apply IH.
Qed.

End Stats2Overwrite.

Lemma RasterLinModel_descriptions {F : Type} `{Float64 F}
  (t_sf : F -> Z -> F) (raster : list Band) (start_year end_year : Z)
  (out_ds : list OutBand) :
  RasterLinModel t_sf raster start_year end_year = Some out_ds ->
  map Description out_ds = stat_labs.
Proof.
  unfold RasterLinModel.
  destruct (read_bands raster _) as [[band_data time_data]|]; [|discriminate].
  destruct (pixel_stats t_sf band_data time_data); [|discriminate].
  intros [= <-]. reflexivity.
Qed.

Lemma NoDup_map_append (s : string) (l : list string) :
  List.NoDup l -> List.NoDup (map (String.append s) l).
Proof.
  intros Hl. induction Hl as [|x l Hx Hl IH]; cbn [map]; constructor.
  - rewrite in_map_iff. intros (y & E & Hin). apply append_inj_r in E.
    subst. contradiction.
  - exact IH.
Qed.

(** X17.  The zone loop of CollectCensusTractStats2.py has no try: when the
    dissolve of a zone raises, the batch stops there.  The zones before it
    are written, the failing zone and the zones after it are not; the layer
    left is the one the earlier zones produced. *)
Theorem stats2_batch_aborts {F G : Type} `{Float64 F}
  (median_of : string -> G -> option F) (sum_of_class : Z -> G -> option F)
  (Arr : Type) (zonal_median : Arr -> G -> option F)
  (dissolve : list G -> option G)
  (tif_files : list (string * list (string * Arr)))
  (gdf : list (Feature F G)) (tract_id : string)
  (earlier later : list string) (layer : list (Feature F G)) :
  let loop :=
    CollectCensusTractStats2.zone_loop median_of sum_of_class Arr zonal_median dissolve tif_files in
  dissolve
    (map geometry
       (List.filter (fun row => String.eqb (zone_key row) tract_id) gdf))
  = None ->
  loop gdf (earlier ++ tract_id :: later) layer
  = Raised (layer_of (loop gdf earlier layer)).
Proof.
  intros loop E.
  exact (loop2_aborts median_of sum_of_class Arr zonal_median dissolve
           tif_files gdf tract_id earlier later layer E).
Qed.

Lemma stats2_batch_aborts_witness :
  dissolve2
    (map geometry
       (List.filter (fun row => String.eqb (zone_key row) "B") zones3))
  = None
  /\ zone_loop2 [ndvi_stats2; lst_stats2] zones3
       (["A"%string] ++ "B"%string :: ["C"%string])%list zones3
     = Raised (layer_of (zone_loop2 [ndvi_stats2; lst_stats2] zones3
                           ["A"%string] zones3)).
Proof.
  assert (E : dissolve2
                (map geometry
                   (List.filter (fun row => String.eqb (zone_key row) "B")
                      zones3)) = None) by reflexivity.
  split; [exact E|].
  exact (stats2_batch_aborts median2 sum2 Z zonal_median2 dissolve2
           [ndvi_stats2; lst_stats2] zones3 "B" ["A"%string] ["C"%string]
           zones3 E).
Defined.

(** X19.  CollectCensusTractStats2.py tells the NDVI raster from the LST
    raster by the substring 'NDVI' of the dataset description alone.  When
    the two descriptions get the same header (both contain 'NDVI', or
    neither does) and the rasters have the same band descriptions, the
    second raster writes the fields that the first one wrote: the batch
    leaves exactly what it leaves when the first raster is not given at
    all. *)
Theorem stats2_same_header_overwrites {F G : Type} `{Float64 F}
  (median_of : string -> G -> option F) (sum_of_class : Z -> G -> option F)
  (Arr : Type) (zonal_median : Arr -> G -> option F)
  (dissolve : list G -> option G)
  (description1 description2 : string) (bands1 bands2 : list (string * Arr))
  (shp : list (Feature F G)) :
  CollectCensusTractStats2.field_header description1 = CollectCensusTractStats2.field_header description2 ->
  map fst bands1 = map fst bands2 ->
  CollectCensusTractStats2.AddRasterStatistics median_of sum_of_class Arr zonal_median dissolve
    [(description1, bands1); (description2, bands2)] shp
  = CollectCensusTractStats2.AddRasterStatistics median_of sum_of_class Arr zonal_median dissolve
      [(description2, bands2)] shp.
Proof.
  intros Hh Hb. unfold CollectCensusTractStats2.AddRasterStatistics.
  apply loop2_overwritten; assumption.
Qed.

Lemma stats2_same_header_overwrites_witness :
  CollectCensusTractStats2.field_header (fst ndvi_stats2) = CollectCensusTractStats2.field_header (fst lst_stats2)
  /\ map fst (snd ndvi_stats2) = map fst (snd lst_stats2)
  /\ CollectCensusTractStats2.AddRasterStatistics median2 sum2 Z zonal_median2 dissolve2
       [(fst ndvi_stats2, snd ndvi_stats2); (fst lst_stats2, snd lst_stats2)]
       zones3
     = CollectCensusTractStats2.AddRasterStatistics median2 sum2 Z zonal_median2 dissolve2
         [(fst lst_stats2, snd lst_stats2)] zones3.
Proof.
  assert (Hh : CollectCensusTractStats2.field_header (fst ndvi_stats2) = CollectCensusTractStats2.field_header (fst lst_stats2))
    by reflexivity.
  assert (Hb : map fst (snd ndvi_stats2) = map fst (snd lst_stats2))
    by reflexivity.
  split; [exact Hh|]. split; [exact Hb|].
  exact (stats2_same_header_overwrites median2 sum2 Z zonal_median2 dissolve2
           (fst ndvi_stats2) (fst lst_stats2) (snd ndvi_stats2)
           (snd lst_stats2) zones3 Hh Hb).
Defined.

(** X20.  The two scripts together: from the seven band descriptions that
    RasterLinModel sets (line 183), CollectCensusTractStats2.py (lines 112
    and 114) builds seven different field names under either header, the
    header followed by covar, corre, slope, inter, tstat, stder and pval;
    cutting the descriptions to five characters merges no two statistics. *)
Theorem trend_bands_get_seven_fields {F : Type} `{Float64 F}
  (t_sf : F -> Z -> F) (raster : list Band) (start_year end_year : Z)
  (out_ds : list OutBand) (description : string) :
  RasterLinModel t_sf raster start_year end_year = Some out_ds ->
  let names :=
    map (fun band =>
           CollectCensusTractStats2.field_name (CollectCensusTractStats2.field_header description) (Description band))
        out_ds in
  names
  = map (String.append (CollectCensusTractStats2.field_header description))
        ["covar"; "corre"; "slope"; "inter"; "tstat"; "stder"; "pval"]%string
  /\ List.NoDup names.
Proof.
  intros Hout names.
  assert (Hnames :
            names
            = map (String.append (CollectCensusTractStats2.field_header description))
                ["covar"; "corre"; "slope"; "inter"; "tstat"; "stder";
                 "pval"]%string).
  { unfold names.
    rewrite <- (map_map Description
                  (fun d => CollectCensusTractStats2.field_name (CollectCensusTractStats2.field_header description) d)).
    rewrite (RasterLinModel_descriptions t_sf raster start_year end_year
               out_ds Hout).
    reflexivity. }
  split; [exact Hnames|]. rewrite Hnames. apply NoDup_map_append.
  repeat constructor; simpl; intuition discriminate.
Qed.

Lemma trend_bands_get_seven_fields_witness :
  RasterLinModel (fun _ _ => PrimFloat.nan) raster_b64 1990 1998
  = Some (default [] (RasterLinModel (fun _ _ => PrimFloat.nan) raster_b64
                        1990 1998))
  /\ (let names :=
        map (fun band =>
               CollectCensusTractStats2.field_name (CollectCensusTractStats2.field_header "trends/NDVI_trend.tif")
                 (Description band))
            (default [] (RasterLinModel (fun _ _ => PrimFloat.nan) raster_b64
                           1990 1998)) in
      names
      = map (String.append (CollectCensusTractStats2.field_header "trends/NDVI_trend.tif"))
          ["covar"; "corre"; "slope"; "inter"; "tstat"; "stder";
           "pval"]%string
      /\ List.NoDup names).
Proof.
  assert (Hout :
            RasterLinModel (fun _ _ => PrimFloat.nan) raster_b64 1990 1998
            = Some (default [] (RasterLinModel (fun _ _ => PrimFloat.nan)
                                  raster_b64 1990 1998)))
    by (vm_compute; reflexivity).
  split; [exact Hout|].
  exact (trend_bands_get_seven_fields (fun _ _ => PrimFloat.nan) raster_b64
           1990 1998 _ "trends/NDVI_trend.tif" Hout).
Defined.

(** ** The zonal pipeline on whole layers *)


(** C10 (amended).  When AddRasterStatistics runs to its end, every feature
    of a zone that was not skipped holds, in greenArea, waterArea and
    urbanArea, the class areas of its zone, and not a null.  In
    CollectCensusTractStats3.py (a zone is skipped when one of its clips
    raises) the area of class 1, 2 or 3 is the count of the pixels of that
    class in what was clipped for the zone, times 5 * 5 = 25, and a feature
    of a skipped zone is left as it was, its area fields null if they were;
    in CollectCensusTractStats2.py the area is the zonal sum of the class
    mask, taken as 0 when [zonal_stats] reports none, times 5 and times 5.
    A class without pixel gives the value 0. *)
Theorem C10_class_areas {F G : Type} `{Float64 F}
  (t_sf : F -> Z -> F) (Source : Type) (ndvi_src lst_src gsc_src : Source)
  (mask : Source -> list G -> option (list (list F)))
  (nanmedian : list F -> F) (ndvi_nodata lst_nodata : option F)
  (band_idx : Z)
  (median_of : string -> G -> option F) (sum_of_class : Z -> G -> option F)
  (Arr : Type) (zonal_median : Arr -> G -> option F)
  (dissolve : list G -> option G)
  (tif_files : list (string * list (string * Arr)))
  (shp layer3 layer2 : list (Feature F G)) :
  let shapes (feat : Feature F G) :=
    map geometry
        (List.filter (fun row => String.eqb (zone_key row) (zone_key feat))
                     shp) in
  (CollectCensusTractStats3.AddRasterStatistics t_sf Source ndvi_src lst_src
     gsc_src mask nanmedian ndvi_nodata lst_nodata band_idx shp = Done layer3
   -> Forall2
        (fun feat feat' =>
           zone_key feat' = zone_key feat
           /\ (CollectCensusTractStats3.clip Source ndvi_src lst_src gsc_src
                 mask (shapes feat) = None -> feat' = feat)
           /\ forall in_mem_ndvi in_mem_lst in_mem_gsc : list (list F),
                CollectCensusTractStats3.clip Source ndvi_src lst_src gsc_src
                  mask (shapes feat)
                = Some (in_mem_ndvi, in_mem_lst, in_mem_gsc) ->
                let count := fun i : Z =>
                  Z.of_nat (length (List.filter (fun x => feqb x (of_Z i))
                                                (concat in_mem_gsc))) in
                class_areas (of_Z (count 1 * 25)%Z) (of_Z (count 2 * 25)%Z)
                            (of_Z (count 3 * 25)%Z) feat')
        shp layer3)
  /\ (CollectCensusTractStats2.AddRasterStatistics median_of sum_of_class Arr
        zonal_median dissolve tif_files shp = Done layer2
      -> Forall2
           (fun feat feat' =>
              zone_key feat' = zone_key feat
              /\ forall dissolved : G,
                   dissolve (shapes feat) = Some dissolved ->
                   let total := fun i : Z =>
                     match sum_of_class i dissolved with
                     | Some v => v
                     | None => of_Z 0
                     end in
                   class_areas
                     (fmul (fmul (total 1%Z) (of_Z 5)) (of_Z 5))
                     (fmul (fmul (total 2%Z) (of_Z 5)) (of_Z 5))
                     (fmul (fmul (total 3%Z) (of_Z 5)) (of_Z 5)) feat')
           shp layer2).
Proof.
  intros shapes. split; [intros H3 | intros H2].
  - unfold CollectCensusTractStats3.AddRasterStatistics in H3.
    pose proof (loop_skipped t_sf Source ndvi_src lst_src gsc_src mask
                  nanmedian ndvi_nodata lst_nodata band_idx shp
                  (map zone_key shp) shp) as Hskip.
    rewrite H3 in Hskip. cbn [layer_of] in Hskip.
    apply (loop_areas t_sf Source ndvi_src lst_src gsc_src mask nanmedian
             ndvi_nodata lst_nodata band_idx shp) in H3.
    eapply Forall2_impl_In; [|exact (Forall2_both _ _ _ _ Hskip H3)].
    intros feat feat' Hin [[_ Hsame] (Hkey & _ & Hareas)].
    split; [exact Hkey|]. split; [exact Hsame|].
    intros ndvi lst gsc Hclip count.
    specialize (Hareas (in_map zone_key shp feat Hin) ndvi lst gsc Hclip).
    assert (Harea : forall i, CollectCensusTractStats3.class_area gsc i
                              = (count i * 25)%Z)
      by (intros i; unfold CollectCensusTractStats3.class_area, count; lia).
    rewrite <- !Harea. exact Hareas.
  - unfold CollectCensusTractStats2.AddRasterStatistics in H2.
    apply (loop2_areas median_of sum_of_class Arr zonal_median dissolve
             tif_files shp) in H2.
    eapply Forall2_impl_In; [|exact H2].
    intros feat feat' Hin (Hkey & _ & Hareas). split; [exact Hkey|].
    intros dissolved Hd total.
    exact (Hareas (in_map zone_key shp feat Hin) dissolved Hd).
Qed.

Lemma C10_witness :
  let shapes (feat : Feature float Z) :=
    map geometry
        (List.filter (fun row => String.eqb (zone_key row) (zone_key feat))
                     zones3) in
  (batch3 = Done (layer_of batch3) /\ batch2 = Done (layer_of batch2))
  /\ Forall2
       (fun feat feat' =>
          zone_key feat' = zone_key feat
          /\ (CollectCensusTractStats3.clip nat 1%nat 2%nat 3%nat mask3
                (shapes feat) = None -> feat' = feat)
          /\ forall in_mem_ndvi in_mem_lst in_mem_gsc : list (list float),
               CollectCensusTractStats3.clip nat 1%nat 2%nat 3%nat mask3
                 (shapes feat)
               = Some (in_mem_ndvi, in_mem_lst, in_mem_gsc) ->
               let count := fun i : Z =>
                 Z.of_nat (length (List.filter (fun x => feqb x (of_Z i))
                                               (concat in_mem_gsc))) in
               class_areas (of_Z (count 1 * 25)%Z) (of_Z (count 2 * 25)%Z)
                           (of_Z (count 3 * 25)%Z) feat')
       zones3 (layer_of batch3)
  /\ Forall2
       (fun feat feat' =>
          zone_key feat' = zone_key feat
          /\ forall dissolved : Z,
               dissolve_all (shapes feat) = Some dissolved ->
               let total := fun i : Z =>
                 match sum2 i dissolved with
                 | Some v => v
                 | None => of_Z 0
                 end in
               class_areas (fmul (fmul (total 1%Z) (of_Z 5)) (of_Z 5))
                           (fmul (fmul (total 2%Z) (of_Z 5)) (of_Z 5))
                           (fmul (fmul (total 3%Z) (of_Z 5)) (of_Z 5)) feat')
       zones3 (layer_of batch2).
Proof.
  intros shapes.
  assert (H3 : batch3 = Done (layer_of batch3)) by (vm_compute; reflexivity).
  assert (H2 : batch2 = Done (layer_of batch2)) by (vm_compute; reflexivity).
  split; [split; assumption|].
  destruct (C10_class_areas (fun _ _ => PrimFloat.nan)
              nat 1%nat 2%nat 3%nat mask3 (fun band => hd PrimFloat.nan band)
              (Some (b64_of_Z (-9999))) (Some (b64_of_Z (-9999))) 0%Z
              median2 sum2 Z zonal_median2 dissolve_all
              [ndvi_stats2; lst_stats2] zones3 (layer_of batch3)
              (layer_of batch2)) as [Hstats3 Hstats2].
  split; [exact (Hstats3 H3) | exact (Hstats2 H2)].
Defined.

(** C10, as stated, fails: not every zone receives an area.  In the run
    [batch3] of CollectCensusTractStats3.py the clip of zone B raises, the
    zone is skipped, the batch runs to its end, and the three area fields of
    zone B are null, while zones A and C, which have no pixel of class 1,
    get the green area 0. *)
Lemma C10_counterexample :
  CollectCensusTractStats3.clip nat 1%nat 2%nat 3%nat mask3
    (map geometry
       (List.filter (fun row => String.eqb (zone_key row) "B") zones3))
  = None
  /\ exists layer,
       batch3 = Done layer
       /\ map (fun feat => (zone_key feat,
                            fields feat !! "greenArea"%string,
                            fields feat !! "waterArea"%string,
                            fields feat !! "urbanArea"%string))
              layer
          = [("A"%string, Some 0%float, Some 750%float, Some 750%float);
             ("B"%string, None, None, None);
             ("C"%string, Some 0%float, Some 750%float, Some 750%float)].
Proof.
  split; [reflexivity|].
  exists (layer_of batch3). split; vm_compute; reflexivity.
Qed.

(** C7 (amended).  In the zone loop of CollectCensusTractStats3.py, when
    one of the three clips of a zone raises, the zone is skipped and the
    loop goes on: the outcome of the batch is the outcome of the batch
    without that zone, wherever the zone stands in the list; whatever the
    outcome, every feature of the skipped zone is left as it was, no field
    written; and when the batch runs to its end, every feature of every
    listed zone whose clips succeeded has a value in each of the 19 fields
    created at lines 100-112. *)
Theorem C7_failing_zone_is_skipped {F G : Type} `{Float64 F}
  (t_sf : F -> Z -> F) (Source : Type) (ndvi_src lst_src gsc_src : Source)
  (mask : Source -> list G -> option (list (list F)))
  (nanmedian : list F -> F) (ndvi_nodata lst_nodata : option F)
  (band_idx : Z)
  (gdf : list (Feature F G)) (tract_id : string)
  (earlier later : list string) (layer : list (Feature F G)) :
  let loop :=
    CollectCensusTractStats3.zone_loop t_sf Source ndvi_src lst_src gsc_src
      mask nanmedian ndvi_nodata lst_nodata band_idx in
  let shapes_of (id : string) :=
    map geometry
        (List.filter (fun row => String.eqb (zone_key row) id) gdf) in
  let tract_ids := (earlier ++ tract_id :: later)%list in
  mask ndvi_src (shapes_of tract_id) = None
  \/ mask lst_src (shapes_of tract_id) = None
  \/ mask gsc_src (shapes_of tract_id) = None ->
  loop gdf (tract_id :: later) layer = loop gdf later layer
  /\ loop gdf tract_ids layer = loop gdf (earlier ++ later)%list layer
  /\ Forall2
       (fun feat feat' =>
          zone_key feat' = zone_key feat
          /\ (zone_key feat = tract_id -> feat' = feat))
       layer (layer_of (loop gdf tract_ids layer))
  /\ forall layer',
       loop gdf tract_ids layer = Done layer' ->
       Forall2
         (fun feat feat' =>
            In (zone_key feat) tract_ids ->
            CollectCensusTractStats3.clip Source ndvi_src lst_src gsc_src
              mask (shapes_of (zone_key feat)) <> None ->
            forall name, In name CollectCensusTractStats3.created_fields ->
                         fields feat' !! name <> None)
         layer layer'.
Proof.
  intros loop shapes_of tract_ids E.
  pose proof (clip_raises Source ndvi_src lst_src gsc_src mask
                (shapes_of tract_id) E) as Hc.
  split; [|split; [|split]].
  - exact (loop_skips_head t_sf Source ndvi_src lst_src gsc_src mask
             nanmedian ndvi_nodata lst_nodata band_idx gdf tract_id later
             layer Hc).
  - exact (loop_skips t_sf Source ndvi_src lst_src gsc_src mask
             nanmedian ndvi_nodata lst_nodata band_idx gdf tract_id earlier
             later layer Hc).
  - pose proof (loop_skipped t_sf Source ndvi_src lst_src gsc_src mask
                  nanmedian ndvi_nodata lst_nodata band_idx gdf tract_ids
                  layer) as Hs.
    eapply Forall2_impl; [exact Hs|].
    intros feat feat' [Hkey Hsame]. split; [exact Hkey|].
    intros Hid. apply Hsame. rewrite Hid. exact Hc.
  - intros layer' Hdone.
    apply (loop_filled t_sf Source ndvi_src lst_src gsc_src mask nanmedian
             ndvi_nodata lst_nodata band_idx gdf) in Hdone.
    eapply Forall2_impl; [exact Hdone|].
    intros feat feat' (_ & _ & Hfill). exact Hfill.
Qed.

Lemma C7_witness :
  let shapes_of (id : string) :=
    map geometry
        (List.filter (fun row => String.eqb (zone_key row) id) zones3) in
  let tract_ids := (["A"%string] ++ "B"%string :: ["C"%string])%list in
  let layer' := layer_of (zone_loop3 zones3 tract_ids zones3) in
  (mask3 1 (shapes_of "B"%string) = None
   \/ mask3 2 (shapes_of "B"%string) = None
   \/ mask3 3 (shapes_of "B"%string) = None)
  /\ zone_loop3 zones3 ["B"; "C"]%string zones3
     = zone_loop3 zones3 ["C"]%string zones3
  /\ zone_loop3 zones3 tract_ids zones3
     = zone_loop3 zones3 (["A"%string] ++ ["C"%string])%list zones3
  /\ Forall2
       (fun feat feat' =>
          zone_key feat' = zone_key feat
          /\ (zone_key feat = "B"%string -> feat' = feat))
       zones3 layer'
  /\ zone_loop3 zones3 tract_ids zones3 = Done layer'
  /\ Forall2
       (fun feat feat' =>
          In (zone_key feat) tract_ids ->
          CollectCensusTractStats3.clip nat 1%nat 2%nat 3%nat mask3
            (shapes_of (zone_key feat)) <> None ->
          forall name, In name CollectCensusTractStats3.created_fields ->
                       fields feat' !! name <> None)
       zones3 layer'.
Proof.
  intros shapes_of tract_ids layer'.
  assert (E : mask3 1 (shapes_of "B"%string) = None
              \/ mask3 2 (shapes_of "B"%string) = None
              \/ mask3 3 (shapes_of "B"%string) = None) by (left; reflexivity).
  assert (Hdone : zone_loop3 zones3 tract_ids zones3 = Done layer')
    by (vm_compute; reflexivity).
  destruct (C7_failing_zone_is_skipped (fun _ _ => PrimFloat.nan)
              nat 1%nat 2%nat 3%nat mask3 (fun band => hd PrimFloat.nan band)
              (Some (b64_of_Z (-9999))) (Some (b64_of_Z (-9999))) 0%Z
              zones3 "B" ["A"%string] ["C"%string] zones3 E)
    as (Hhead & Hskip & Hsame & Hfilled).
  split; [exact E|]. split; [exact Hhead|]. split; [exact Hskip|].
  split; [exact Hsame|]. split; [exact Hdone|]. exact (Hfilled layer' Hdone).
Defined.

(** C7, as stated, fails for the dissolve.  CollectCensusTractStats2.py
    dissolves at line 137, outside any try: in this run zone B cannot be
    dissolved, the exception ends the batch, zone A is the only zone written
    and zone C, which comes after B, is never processed. *)
Lemma C7_counterexample :
  dissolve2
    (map geometry
       (List.filter (fun row => String.eqb (zone_key row) "B") zones3))
  = None
  /\ dissolve2
       (map geometry
          (List.filter (fun row => String.eqb (zone_key row) "C") zones3))
     = Some 2%Z
  /\ exists layer,
       CollectCensusTractStats2.AddRasterStatistics median2 sum2 Z
         zonal_median2 dissolve2 [ndvi_stats2; lst_stats2] zones3
       = Raised layer
       /\ map (fun feat => (zone_key feat, size (fields feat))) layer
          = [("A"%string, 12%nat); ("B"%string, 0%nat); ("C"%string, 0%nat)].
Proof.
  split; [reflexivity|]. split; [reflexivity|].
  eexists. split; vm_compute; reflexivity.
Qed.

(** ** WarpToMatchResolution in binary64 *)

(** A call with a match raster of 30 m: 95 / 30 and 93 / 30 are cut to 3
    cells. *)
Lemma Warp_b64 :
  WarpToMatchResolution
    {| gt_0 := 0; gt_1 := 30; gt_2 := 0; gt_3 := 100; gt_4 := 0;
       gt_5 := -30 |}%float 10 10 None
    {| ext_0 := 5; ext_1 := 100; ext_2 := 7; ext_3 := 100 |}%float
  = Some {| dstNodata := (-9999)%float; width := 3; height := 3;
            outputBounds := [5; 7; 100; 100]%float |}.
Proof. vm_compute. reflexivity. Qed.

(** The quotient is rounded before it is truncated: an extent of 1 at the
    resolution 0.1 (the float next above one tenth) gives 10 cells, although
    ten cells of that size are wider than the extent.  And a quotient that
    overflows is infinite: [int] raises OverflowError. *)
Lemma Warp_b64_rounded :
  option_map (fun args => (width args, height args))
    (WarpToMatchResolution
       {| gt_0 := 0; gt_1 := 0x1.999999999999ap-4; gt_2 := 0; gt_3 := 1;
          gt_4 := 0; gt_5 := -0x1.999999999999ap-4 |}%float 10 10 None
       {| ext_0 := 0; ext_1 := 1; ext_2 := 0; ext_3 := 1 |}%float)
  = Some (10%Z, 10%Z)
  /\ WarpToMatchResolution
       {| gt_0 := 0; gt_1 := 0x1p-1000; gt_2 := 0; gt_3 := 1;
          gt_4 := 0; gt_5 := -0x1p-1000 |}%float 10 10 None
       {| ext_0 := 0; ext_1 := 0x1p100; ext_2 := 0; ext_3 := 0x1p100 |}%float
     = None.
Proof. vm_compute. repeat split. Qed.
